(** * Tinpot: the broker-mediated action dispatch plane

  A shallow embedding of the Go sources of tinpot: the shared wire types
  (package [tinpot]), the coordinator built on the [ActionManager]
  interface ([cmd/coordinator]), the earlier gin-based coordinator
  ([coordinator/main.go]), and the two workers.  Broker traffic is modelled
  as the list of client operations a handler issues, channels as bounded
  FIFO buffers with Go's send/close/receive rules, and library functions
  ([encoding/json], [fmt]'s float formatting, [uuid.New], [time.Now]) as
  parameters. *)

From Stdlib Require Import ZArith Ascii String List Lia Bool.
From stdpp Require Import base gmap strings list.

#[local] Set Warnings "-register-all,-clear-no-such-hyp".
#[local] Open Scope string_scope.
#[local] Open Scope list_scope.

(** ** Go data *)

Module Go.

(** A finite [float64]: the dyadic rational [mant * 2^expo].  Values
    decoded by [encoding/json] are always finite. *)
Record float64 : Type := F64 { mant : Z; expo : Z }.

Definition float64_wf (f : float64) : Prop :=
  (Z.abs (mant f) < 2 ^ 53 ∧ -1074 ≤ expo f ≤ 971)%Z.

Definition int64_min : Z := - 2 ^ 63.
Definition int64_max : Z := 2 ^ 63 - 1.

(** The value with its fraction discarded (truncation towards zero). *)
Definition trunc (f : float64) : Z :=
  if (0 <=? expo f)%Z then (mant f * 2 ^ expo f)%Z
  else Z.quot (mant f) (2 ^ (- expo f)).

(** The conversion [int(val)] where [int] has 64 bits.  Go leaves the
    result for a value outside [int]'s range to the implementation:
    [overflow] is what the platform gives for such a value. *)
Definition int_of_float64 (overflow : float64 → Z) (f : float64) : Z :=
  let t := trunc f in
  if ((int64_min <=? t) && (t <=? int64_max))%Z then t else overflow f.

(** amd64 converts with [CVTTSD2SQ], which gives [math.MinInt64] for every
    value out of range. *)
Definition overflow_amd64 (f : float64) : Z := int64_min.

(** arm64 converts with [FCVTZS], which saturates. *)
Definition overflow_arm64 (f : float64) : Z :=
  if (trunc f <? 0)%Z then int64_min else int64_max.

(** The conversion [float64(i)]: exact below [2^53], else rounded to 53
    significant bits, ties to even. *)
Definition float64_of_int (i : Z) : float64 :=
  let a := Z.abs i in
  if (a <? 2 ^ 53)%Z then F64 i 0
  else
    let k := (Z.log2 a - 52)%Z in
    let q := (a / 2 ^ k)%Z in
    let r := (a mod 2 ^ k)%Z in
    let half := (2 ^ (k - 1))%Z in
    let q' := if (r <? half)%Z then q
              else if (half <? r)%Z then (q + 1)%Z
              else if Z.even q then q else (q + 1)%Z in
    F64 (Z.sgn i * q') k.

(** [a == b] on finite floats: equality of the values. *)
Definition float64_eqb (a b : float64) : bool :=
  let e := Z.min (expo a) (expo b) in
  (mant a * 2 ^ (expo a - e) =? mant b * 2 ^ (expo b - e))%Z.

(** [interface{}] as produced by [json.Unmarshal]: nil, bool, float64,
    string, [[]interface{}] and [map[string]interface{}]. *)
Inductive any : Type :=
  | ANil
  | ABool (b : bool)
  | ANum (f : float64)
  | AStr (s : string)
  | AArr (l : list any)
  | AMap (m : gmap string any).

(** [strings.Split(s, sep)] for a one-character separator. *)
Fixpoint Split (sep : ascii) (s : string) : list string :=
  match s with
  | EmptyString => [EmptyString]
  | String c s' =>
      if Ascii.eqb c sep then EmptyString :: Split sep s'
      else match Split sep s' with
           | [] => [String c EmptyString]
           | p :: ps => String c p :: ps
           end
  end.

(** A Go string as C code reads it: [C.CString] copies the bytes and
    appends a NUL, and the reader stops at the first NUL. *)
Fixpoint CString (s : string) : string :=
  match s with
  | EmptyString => EmptyString
  | String c s' => if Ascii.eqb c Ascii.zero then EmptyString else String c (CString s')
  end.

(** [strings.HasPrefix(s, p)]. *)
Definition HasPrefix (s p : string) : bool := String.prefix p s.

Fixpoint contains_char (c : ascii) (s : string) : bool :=
  match s with
  | EmptyString => false
  | String c' s' => Ascii.eqb c' c || contains_char c s'
  end.

End Go.

Import Go.

(** ** Package [tinpot]: the wire types *)

Definition MQTT_TOPIC_PREFIX : string := "tinpot/actions/".

Record MqttAction : Type := mkMqttAction {
  Description : string;
  Group : string;
  Parameters : list string;
  TriggerTopic : string
}.

Record ActionInfo : Type := mkActionInfo {
  ai_Name : string;
  ai_Description : string;
  ai_Group : string;
  ai_Parameters : list string
}.

Record MqttLogEntry : Type := mkMqttLogEntry {
  Timestamp : string;
  Level : string;
  Message : string
}.

Record MqttResultResponse : Type := mkMqttResultResponse {
  Status : string;
  Result : any;
  Error : string
}.

Record ExecutionRequest : Type := mkExecutionRequest {
  ExecutionID : string;
  req_Parameters : option (gmap string any);
  ResultTopic : string;
  LogTopic : string
}.

(** A message handed to a subscription callback. *)
Record mqtt_Message : Type := mkMessage {
  Topic : string;
  Payload : list Byte.byte
}.

(** ** The coordinator catalog ([mqttActionManager], and the subscription
  handler of [coordinator/main.go], which is the same code over its own
  [Action] struct) *)

Module Catalog.
Section Handler.
(** The struct stored in the map and its [json.Unmarshal]. *)
Context {A : Type}.
Variable json_Unmarshal : list Byte.byte → option A.

(** The action name the handler reads off a topic: [parts[2]] when the
    topic has exactly three segments. *)
Definition topic_action (topic : string) : option string :=
  match Split "/" topic with
  | [_; _; actionName] => Some actionName
  | _ => None
  end.

(** The handler, as a function on the [actions] map; the lines it logs
    are left out. *)
Definition onActionAnnounced (actions : gmap string A) (msg : mqtt_Message)
  : gmap string A :=
  match topic_action (Topic msg) with
  | None => actions
  | Some actionName =>
      if (length (Payload msg) =? 0)%nat then delete actionName actions
      else match json_Unmarshal (Payload msg) with
           | None => actions
           | Some act => <[actionName := act]> actions
           end
  end.

(** The broker delivers announcements one at a time to the handler. *)
Definition deliver (actions : gmap string A) (msgs : list mqtt_Message)
  : gmap string A :=
  foldl onActionAnnounced actions msgs.

(** [Lookup]: the map read of [GetAction] / [executeAction]. *)
Definition Lookup (actions : gmap string A) (name : string) : option A :=
  actions !! name.
End Handler.

Definition ListActions (actions : gmap string MqttAction)
  : gmap string ActionInfo :=
  map_imap (fun name act =>
    Some (mkActionInfo name (Description act) (Group act) (Parameters act)))
    actions.
End Catalog.

(** The worker's announcement topic, [announceTopicForAction]. *)
Definition announceTopicForAction (actionName : string) : string :=
  "tinpot/actions/" +:+ actionName.

Definition announcement (name : string) (payload : list Byte.byte) : mqtt_Message :=
  mkMessage (announceTopicForAction name) payload.

(** ** The broker client, as seen from a handler

  A handler's broker traffic is the list of client calls it makes, in
  program order.  [SubWait]/[PubWait]/[UnsubWait] are the [token.Wait()]
  calls on the token of the preceding operation on that topic. *)

Inductive mqtt_op (P : Type) : Type :=
  | Subscribe (topic : string) (qos : Z)
  | SubWait (topic : string)
  | Publish (topic : string) (qos : Z) (retained : bool) (payload : P)
  | PubWait (topic : string)
  | Unsubscribe (topics : list string)
  | UnsubWait (topics : list string).
Arguments Subscribe {P} topic qos.
Arguments SubWait {P} topic.
Arguments Publish {P} topic qos retained payload.
Arguments PubWait {P} topic.
Arguments Unsubscribe {P} topics.
Arguments UnsubWait {P} topics.

(** The coordinator only publishes execution requests. *)
Abbreviation coord_op := (mqtt_op ExecutionRequest).

(** An invocation of a [tinpot.ActionResponse] callback:
  [response(err, result)], where [None] is the nil map. *)
Definition response_call : Type := string * option (gmap string any).

(** An invocation of a [tinpot.ActionLogs] callback: [logs(level, message)]. *)
Definition log_call : Type := string * string.

Definition resultTopicOf (execID : string) : string :=
  "tinpot/exec/" +:+ execID +:+ "/result".

Definition logTopicOf (execID : string) : string :=
  "tinpot/exec/" +:+ execID +:+ "/log".

(** ** [cmd/coordinator/mqttactions.go]: [mqttActionExecution] *)

Module MqttExec.
Section Execution.
Variable json_Unmarshal_result : list Byte.byte → option MqttResultResponse.
Variable json_Unmarshal_log : list Byte.byte → option MqttLogEntry.

(** [responseWithErr]. *)
Definition responseWithErr (err : string) : response_call := (err, None).

(** [handleResponse(msg, response)]; [response] tells whether the callback
    is non-nil.  The result is the list of callback invocations made. *)
Definition handleResponse (msg : mqtt_Message) (response : bool)
  : list response_call :=
  match json_Unmarshal_result (Payload msg) with
  | None => []
  | Some res =>
      if response then
        if String.eqb (Status res) "SUCCESS" then
          match Result res with
          | AMap m => [("", Some m)]
          | r => [("", Some {[ "value" := r ]})]
          end
        else [(Error res, None)]
      else []
  end.

(** The execution id [trigger] settles on: [parameters["_execution_id"]]
    when it is a string, else a fresh UUID. *)
Definition triggerExecID (parameters : gmap string any) (fresh : string) : string :=
  match parameters !! "_execution_id" with
  | Some (AStr id) => id
  | _ => fresh
  end.

(** The loop that filters internal parameters. *)
Definition actualParams (parameters : gmap string any) : gmap string any :=
  filter (fun kv => HasPrefix kv.1 "_" = false) parameters.

(** [Closer(resultTopic, logTopic).Close()]. *)
Definition closer_Close (resultTopic logTopic : string) : list coord_op :=
  [Unsubscribe [resultTopic; logTopic]; UnsubWait [resultTopic; logTopic]].

(** What [trigger] does before it returns: the broker calls, and the
    callback invocation made when the publish fails.  [response] and
    [logs] tell whether the callbacks are non-nil, [fresh] is the value
    [uuid.New()] would give, [pub_err] the error of the publish token.
    An error of the result subscription is only logged: the publish
    follows either way. *)
Definition trigger (action : MqttAction) (parameters : gmap string any)
    (response logs : bool) (fresh : string) (pub_err : option string)
  : list coord_op * list response_call :=
  let execID := triggerExecID parameters fresh in
  let resultTopic := resultTopicOf execID in
  let logTopic := logTopicOf execID in
  let req :=
    mkExecutionRequest execID (Some (actualParams parameters)) resultTopic logTopic in
  let subs :=
    (if logs then [Subscribe logTopic 0] else [])
    ++ [Subscribe resultTopic 1; SubWait resultTopic] in
  let pub := [Publish (TriggerTopic action) 1 false req; PubWait (TriggerTopic action)] in
  match pub_err with
  | None => (subs ++ pub, [])
  | Some e =>
      (subs ++ pub ++ closer_Close resultTopic logTopic,
       if response then [responseWithErr ("failed to publish request: " +:+ e)] else [])
  end.

(** The handler [trigger] installs on the result topic:
    [defer closer.Close(); if response != nil { handleResponse }]. *)
Definition onResultMessage (execID : string) (response : bool) (msg : mqtt_Message)
  : list response_call * list coord_op :=
  ((if response then handleResponse msg response else []),
   closer_Close (resultTopicOf execID) (logTopicOf execID)).

(** The handler [trigger] installs on the log topic when [logs != nil]. *)
Definition onLogMessage (msg : mqtt_Message) : list log_call :=
  match json_Unmarshal_log (Payload msg) with
  | Some entry => [(Level entry, Message entry)]
  | None => []
  end.

(** [GetAction]: nil when the name is not in the map, else the [trigger]
    method of an execution bound to a copy of the action. *)
Definition GetAction (actions : gmap string MqttAction) (name : string)
  : option MqttAction :=
  actions !! name.
End Execution.
End MqttExec.

(** ** Go channels and panics *)

(** The result of running code that may panic. *)
Inductive outcome (A : Type) : Type :=
  | Ok (a : A)
  | Panic (msg : string).
Arguments Ok {A} a.
Arguments Panic {A} msg.

Definition obind {A B : Type} (x : outcome A) (f : A → outcome B) : outcome B :=
  match x with
  | Ok a => f a
  | Panic msg => Panic msg
  end.

Notation "x ←! c ;; k" := (obind c (fun x => k))
  (at level 100, c at next level, right associativity, only parsing).

Module Chan.
Section Chan.
Context {A : Type}.

(** A buffered channel [make(chan A, cap)]: the buffered values, oldest
    first, and whether [close] was called. *)
Record t : Type := mk { buf : list A; cap : nat; closed : bool }.

Definition make (n : nat) : t := mk [] n false.

Inductive send_result : Type :=
  | Sent (c : t)
  | Full
  | SendOnClosed.

(** [select { case ch <- v: default: }]: a send on a closed channel
    panics, a send on a full open channel takes the default branch. *)
Definition try_send (c : t) (v : A) : send_result :=
  if closed c then SendOnClosed
  else if (length (buf c) <? cap c)%nat then Sent (mk (buf c ++ [v]) (cap c) false)
  else Full.

(** [close(ch)]: [None] is the panic on closing a closed channel. *)
Definition close (c : t) : option t :=
  if closed c then None else Some (mk (buf c) (cap c) true).

Inductive recv_result : Type :=
  | Received (v : A) (c : t)
  | Drained
  | Blocked.

(** [v, ok := <-ch]: buffered values are received also after [close];
    [Drained] is [ok == false], [Blocked] an empty open channel. *)
Definition recv (c : t) : recv_result :=
  match buf c with
  | v :: rest => Received v (mk rest (cap c) (closed c))
  | [] => if closed c then Drained else Blocked
  end.
End Chan.
Arguments t : clear implicits.
End Chan.

(** ** [cmd/coordinator]: the execution registry, dispatch and SSE stream *)

Module Coordinator.

(** [StreamEvent.Data]: an [MqttLogEntry] or the completion map. *)
Inductive event_data : Type :=
  | DataLog (e : MqttLogEntry)
  | DataMap (m : gmap string any).

Record StreamEvent : Type := mkStreamEvent {
  ev_Type : string;
  ev_Data : event_data
}.

(** [ExecutionState]; [Done] is declared and never written. *)
Record ExecutionState : Type := mkExecutionState {
  EventChan : Chan.t StreamEvent;
  Done : bool
}.

(** The coordinator process: the allocated [ExecutionState] structs by
    address, the [executions] map from id to address, the lines written
    by [log.Printf], and the ids whose removal goroutine is sleeping. *)
Record world : Type := mkWorld {
  heap : gmap nat ExecutionState;
  executions : gmap string nat;
  coord_log : list string;
  timers : list string
}.

Definition empty_world : world := mkWorld ∅ ∅ [] [].

Definition registerExecution (id : string) (w : world) : nat * world :=
  let l := fresh (dom (heap w)) in
  let state := mkExecutionState (Chan.make 1000) false in
  (l, mkWorld (<[l := state]> (heap w)) (<[id := l]> (executions w))
              (coord_log w) (timers w)).

Definition getExecution (id : string) (w : world) : option nat :=
  executions w !! id.

Definition removeExecution (id : string) (w : world) : world :=
  mkWorld (heap w) (delete id (executions w)) (coord_log w) (timers w).

Definition set_chan (l : nat) (c : Chan.t StreamEvent) (w : world) : world :=
  mkWorld (<[l := mkExecutionState c false]> (heap w)) (executions w)
          (coord_log w) (timers w).

Definition chan_of (l : nat) (w : world) : option (Chan.t StreamEvent) :=
  EventChan <$> heap w !! l.

(** The [logCallback] closure of [executeAction], closed over the state
    at address [l] and over [execID]; [now] is
    [time.Now().Format(time.RFC3339)]. *)
Definition logCallback (l : nat) (execID : string) (now level message : string)
    (w : world) : outcome world :=
  match chan_of l w with
  | None => Panic "invalid memory address"
  | Some c =>
      let event := mkStreamEvent "log" (DataLog (mkMqttLogEntry now level message)) in
      match Chan.try_send c event with
      | Chan.Sent c' => Ok (set_chan l c' w)
      | Chan.Full =>
          Ok (mkWorld (heap w) (executions w)
                (coord_log w ++ ["Dropped log for " +:+ execID +:+ " due to full buffer"])
                (timers w))
      | Chan.SendOnClosed => Panic "send on closed channel"
      end
  end.

(** A [map[string]interface{}] stored in an [interface{}]; the nil map
    marshals as [null]. *)
Definition any_of_map (res : option (gmap string any)) : any :=
  match res with
  | Some m => AMap m
  | None => ANil
  end.

Definition complete_data (err : string) (res : option (gmap string any))
  : gmap string any :=
  let success := String.eqb err "" in
  let status := if success then "SUCCESS" else "FAILURE" in
  let data : gmap string any :=
    <["successful" := ABool success]> (<["state" := AStr status]> ∅) in
  if success then <["result" := any_of_map res]> data
  else <["error" := AStr err]> data.

Definition complete_event (err : string) (res : option (gmap string any))
  : StreamEvent :=
  mkStreamEvent "complete" (DataMap (complete_data err res)).

(** The [responseCallback] closure of [executeAction]: a non-blocking
    send of the complete event, [close], and the goroutine that removes
    the execution a minute later. *)
Definition responseCallback (l : nat) (execID : string)
    (err : string) (res : option (gmap string any)) (w : world) : outcome world :=
  match chan_of l w with
  | None => Panic "invalid memory address"
  | Some c =>
      let event := complete_event err res in
      c1 ←! match Chan.try_send c event with
            | Chan.Sent c' => Ok c'
            | Chan.Full => Ok c
            | Chan.SendOnClosed => Panic "send on closed channel"
            end ;;
      match Chan.close c1 with
      | None => Panic "close of closed channel"
      | Some c2 =>
          let w' := set_chan l c2 w in
          Ok (mkWorld (heap w') (executions w') (coord_log w') (timers w' ++ [execID]))
      end
  end.

(** *** [streamLogs] *)

(** What is written to the SSE response, each as [data: <json>\n\n]. *)
Inductive frame : Type :=
  | FrameConnected (execID : string)
  | FrameEvent (ev : StreamEvent).

(** The state of one [streamLogs] request. *)
Inductive conn : Type :=
  | NotConnected
  | Refused (code : Z) (detail : string)
  | Streaming (l : nat) (frames : list frame)
  | Finished (frames : list frame).

(** [streamLogs] up to the first flush; [flusher] tells whether the
    response writer implements [http.Flusher]. *)
Definition streamLogs_open (execID : string) (flusher : bool) (w : world) : conn :=
  match getExecution execID w with
  | None => Refused 404 "Execution not found"
  | Some l =>
      if flusher then Streaming l [FrameConnected execID]
      else Refused 500 "Streaming unsupported!"
  end.

(** One iteration of the loop of [streamLogs] in which the channel case
    of the [select] is taken. *)
Definition streamLogs_recv (k : conn) (w : world) : conn * world :=
  match k with
  | Streaming l frames =>
      match chan_of l w with
      | None => (k, w)
      | Some c =>
          match Chan.recv c with
          | Chan.Received ev c' => (Streaming l (frames ++ [FrameEvent ev]), set_chan l c' w)
          | Chan.Drained => (Finished frames, w)
          | Chan.Blocked => (k, w)
          end
      end
  | _ => (k, w)
  end.

(** One iteration in which [ctx.Done()] is taken: the client went away. *)
Definition streamLogs_done (k : conn) : conn :=
  match k with
  | Streaming _ frames => Finished frames
  | _ => k
  end.

(** *** One execution, seen as a sequence of events

    After [executeAction] has registered execution [execID] at address
    [l], the broker callbacks, the stream request and the removal timer
    run interleaved. *)
Inductive exec_event : Type :=
  | EvLog (now level message : string)
  | EvResult (err : string) (res : option (gmap string any))
  | EvConnect (flusher : bool)
  | EvRecv
  | EvCtxDone
  | EvCleanup.

Definition exec_step (l : nat) (execID : string) (e : exec_event)
    (st : world * conn) : outcome (world * conn) :=
  let '(w, k) := st in
  match e with
  | EvLog now level message =>
      w' ←! logCallback l execID now level message w ;; Ok (w', k)
  | EvResult err res =>
      w' ←! responseCallback l execID err res w ;; Ok (w', k)
  | EvConnect flusher =>
      match k with
      | NotConnected => Ok (w, streamLogs_open execID flusher w)
      | _ => Ok (w, k)
      end
  | EvRecv => let '(k', w') := streamLogs_recv k w in Ok (w', k')
  | EvCtxDone => Ok (w, streamLogs_done k)
  | EvCleanup => Ok (removeExecution execID w, k)
  end.

Fixpoint exec_run (l : nat) (execID : string) (es : list exec_event)
    (st : world * conn) : outcome (world * conn) :=
  match es with
  | [] => Ok st
  | e :: es' => st' ←! exec_step l execID e st ;; exec_run l execID es' st'
  end.

Definition is_complete (ev : StreamEvent) : bool := String.eqb (ev_Type ev) "complete".

Definition count_complete (evs : list StreamEvent) : nat :=
  length (filter (fun ev => is_complete ev = true) evs).

Definition frame_is_complete (f : frame) : bool :=
  match f with
  | FrameEvent ev => is_complete ev
  | FrameConnected _ => false
  end.

(** What holds of the queue of an execution at every moment: it has
    capacity 1000 and never holds more; while open it holds no complete
    event; once closed it holds none, or exactly one, at its end. *)
Definition queue_ok (c : Chan.t StreamEvent) : Prop :=
  Chan.cap c = 1000%nat
  ∧ (length (Chan.buf c) ≤ 1000)%nat
  ∧ (Chan.closed c = false → count_complete (Chan.buf c) = 0%nat)
  ∧ (Chan.closed c = true →
       count_complete (Chan.buf c) = 0%nat
       ∨ ∃ pre ev, Chan.buf c = pre ++ [ev]
                   ∧ is_complete ev = true ∧ count_complete pre = 0%nat).

(** What has been written on a stream: the connected event, then events
    taken from the queue. *)
Definition conn_ok (execID : string) (k : conn) : Prop :=
  match k with
  | Streaming _ frames | Finished frames =>
      ∃ evs, frames = FrameConnected execID :: map FrameEvent evs
  | _ => True
  end.

(** Whether an event is a result. *)
Definition is_result (e : exec_event) : bool :=
  match e with
  | EvResult _ _ => true
  | _ => false
  end.

End Coordinator.

(** ** HTTP responses *)

Record ExecuteActionRequest : Type := mkExecuteActionRequest {
  ear_Parameters : option (gmap string any)
}.

Record ExecutionResponse : Type := mkExecutionResponse {
  er_ExecutionID : string;
  er_ActionName : string;
  er_Status : string;
  er_StreamURL : string
}.

Record SyncExecutionResponse : Type := mkSyncExecutionResponse {
  sr_ExecutionID : string;
  sr_ActionName : string;
  sr_Status : string;
  sr_Result : any
}.

(** The value handed to [writeJSON] / [c.JSON]. *)
Inductive http_body : Type :=
  | BodyDetail (m : gmap string string)
  | BodySync (r : SyncExecutionResponse)
  | BodyAsync (r : ExecutionResponse).

Record http_response : Type := mkResp { code : Z; body : http_body }.

Definition detail (msg : string) : http_body := BodyDetail {[ "detail" := msg ]}.

Definition streamURL (execID : string) : string :=
  "/api/executions/" +:+ execID +:+ "/stream".

(** ** [cmd/coordinator]: [executeAction] *)

Module Dispatch.
Import MqttExec Coordinator.
Section ExecuteAction.
Variable json_Unmarshal_result : list Byte.byte → option MqttResultResponse.

(** What a call of the handler amounts to: the response written ([None]
    when the handler never returns), the broker calls made by the handler
    and the goroutines it starts, the registry afterwards, and for an
    async call the address its callbacks are bound to together with the
    callback invocations [trigger] already made. *)
Record handled : Type := mkHandled {
  response : option http_response;
  traffic : list coord_op;
  after : world;
  bound : option nat;
  pending : list response_call
}.

(** [executeAction(w, r, mgr, syncMode)].  [body] is the decoded request
    body ([None] when decoding fails), [execID] the value of
    [uuid.New().String()], [fresh] the UUID [trigger] would draw,
    [pub_err] the error of the publish token and [incoming] the message
    the broker delivers on the result topic while the subscription
    stands, if any. *)
Definition executeAction (actions : gmap string MqttAction) (w : world)
    (actionName : string) (body : option ExecuteActionRequest)
    (execID fresh : string) (syncMode : bool)
    (pub_err : option string) (incoming : option mqtt_Message) : handled :=
  match GetAction actions actionName with
  | None =>
      mkHandled (Some (mkResp 404 (detail ("Action not found: " +:+ actionName))))
                [] w None []
  | Some action =>
      match body with
      | None =>
          mkHandled (Some (mkResp 400 (detail "Invalid request body"))) [] w None []
      | Some req =>
          let params : gmap string any :=
            <["_execution_id" := AStr execID]> (default ∅ (ear_Parameters req)) in
          if syncMode then
            let '(ops, cbs0) := trigger action params true false fresh pub_err in
            let '(cbs1, ops1) :=
              match pub_err, incoming with
              | None, Some msg =>
                  onResultMessage json_Unmarshal_result
                    (triggerExecID params fresh) true msg
              | _, _ => ([], [])
              end in
            let resp :=
              (* wg.Wait() returns once the callback has run *)
              match cbs0 ++ cbs1 with
              | (finalError, finalResult) :: _ =>
                  let status := if String.eqb finalError "" then "SUCCESS" else "FAILURE" in
                  Some (mkResp 200 (BodySync
                    (mkSyncExecutionResponse execID actionName status
                       (any_of_map finalResult))))
              | [] => None
              end in
            mkHandled resp (ops ++ ops1) w None []
          else
            let '(l, w1) := registerExecution execID w in
            let '(ops, cbs0) := trigger action params true true fresh pub_err in
            mkHandled
              (Some (mkResp 200 (BodyAsync
                 (mkExecutionResponse execID actionName "submitted" (streamURL execID)))))
              ops w1 (Some l) cbs0
      end
  end.
End ExecuteAction.
End Dispatch.

(** ** [coordinator/main.go]: the gin-based coordinator *)

Module Legacy.

Record Action : Type := mkAction {
  Description : string;
  Group : string;
  Parameters : gmap string any;
  TriggerTopic : string
}.

(** [time.Second], in nanoseconds. *)
Definition time_Second : Z := 1000000000.

(** The argument of [time.After] in [executeAction]. *)
Definition syncTimeout : Z := 30 * time_Second.

Inductive select_outcome : Type :=
  | GotResult (res : MqttResultResponse)
  | TimedOut.

(** [select { case res := <-resultChan: ...; case <-time.After(d): ... }].
    [arrival] is the instant, counted from the start of the wait, at which
    the result handler puts the first decodable result into [resultChan];
    when both cases are ready Go picks either, which [tie] decides. *)
Definition select_result (d : Z) (arrival : option (Z * MqttResultResponse))
    (tie : bool) : select_outcome :=
  match arrival with
  | None => TimedOut
  | Some (t, res) =>
      if (t <? d)%Z then GotResult res
      else if (t =? d)%Z then (if tie then GotResult res else TimedOut)
      else TimedOut
  end.

(** [executeAction(c, mqttClient, syncMode)]: the response and the broker
    calls, the deferred [Unsubscribe] last.  [params] is the decoded body
    ([None] when binding fails). *)
Definition executeAction (actions : gmap string Action) (actionName : string)
    (body : option ExecuteActionRequest) (execID : string) (syncMode : bool)
    (pub_err : bool) (arrival : option (Z * MqttResultResponse)) (tie : bool)
  : http_response * list coord_op :=
  match actions !! actionName with
  | None => (mkResp 404 (detail ("Action not found: " +:+ actionName)), [])
  | Some act =>
      match body with
      | None => (mkResp 400 (detail "Invalid request body"), [])
      | Some req =>
          let resultTopic := resultTopicOf execID in
          let logTopic := logTopicOf execID in
          let payload :=
            mkExecutionRequest execID (ear_Parameters req) resultTopic logTopic in
          let ops :=
            [Subscribe resultTopic 1; SubWait resultTopic;
             Publish (TriggerTopic act) 1 false payload; PubWait (TriggerTopic act)] in
          let deferred := [Unsubscribe [resultTopic]] in
          if pub_err then
            (mkResp 500 (detail "Failed to publish execution request"), ops ++ deferred)
          else if syncMode then
            match select_result syncTimeout arrival tie with
            | GotResult res =>
                (mkResp 200 (BodySync
                   (mkSyncExecutionResponse execID actionName (Status res) (Result res))),
                 ops ++ deferred)
            | TimedOut => (mkResp 504 (detail "Execution timed out"), ops ++ deferred)
            end
          else
            (mkResp 200 (BodyAsync
               (mkExecutionResponse execID actionName "submitted" (streamURL execID))),
             ops ++ deferred)
      end
  end.

(** *** [streamLogs]: no registry, the stream subscribes by itself *)

Inductive frame : Type :=
  | FrameConnected (execID : string)
  | FrameLog (e : MqttLogEntry)
  | FrameComplete (m : gmap string any).

(** The calls [streamLogs] makes before it writes anything. *)
Definition streamLogs_subscribe (execID : string) : list coord_op :=
  [Subscribe (logTopicOf execID) 0; Subscribe (resultTopicOf execID) 1;
   SubWait (logTopicOf execID); SubWait (resultTopicOf execID)].

(** The stream: [msgChan], what was written, and whether the handler
    has returned. *)
Record stream : Type := mkStream {
  msgChan : Chan.t frame;
  written : list frame;
  returned : bool
}.

Definition streamLogs_open (execID : string) : stream :=
  mkStream (Chan.make 10) [FrameConnected execID] false.

(** [resultHandler]'s SSE data for a decoded result. *)
Definition complete_data (result : MqttResultResponse) : gmap string any :=
  let base : gmap string any :=
    <["successful" := ABool (String.eqb (Status result) "SUCCESS")]>
      (<["state" := AStr (Status result)]> (<["type" := AStr "complete"]> ∅)) in
  if String.eqb (Status result) "SUCCESS" then <["result" := Result result]> base
  else <["error" := AStr (Error result)]> base.

Inductive stream_event : Type :=
  | OnLog (e : MqttLogEntry)
  | OnResult (r : MqttResultResponse)
  | Recv
  | ClientGone.

Definition stream_step (e : stream_event) (s : stream) : outcome stream :=
  match e with
  | OnLog entry =>
      match Chan.try_send (msgChan s) (FrameLog entry) with
      | Chan.Sent c => Ok (mkStream c (written s) (returned s))
      | Chan.Full => Ok s
      | Chan.SendOnClosed => Panic "send on closed channel"
      end
  | OnResult r =>
      c1 ←! match Chan.try_send (msgChan s) (FrameComplete (complete_data r)) with
            | Chan.Sent c => Ok c
            | Chan.Full => Ok (msgChan s)
            | Chan.SendOnClosed => Panic "send on closed channel"
            end ;;
      match Chan.close c1 with
      | None => Panic "close of closed channel"
      | Some c2 => Ok (mkStream c2 (written s) (returned s))
      end
  | Recv =>
      if returned s then Ok s
      else match Chan.recv (msgChan s) with
           | Chan.Received f c => Ok (mkStream c (written s ++ [f]) false)
           | Chan.Drained => Ok (mkStream (msgChan s) (written s) true)
           | Chan.Blocked => Ok s
           end
  | ClientGone => Ok (mkStream (msgChan s) (written s) true)
  end.

Fixpoint stream_run (es : list stream_event) (s : stream) : outcome stream :=
  match es with
  | [] => Ok s
  | e :: es' => s' ←! stream_step e s ;; stream_run es' s'
  end.

(** The earlier coordinator's stream: the connected event is written
    first and only once. *)
Definition stream_ok (execID : string) (s : stream) : Prop :=
  (∃ rest, written s = FrameConnected execID :: rest
           ∧ ∀ id, FrameConnected id ∉ rest)
  ∧ ∀ id, FrameConnected id ∉ Chan.buf (msgChan s).

End Legacy.

(** ** The workers *)

(** The interpreter values the workers build through [cpy3]. *)
Inductive PyObject : Type :=
  | PyNone
  | PyBool (b : bool)
  | PyLong (z : Z)
  | PyFloat (f : float64)
  | PyUnicode (s : string)
  | PyList (l : list PyObject)
  | PyDict (m : gmap string PyObject).

Module Marshal.
Section Fmt.
(** [fmt]'s rendering of a [float64] under [%v]. *)
Variable fmt_float : float64 → string.
(** The platform's result of [int(val)] for a value out of range. *)
Variable overflow : float64 → Z.

Fixpoint insert_sorted (kv : string * string) (l : list (string * string))
  : list (string * string) :=
  match l with
  | [] => [kv]
  | kv' :: l' =>
      if String.leb kv.1 kv'.1 then kv :: l else kv' :: insert_sorted kv l'
  end.

Definition sort_keys (l : list (string * string)) : list (string * string) :=
  foldr insert_sorted [] l.

(** [fmt.Sprintf("%v", val)] on a decoded JSON value: [<nil>], [true],
    the string itself, [[a b c]] and [map[k:v ...]] in key order. *)
Fixpoint Sprintf_v (v : any) : string :=
  match v with
  | ANil => "<nil>"
  | ABool b => if b then "true" else "false"
  | ANum f => fmt_float f
  | AStr s => s
  | AArr l => "[" +:+ String.concat " " (map Sprintf_v l) +:+ "]"
  | AMap m =>
      "map[" +:+
      String.concat " "
        (map (fun kv => kv.1 +:+ ":" +:+ kv.2)
             (sort_keys (map_to_list (Sprintf_v <$> m))))
      +:+ "]"
  end.

(** [cpy3.PyUnicode_FromString(u)]: the interpreter string decoded from
    the C string of [u], which ends at the first NUL of [u].  The strings
    passed here come out of [encoding/json] and [fmt], so they are valid
    UTF-8 and the decoding succeeds. *)
Definition PyUnicode_FromString (u : string) : PyObject := PyUnicode (CString u).

(** The [switch val := v.(type)] of [pyActionInfo.trigger] and of the
    earlier worker's [executeAction] (the two are the same code). *)
Definition toPy (v : any) : PyObject :=
  match v with
  | AStr val => PyUnicode_FromString val
  | ANum val =>
      if float64_eqb (float64_of_int (int_of_float64 overflow val)) val
      then PyLong (int_of_float64 overflow val)
      else PyFloat val
  | ABool val => PyBool val
  | _ => PyUnicode_FromString (Sprintf_v v)
  end.

(** The keyword arguments built by the loop over the parameters.  [order]
    lists the entries of the map in the order in which [range] yields
    them, which Go does not fix; every key goes through
    [PyUnicode_FromString], and [PyDict_SetItem] replaces the entry of an
    equal key. *)
Definition kwargs (order : list (string * any)) : gmap string PyObject :=
  foldl (fun d kv => <[CString kv.1 := toPy kv.2]> d) ∅ order.
End Fmt.

(** A number has an integer value. *)
Definition integer_valued (f : float64) : Prop :=
  (0 ≤ expo f ∨ (mant f mod 2 ^ (- expo f) = 0))%Z.

(** The conversion as the specification words it, for comparison. *)
Fixpoint spec_toPy (overflow : float64 → Z) (v : any) : PyObject :=
  match v with
  | ANil => PyNone
  | ABool b => PyBool b
  | ANum f =>
      if float64_eqb (float64_of_int (int_of_float64 overflow f)) f
      then PyLong (int_of_float64 overflow f) else PyFloat f
  | AStr s => PyUnicode s
  | AArr l => PyList (map (spec_toPy overflow) l)
  | AMap m => PyDict (spec_toPy overflow <$> m)
  end.
End Marshal.

(** [cmd/worker]: the worker built on [pyActionManager]. *)
Module Worker.

Definition triggerTopicForAction (actionName : string) : string :=
  "tinpot/actions/" +:+ actionName +:+ "/trigger".

Definition toMqttAction (act : ActionInfo) : MqttAction :=
  mkMqttAction (ai_Description act) (ai_Group act) (ai_Parameters act)
               (triggerTopicForAction (ai_Name act)).

(** [announceActions]: one retained publication per listed action. *)
Definition announceActions (actions : gmap string ActionInfo)
  : list (mqtt_op MqttAction) :=
  flat_map (fun kv : string * ActionInfo =>
    let topic := announceTopicForAction (ai_Name kv.2) in
    [Publish topic 1 true (toMqttAction kv.2); PubWait topic])
    (map_to_list actions).

(** [subscribeToActions]. *)
Definition subscribeToActions (actions : gmap string ActionInfo)
  : list (mqtt_op MqttAction) :=
  map (fun kv : string * ActionInfo =>
         Subscribe (triggerTopicForAction (ai_Name kv.2)) 1)
      (map_to_list actions).

End Worker.

(** [worker/main.go]: the earlier worker. *)
Module LegacyWorker.

(** [Action], without the interpreter handle. *)
Record Action : Type := mkAction {
  Name : string;
  Group : string;
  Description : string;
  Parameters : gmap string any;
  TriggerTopic : string
}.

(** The entry [discoverActions] stores for a registry key. *)
Definition discovered (name group desc : string) (params : gmap string any) : Action :=
  mkAction name group desc params ("tinpot/ops/" +:+ name +:+ "/run").

(** [announceActions]. *)
Definition announceActions (actions : gmap string Action) : list (mqtt_op Action) :=
  flat_map (fun kv : string * Action =>
    let topic := "tinpot/actions/" +:+ Name kv.2 in
    [Publish topic 1 true kv.2; PubWait topic])
    (map_to_list actions).

(** [subscribeToActions]. *)
Definition subscribeToActions (actions : gmap string Action) : list (mqtt_op Action) :=
  map (fun kv : string * Action => Subscribe (TriggerTopic kv.2) 1)
      (map_to_list actions).

End LegacyWorker.

(** ** Properties as the specification words them, for comparison *)

Module Stated.

(** Subscribe-before-publish as worded: both the result topic and the log
    topic of [execID] are subscribed at QoS 1 and their acknowledgments
    awaited before the request is published on [triggerTopic]. *)
Definition subscribes_both_before_publish (execID triggerTopic : string)
    (ops : list coord_op) : Prop :=
  ∃ pre req post,
    ops = pre ++ Publish triggerTopic 1 false req :: post
    ∧ Subscribe (resultTopicOf execID) 1 ∈ pre
    ∧ SubWait (resultTopicOf execID) ∈ pre
    ∧ Subscribe (logTopicOf execID) 1 ∈ pre
    ∧ SubWait (logTopicOf execID) ∈ pre.


(** Delivery under overflow as worded: a finished stream carries the
    complete event. *)
Definition complete_delivered (k : Coordinator.conn) : Prop :=
  ∀ frames, k = Coordinator.Finished frames →
    ∃ f, f ∈ frames ∧ Coordinator.frame_is_complete f = true.

End Stated.

(** ** Sample payloads

  Decoders that agree with [encoding/json] on the payloads used in the
  examples below and reject every other payload. *)

Module Sample.

Definition bytes (s : string) : list Byte.byte := list_byte_of_string s.

Definition bytes_eqb (p : list Byte.byte) (s : string) : bool :=
  String.eqb (string_of_list_byte p) s.

(** A JSON string literal without escapes. *)
Definition quoted (s : string) : string :=
  String (ascii_of_nat 34) (s +:+ String (ascii_of_nat 34) EmptyString).

Definition clean_cache : MqttAction :=
  mkMqttAction "Clean the cache" "Maintenance" ["days"]
               "tinpot/actions/clean_cache/trigger".

Definition clean_cache_json : string :=
  "{" +:+ quoted "description" +:+ ":" +:+ quoted "Clean the cache" +:+ ","
      +:+ quoted "group" +:+ ":" +:+ quoted "Maintenance" +:+ ","
      +:+ quoted "parameters" +:+ ":[" +:+ quoted "days" +:+ "],"
      +:+ quoted "trigger_topic" +:+ ":"
      +:+ quoted "tinpot/actions/clean_cache/trigger" +:+ "}".

(** [{}] decodes to the zero [MqttAction], the announcement above to
    [clean_cache]. *)
Definition unmarshal_action (p : list Byte.byte) : option MqttAction :=
  if bytes_eqb p "{}" then Some (mkMqttAction "" "" [] "")
  else if bytes_eqb p clean_cache_json then Some clean_cache
  else None.

Definition result_number_json : string :=
  "{" +:+ quoted "status" +:+ ":" +:+ quoted "SUCCESS" +:+ ","
      +:+ quoted "result" +:+ ":42}".

Definition result_object_json : string :=
  "{" +:+ quoted "status" +:+ ":" +:+ quoted "SUCCESS" +:+ ","
      +:+ quoted "result" +:+ ":{" +:+ quoted "files_deleted" +:+ ":42}}".

Definition result_failure_json : string :=
  "{" +:+ quoted "status" +:+ ":" +:+ quoted "FAILURE" +:+ ","
      +:+ quoted "result" +:+ ":null,"
      +:+ quoted "error" +:+ ":" +:+ quoted "Exception occurred" +:+ "}".

Definition files_deleted : gmap string any := {[ "files_deleted" := ANum (F64 42 0) ]}.

Definition unmarshal_result (p : list Byte.byte) : option MqttResultResponse :=
  if bytes_eqb p result_number_json
  then Some (mkMqttResultResponse "SUCCESS" (ANum (F64 42 0)) "")
  else if bytes_eqb p result_object_json
  then Some (mkMqttResultResponse "SUCCESS" (AMap files_deleted) "")
  else if bytes_eqb p result_failure_json
  then Some (mkMqttResultResponse "FAILURE" ANil "Exception occurred")
  else None.

End Sample.

(** ** Configuration: [getEnv] *)

(** [getEnv(key, def)] over the process environment; [os.Getenv] gives the
    empty string for a variable that is not set. *)
Definition getEnv (environ : gmap string string) (key def : string) : string :=
  let v := default "" (environ !! key) in
  if String.eqb v "" then def else v.

(** ** The broker's subscription table

    The topics a client is subscribed to after a sequence of its calls,
    starting from [subs]: [Subscribe] adds its topic, [Unsubscribe] removes
    its topics, the other calls change nothing. *)
Fixpoint subscriptions_after {P : Type} (ops : list (mqtt_op P)) (subs : gset string)
  : gset string :=
  match ops with
  | [] => subs
  | Subscribe topic _ :: ops' => subscriptions_after ops' ({[ topic ]} ∪ subs)
  | Unsubscribe topics :: ops' => subscriptions_after ops' (subs ∖ list_to_set topics)
  | _ :: ops' => subscriptions_after ops' subs
  end.

(** ** [cmd/coordinator]: the remaining handlers *)

Module Handlers.
Import Coordinator.

(** [NewMqttActionManager]: the empty [actions] map and the subscription
    to the announcements, once the client is connected. *)
Definition NewMqttActionManager : gmap string MqttAction * list coord_op :=
  (∅, [Subscribe (MQTT_TOPIC_PREFIX +:+ "+") 1]).

(** The body [getStatus] writes. *)
Record status_body : Type := mkStatusBody {
  sb_execution_id : string;
  sb_state : string;
  sb_ready : bool
}.

(** [getStatus] of [cmd/coordinator]. *)
Definition getStatus (id : string) (w : world) : Z * status_body :=
  let status :=
    match getExecution id w with
    | None => "UNKNOWN"
    | Some _ => "PENDING"
    end in
  (200%Z, mkStatusBody id status false).

(** [getStatus] of [coordinator/main.go]. *)
Definition legacy_getStatus (id : string) : Z * status_body :=
  (200%Z, mkStatusBody id "PENDING" false).

(** [cancelAction], the same in both coordinators. *)
Definition cancelAction : http_response :=
  mkResp 501 (detail "Cancellation not supported").

(** The log subscription handler of [trigger] with [logCallback] as its
    [logs]: every callback invocation it makes is run on the registry. *)
Definition onLogDelivered (json_Unmarshal_log : list Byte.byte → option MqttLogEntry)
    (l : nat) (execID now : string) (msg : mqtt_Message) (w : world) : outcome world :=
  foldl (fun acc call =>
           w' ←! acc ;; logCallback l execID now call.1 call.2 w')
        (Ok w) (MqttExec.onLogMessage json_Unmarshal_log msg).

(** The result subscription handler of [trigger] with [responseCallback]
    as its [response]. *)
Definition onResultDelivered
    (json_Unmarshal_result : list Byte.byte → option MqttResultResponse)
    (l : nat) (execID : string) (msg : mqtt_Message) (w : world) : outcome world :=
  foldl (fun acc call =>
           w' ←! acc ;; responseCallback l execID call.1 call.2 w')
        (Ok w) (MqttExec.onResultMessage json_Unmarshal_result execID true msg).1.

End Handlers.

(** ** [cmd/worker]: the dispatch loop *)

Module WorkerDispatch.

(** What the worker publishes on the topics of an execution. *)
Inductive worker_msg : Type :=
  | MsgResult (r : MqttResultResponse)
  | MsgLog (e : MqttLogEntry).

(** [sendResult]. *)
Definition sendResult (req : ExecutionRequest) (status : string) (result : any)
    (error : string) : list (mqtt_op worker_msg) :=
  [Publish (ResultTopic req) 1 true (MsgResult (mkMqttResultResponse status result error));
   PubWait (ResultTopic req)].

(** The response built by the [responseCallback] closure of
    [executeAction] for an invocation [response(error, result)]. *)
Definition result_of_call (call : response_call) : MqttResultResponse :=
  mkMqttResultResponse (if String.eqb call.1 "" then "SUCCESS" else "FAILURE")
                       (Coordinator.any_of_map call.2) call.1.

Definition responseCallback (req : ExecutionRequest) (call : response_call)
  : list (mqtt_op worker_msg) :=
  sendResult req (Status (result_of_call call)) (Result (result_of_call call))
             (Error (result_of_call call)).

(** The [logsCallback] closure; [now] is [time.Now().Format(time.RFC3339)]. *)
Definition logsCallback (req : ExecutionRequest) (now : string) (call : log_call)
  : list (mqtt_op worker_msg) :=
  [Publish (LogTopic req) 1 true (MsgLog (mkMqttLogEntry now call.1 call.2))].

(** A callback invocation made by an [ActionTrigger] while it runs. *)
Inductive callback : Type :=
  | CbLog (now : string) (call : log_call)
  | CbResponse (call : response_call).

Definition run_callback (req : ExecutionRequest) (cb : callback)
  : list (mqtt_op worker_msg) :=
  match cb with
  | CbLog now call => logsCallback req now call
  | CbResponse call => responseCallback req call
  end.

(** [executeAction(mgr, c, actionName, msg)].  [trigger] is
    [mgr.GetAction(actionName)], [None] when it is nil, and otherwise the
    callback invocations the trigger makes for given parameters. *)
Definition executeAction
    (json_Unmarshal_request : list Byte.byte → option ExecutionRequest)
    (trigger : option (option (gmap string any) → list callback))
    (msg : mqtt_Message) : outcome (list (mqtt_op worker_msg)) :=
  match json_Unmarshal_request (Payload msg) with
  | None => Ok []
  | Some req =>
      match trigger with
      | None => Panic "invalid memory address or nil pointer dereference"
      | Some run => Ok (flat_map (run_callback req) (run (req_Parameters req)))
      end
  end.

End WorkerDispatch.

(** ** The workers' capture of the interpreter's output *)

Module LogCapture.
Section Capture.
(** [strings.TrimSpace]. *)
Variable TrimSpace : string → string.

(** The line feed. *)
Definition LF : ascii := ascii_of_nat 10.

(** The lines of one chunk returned by [r.Read] that are passed on: the
    segments between line feeds whose [TrimSpace] is not empty. *)
Definition kept_lines (chunk : string) : list string :=
  filter (fun line => TrimSpace line ≠ "") (Split LF chunk).

(** The reader goroutine of [setupLogCapture] in [cmd/worker], over the
    chunks its reads return: the [callback] invocations, in order. *)
Definition capture (chunks : list string) : list log_call :=
  flat_map (fun chunk => map (fun line => ("INFO", line)) (kept_lines chunk)) chunks.


End Capture.
End LogCapture.

(** Two states of the coordinator that differ at most in the registry:
    the same structs, log lines and timers. *)
Definition agree_off_registry (w1 w2 : Coordinator.world) : Prop :=
  Coordinator.heap w1 = Coordinator.heap w2
  ∧ Coordinator.coord_log w1 = Coordinator.coord_log w2
  ∧ Coordinator.timers w1 = Coordinator.timers w2.

(** Whether an event is the firing of the removal timer. *)
Definition is_cleanup (e : Coordinator.exec_event) : bool :=
  match e with
  | Coordinator.EvCleanup => true
  | _ => false
  end.

(** The events the callbacks of an execution try to enqueue, in order. *)
Definition sent_events (es : list Coordinator.exec_event) : list Coordinator.StreamEvent :=
  flat_map (fun e =>
              match e with
              | Coordinator.EvLog now level message =>
                  [Coordinator.mkStreamEvent "log"
                     (Coordinator.DataLog (mkMqttLogEntry now level message))]
              | Coordinator.EvResult err res => [Coordinator.complete_event err res]
              | _ => []
              end) es.

(** What a stream request has written so far. *)
Definition frames_of (k : Coordinator.conn) : list Coordinator.frame :=
  match k with
  | Coordinator.Streaming _ frames | Coordinator.Finished frames => frames
  | _ => []
  end.

(** A request that streams the queue at address [l], or has ended. *)
Definition on_stream (l : nat) (k : Coordinator.conn) : Prop :=
  match k with
  | Coordinator.Streaming l' _ => l' = l
  | Coordinator.Finished _ => True
  | _ => False
  end.

(** ** The workers: from the interpreter's answer to the response *)

Module PyTrigger.

(** How the call of the action's function ends. *)
Inductive call_result : Type :=
  | Raised                       (* the call gave nil and [PyErr_Occurred()] is set *)
  | NilNoError                   (* the call gave nil and no error is set *)
  | Returned (v : PyObject).

Section Trigger.
(** Whether [python.ImportModule("json")] gives the module. *)
Variable json_module : bool.
(** [json.dumps(res)] read back with [python.AsString]; [None] when the
    call gives nil. *)
Variable dumps : PyObject → option string.
(** [python.AsString]. *)
Variable AsString : PyObject → string.

(** [pyActionInfo.trigger] from the argument tuple on: the invocation of
    [response] it makes.  [argsTuple] tells whether [PyTuple_New(0)] gave
    a tuple, [r] how the call ends when it is made, and
    [json_Unmarshal_map] is [json.Unmarshal] into the nil
    [map[string]interface{}], [None] when it leaves the map nil. *)
Definition response_of (json_Unmarshal_map : string → option (gmap string any))
    (argsTuple : bool) (r : call_result) : response_call :=
  if argsTuple then
    match r with
    | Raised => ("Exception occurred", None)
    | NilNoError => ("", None)
    | Returned PyNone => ("", None)
    | Returned v =>
        if json_module then
          match dumps v with
          | Some jsonStr => ("", json_Unmarshal_map jsonStr)
          | None => ("", Some {[ "result" := AStr (AsString v) ]})
          end
        else ("", None)
    end
  else ("Internal Error", None).

(** The earlier worker's [executeAction] from the call on: the response
    it publishes.  [json_Unmarshal_any] is [json.Unmarshal] into the nil
    [interface{}], which stays nil when decoding fails. *)
Definition legacy_response_of (json_Unmarshal_any : string → any)
    (r : call_result) : MqttResultResponse :=
  match r with
  | Raised => mkMqttResultResponse "FAILURE" ANil "Exception occurred"
  | NilNoError => mkMqttResultResponse "FAILURE" ANil ""
  | Returned PyNone => mkMqttResultResponse "SUCCESS" ANil ""
  | Returned v =>
      if json_module then
        match dumps v with
        | Some jsonStr => mkMqttResultResponse "SUCCESS" (json_Unmarshal_any jsonStr) ""
        | None => mkMqttResultResponse "SUCCESS" (AStr (AsString v)) ""
        end
      else mkMqttResultResponse "SUCCESS" (AStr "Result check logs") ""
  end.
End Trigger.
End PyTrigger.

(** ** An async execution as the broker and the clients drive it

    [trigger] installs two handlers, on the result topic and on the log
    topic of the execution.  The client calls a handler for a message
    whose topic it is subscribed to, one message at a time in the order of
    arrival (its default), and drops a message no subscription matches. *)

Module Inbound.
Import Coordinator.

(** What happens to an execution after [executeAction] has returned: the
    broker forwards a message ([now] is the coordinator's clock when it is
    handled), or a client of the stream acts, or the removal timer fires. *)
Inductive sys_event : Type :=
  | Deliver (now : string) (msg : mqtt_Message)
  | Connect (flusher : bool)
  | Recv
  | CtxDone
  | Cleanup.

Section Handlers.
Variable json_Unmarshal_result : list Byte.byte → option MqttResultResponse.
Variable json_Unmarshal_log : list Byte.byte → option MqttLogEntry.

(** The callback invocations the handlers of [trigger] make for a message,
    with [responseCallback] and [logCallback] of [executeAction] as the
    callbacks. *)
Definition callbacks_of (execID : string) (subs : gset string) (now : string)
    (msg : mqtt_Message) : list exec_event :=
  if decide (Topic msg ∈ subs) then
    if String.eqb (Topic msg) (resultTopicOf execID) then
      map (fun call : response_call => EvResult call.1 call.2)
          (MqttExec.onResultMessage json_Unmarshal_result execID true msg).1
    else if String.eqb (Topic msg) (logTopicOf execID) then
      map (fun call : log_call => EvLog now call.1 call.2)
          (MqttExec.onLogMessage json_Unmarshal_log msg)
    else []
  else [].

(** The client's subscriptions after the message: the result handler ends
    with its deferred [closer.Close()]. *)
Definition subs_after (execID : string) (subs : gset string) (msg : mqtt_Message)
  : gset string :=
  if decide (Topic msg ∈ subs) then
    if String.eqb (Topic msg) (resultTopicOf execID) then
      subscriptions_after
        (MqttExec.onResultMessage json_Unmarshal_result execID true msg).2 subs
    else subs
  else subs.

Definition sys_step (l : nat) (execID : string) (e : sys_event)
    (st : world * conn * gset string) : outcome (world * conn * gset string) :=
  match e with
  | Deliver now msg =>
      st' ←! exec_run l execID (callbacks_of execID st.2 now msg) st.1 ;;
      Ok (st', subs_after execID st.2 msg)
  | Connect flusher =>
      st' ←! exec_step l execID (EvConnect flusher) st.1 ;; Ok (st', st.2)
  | Recv => st' ←! exec_step l execID EvRecv st.1 ;; Ok (st', st.2)
  | CtxDone => st' ←! exec_step l execID EvCtxDone st.1 ;; Ok (st', st.2)
  | Cleanup => st' ←! exec_step l execID EvCleanup st.1 ;; Ok (st', st.2)
  end.

Fixpoint sys_run (l : nat) (execID : string) (es : list sys_event)
    (st : world * conn * gset string) : outcome (world * conn * gset string) :=
  match es with
  | [] => Ok st
  | e :: es' => st' ←! sys_step l execID e st ;; sys_run l execID es' st'
  end.
End Handlers.

(** The state in which an async [executeAction] leaves its execution,
    bound at address [l]: the callback invocation [trigger] made itself
    has run, and the client's subscriptions, [subs0] before the call, are
    those its broker calls leave. *)
Definition start (h : Dispatch.handled) (l : nat) (execID : string)
    (subs0 : gset string) : outcome (world * conn * gset string) :=
  st ←! exec_run l execID
          (map (fun call : response_call => EvResult call.1 call.2) (Dispatch.pending h))
          (Dispatch.after h, NotConnected) ;;
  Ok (st, subscriptions_after (Dispatch.traffic h) subs0).

(** What holds of an execution at every moment: its queue is as
    [queue_ok] says, and once the queue is closed the client is subscribed
    to neither topic of the execution. *)
Definition sys_ok (l : nat) (execID : string) (st : world * conn * gset string) : Prop :=
  ∃ c, chan_of l st.1.1 = Some c ∧ queue_ok c
       ∧ (Chan.closed c = true →
            (resultTopicOf execID ∉ st.2) ∧ (logTopicOf execID ∉ st.2)).
End Inbound.

(* ================================================================= *)
(** * Theorems *)

(** ** The catalog *)

Section CatalogFacts.
Context {A : Type}.
Variable json_Unmarshal : list Byte.byte → option A.

Lemma Split_no_sep (sep : ascii) (s : string) :
  contains_char sep s = false → Split sep s = [s].
Proof.
  induction s as [|c s IH]; simpl; [done|].
  intros [Hc Hs]%orb_false_elim.
  rewrite Hc, (IH Hs). done.
Qed.

Lemma topic_action_announce (name : string) :
  contains_char "/" name = false →
  Catalog.topic_action (announceTopicForAction name) = Some name.
Proof.
  intros Hn. unfold Catalog.topic_action, announceTopicForAction.
  cbv [String.append]. simpl. rewrite (Split_no_sep _ _ Hn). done.
Qed.

(** A message addressed to another action leaves the entry of [name] alone. *)
Lemma onActionAnnounced_other (actions : gmap string A) (msg : mqtt_Message)
    (name : string) :
  Catalog.topic_action (Topic msg) ≠ Some name →
  Catalog.onActionAnnounced json_Unmarshal actions msg !! name = actions !! name.
Proof.
  intros Hne. unfold Catalog.onActionAnnounced.
  destruct (Catalog.topic_action (Topic msg)) as [n|]; [|done].
  assert (n ≠ name) by congruence.
  destruct (length (Payload msg) =? 0)%nat.
  - by rewrite lookup_delete_ne.
  - destruct (json_Unmarshal (Payload msg)); [|done].
    by rewrite lookup_insert_ne.
Qed.

Lemma deliver_other (msgs : list mqtt_Message) (actions : gmap string A)
    (name : string) :
  (∀ msg, msg ∈ msgs → Catalog.topic_action (Topic msg) ≠ Some name) →
  Catalog.deliver json_Unmarshal actions msgs !! name = actions !! name.
Proof.
  revert actions. induction msgs as [|m msgs IH]; intros actions Hall; [done|].
  unfold Catalog.deliver in *. simpl. rewrite IH.
  - apply onActionAnnounced_other, Hall. left.
  - intros msg Hin. apply Hall. by right.
Qed.

(** An announcement whose payload does not decode changes nothing. *)
Lemma onActionAnnounced_undecodable (actions : gmap string A) (msg : mqtt_Message) :
  Payload msg ≠ [] → json_Unmarshal (Payload msg) = None →
  Catalog.onActionAnnounced json_Unmarshal actions msg = actions.
Proof.
  intros Hne Hdec. unfold Catalog.onActionAnnounced.
  destruct (Catalog.topic_action (Topic msg)); [|done].
  destruct (Payload msg); [done|]. simpl. by rewrite Hdec.
Qed.

(** C7: the catalog mirrors the retained state.  For an action name (one
    topic level, so without a slash): an announcement with an empty payload
    removes the name; one whose payload decodes stores the decoded action
    under the name; and once the most recent announcement for the name, a
    withdrawal or a decodable payload, has been delivered, whatever was
    delivered before it and whatever is delivered after it for other
    names, [Lookup name] is the decoded payload, or nothing after a
    withdrawal. *)
Theorem catalog_mirrors_retained_state
    (actions : gmap string A) (name : string) (payload : list Byte.byte)
    (earlier later : list mqtt_Message) :
  contains_char "/" name = false →
  (payload = [] ∨ is_Some (json_Unmarshal payload)) →
  (∀ msg, msg ∈ later → Catalog.topic_action (Topic msg) ≠ Some name) →
  Catalog.onActionAnnounced json_Unmarshal actions (announcement name [])
    = delete name actions
  ∧ (∀ act, payload ≠ [] → json_Unmarshal payload = Some act →
       Catalog.onActionAnnounced json_Unmarshal actions (announcement name payload)
       = <[name := act]> actions)
  ∧ Catalog.Lookup
      (Catalog.deliver json_Unmarshal actions
         (earlier ++ announcement name payload :: later)) name
    = match payload with [] => None | _ => json_Unmarshal payload end.
Proof.
  intros Hname Hpay Hlater.
  pose proof (topic_action_announce name Hname) as Htopic.
  assert (Hempty : ∀ m, Catalog.onActionAnnounced json_Unmarshal m
                          (announcement name []) = delete name m).
  { intros m. unfold Catalog.onActionAnnounced. simpl. by rewrite Htopic. }
  assert (Hupsert : ∀ m act, payload ≠ [] → json_Unmarshal payload = Some act →
            Catalog.onActionAnnounced json_Unmarshal m (announcement name payload)
            = <[name := act]> m).
  { intros m act Hne Hdec. unfold Catalog.onActionAnnounced. simpl.
    rewrite Htopic. destruct payload; [done|]. simpl. by rewrite Hdec. }
  split; [apply Hempty|]. split; [apply Hupsert|].
  unfold Catalog.Lookup, Catalog.deliver.
  rewrite foldl_app. simpl.
  fold (Catalog.deliver json_Unmarshal
          (Catalog.onActionAnnounced json_Unmarshal
             (foldl (Catalog.onActionAnnounced json_Unmarshal) actions earlier)
             (announcement name payload)) later).
  rewrite (deliver_other later _ name Hlater).
  destruct payload as [|b payload].
  - rewrite Hempty. apply lookup_delete_eq.
  - destruct Hpay as [?|[act Hact]]; [done|].
    rewrite (Hupsert _ act); [|done|done].
    rewrite Hact. apply lookup_insert_eq.
Qed.
End CatalogFacts.

(** The catalog of the sample: [clean_cache] is announced, [old] is
    withdrawn, and an announcement for another action follows. *)
Lemma catalog_mirrors_retained_state_witness :
  Catalog.Lookup
    (Catalog.deliver Sample.unmarshal_action ∅
       ([announcement "clean_cache" (Sample.bytes "{}")]
        ++ announcement "clean_cache" (Sample.bytes Sample.clean_cache_json)
        :: [announcement "health_check" (Sample.bytes "{}")])) "clean_cache"
  = Some Sample.clean_cache.
Proof.
  refine (proj2 (proj2 (catalog_mirrors_retained_state Sample.unmarshal_action ∅
            "clean_cache" (Sample.bytes Sample.clean_cache_json)
            [announcement "clean_cache" (Sample.bytes "{}")]
            [announcement "health_check" (Sample.bytes "{}")] _ _ _))).
  - reflexivity.
  - right. vm_compute. eexists. reflexivity.
  - intros msg Hin. apply list_elem_of_singleton in Hin. subst msg.
    vm_compute. discriminate.
Defined.

(** ** Result delivery: [handleResponse] *)

Section HandleResponse.
Variable json_Unmarshal_result : list Byte.byte → option MqttResultResponse.

(** C10: for a result message that decodes and a non-nil callback, a
    [SUCCESS] result that is not a JSON object reaches the callback wrapped
    as the map with the single key [value], a [SUCCESS] result that is a
    JSON object reaches it unchanged, and with any other status the
    callback gets the error string and the nil map; each time the callback
    is invoked exactly once. *)
Theorem handleResponse_delivers (msg : mqtt_Message) (res : MqttResultResponse) :
  json_Unmarshal_result (Payload msg) = Some res →
  ((Status res = "SUCCESS" ∧ (∀ m, Result res ≠ AMap m)) →
     MqttExec.handleResponse json_Unmarshal_result msg true
     = [("", Some {[ "value" := Result res ]})])
  ∧ (∀ m, Status res = "SUCCESS" → Result res = AMap m →
     MqttExec.handleResponse json_Unmarshal_result msg true = [("", Some m)])
  ∧ (Status res ≠ "SUCCESS" →
     MqttExec.handleResponse json_Unmarshal_result msg true = [(Error res, None)]).
Proof.
  intros Hdec. unfold MqttExec.handleResponse. rewrite Hdec.
  repeat split.
  - intros [Hs Hnot]. rewrite Hs. simpl.
    destruct (Result res) as [| | | | |m]; try reflexivity.
    by destruct (Hnot m).
  - intros m Hs Hm. rewrite Hs, Hm. reflexivity.
  - intros Hs. destruct (String.eqb_spec (Status res) "SUCCESS") as [Heq|_]; [done|].
    reflexivity.
Qed.

(** A result message that does not decode invokes nothing. *)
Lemma handleResponse_undecodable (msg : mqtt_Message) (response : bool) :
  json_Unmarshal_result (Payload msg) = None →
  MqttExec.handleResponse json_Unmarshal_result msg response = [].
Proof. intros Hdec. unfold MqttExec.handleResponse. by rewrite Hdec. Qed.
End HandleResponse.

(** The number 42 is wrapped, the object with [files_deleted] passes
    through, the failure carries its error. *)
Lemma handleResponse_delivers_witness :
  MqttExec.handleResponse Sample.unmarshal_result
    (mkMessage (resultTopicOf "X") (Sample.bytes Sample.result_number_json)) true
  = [("", Some {[ "value" := ANum (F64 42 0) ]})]
  ∧ MqttExec.handleResponse Sample.unmarshal_result
      (mkMessage (resultTopicOf "X") (Sample.bytes Sample.result_object_json)) true
    = [("", Some Sample.files_deleted)]
  ∧ MqttExec.handleResponse Sample.unmarshal_result
      (mkMessage (resultTopicOf "X") (Sample.bytes Sample.result_failure_json)) true
    = [("Exception occurred", None)].
Proof.
  split; [|split].
  - refine (proj1 (handleResponse_delivers Sample.unmarshal_result
              (mkMessage (resultTopicOf "X") (Sample.bytes Sample.result_number_json))
              (mkMqttResultResponse "SUCCESS" (ANum (F64 42 0)) "") _) _).
    + reflexivity.
    + split; [reflexivity|]. intros m. discriminate.
  - refine (proj1 (proj2 (handleResponse_delivers Sample.unmarshal_result
              (mkMessage (resultTopicOf "X") (Sample.bytes Sample.result_object_json))
              (mkMqttResultResponse "SUCCESS" (AMap Sample.files_deleted) "") _))
              Sample.files_deleted _ _); reflexivity.
  - refine (proj2 (proj2 (handleResponse_delivers Sample.unmarshal_result
              (mkMessage (resultTopicOf "X") (Sample.bytes Sample.result_failure_json))
              (mkMqttResultResponse "FAILURE" ANil "Exception occurred") _)) _).
    + reflexivity.
    + discriminate.
Defined.

(** ** Dispatch: [executeAction] and [trigger] *)

Lemma append_inj_l (p s t : string) : p +:+ s = p +:+ t → s = t.
Proof.
  induction p as [|c p IH]; simpl; [done|].
  intros Heq. injection Heq as Heq. by apply IH.
Qed.

Lemma resultTopic_ne_logTopic (execID : string) :
  resultTopicOf execID ≠ logTopicOf execID.
Proof.
  unfold resultTopicOf, logTopicOf. intros Heq.
  apply append_inj_l in Heq. apply append_inj_l in Heq. discriminate.
Qed.

Section Dispatching.
Variable json_Unmarshal_result : list Byte.byte → option MqttResultResponse.

(** C6: an [execute] or [sync_execute] request that names an action absent
    from the catalog is answered with HTTP 404 and the body
    [{detail: Action not found: <name>}]; the handler makes no broker call
    (no subscribe, no publish) and leaves the registry untouched.  This
    holds in both coordinators. *)
Theorem unknown_action_404_no_traffic
    (actions : gmap string MqttAction) (legacy_actions : gmap string Legacy.Action)
    (w : Coordinator.world) (actionName : string)
    (body : option ExecuteActionRequest) (execID fresh : string) (syncMode : bool)
    (pub_err : option string) (incoming : option mqtt_Message)
    (legacy_pub_err : bool) (arrival : option (Z * MqttResultResponse)) (tie : bool) :
  Catalog.Lookup actions actionName = None →
  Catalog.Lookup legacy_actions actionName = None →
  let h := Dispatch.executeAction json_Unmarshal_result actions w actionName body
             execID fresh syncMode pub_err incoming in
  Dispatch.response h
    = Some (mkResp 404 (detail ("Action not found: " +:+ actionName)))
  ∧ Dispatch.traffic h = []
  ∧ Dispatch.after h = w
  ∧ Dispatch.pending h = []
  ∧ Legacy.executeAction legacy_actions actionName body execID syncMode
      legacy_pub_err arrival tie
    = (mkResp 404 (detail ("Action not found: " +:+ actionName)), []).
Proof.
  unfold Catalog.Lookup. intros Hnew Hold. simpl.
  unfold Dispatch.executeAction, MqttExec.GetAction, Legacy.executeAction.
  rewrite Hnew, Hold. done.
Qed.
End Dispatching.

(** Scenario 3 of the specification: [does_not_exist] against a catalog
    that holds [clean_cache]. *)
Lemma unknown_action_404_no_traffic_witness :
  let h := Dispatch.executeAction Sample.unmarshal_result
             {[ "clean_cache" := Sample.clean_cache ]} Coordinator.empty_world
             "does_not_exist" (Some (mkExecuteActionRequest None))
             "X" "Y" false None None in
  Dispatch.response h
    = Some (mkResp 404 (detail "Action not found: does_not_exist"))
  ∧ Dispatch.traffic h = [].
Proof.
  assert (Hnew : Catalog.Lookup
            ({[ "clean_cache" := Sample.clean_cache ]} : gmap string MqttAction)
            "does_not_exist" = None) by (vm_compute; reflexivity).
  assert (Hold : Catalog.Lookup (∅ : gmap string Legacy.Action)
            "does_not_exist" = None) by reflexivity.
  pose proof (unknown_action_404_no_traffic Sample.unmarshal_result
                {[ "clean_cache" := Sample.clean_cache ]} ∅ Coordinator.empty_world
                "does_not_exist" (Some (mkExecuteActionRequest None))
                "X" "Y" false None None false None false Hnew Hold) as (H1 & H2 & _).
  exact (conj H1 H2).
Defined.

(** *** Subscribe before publish *)

(** Refutes membership in an explicit list of operations. *)
Ltac not_among H :=
  repeat (apply elem_of_cons in H as [H|H];
          [first [discriminate H | congruence]|]);
  by apply elem_of_nil in H.

(** C3, as stated, fails on an async dispatch of [clean_cache] with
    execution id [X]: the log topic is subscribed at QoS 0 and its
    acknowledgment is never awaited. *)
Lemma log_topic_subscribed_at_qos0_unawaited :
  ¬ Stated.subscribes_both_before_publish "X" "tinpot/actions/clean_cache/trigger"
      (MqttExec.trigger Sample.clean_cache {[ "_execution_id" := AStr "X" ]}
         true true "Y" None).1.
Proof.
  intros (pre & req & post & Heq & _ & _ & Hsub & _).
  assert (Hin : Subscribe (logTopicOf "X") 1
                ∈ (MqttExec.trigger Sample.clean_cache
                     {[ "_execution_id" := AStr "X" ]} true true "Y" None).1).
  { rewrite Heq. apply elem_of_app. by left. }
  vm_compute in Hin. not_among Hin.
Qed.

(** C3, amended: [trigger] subscribes to the result topic at QoS 1 and
    waits on that subscription's token before it publishes the request on
    the action's trigger topic, once, at QoS 1 and not retained; the log
    topic is subscribed before the publish at QoS 0, only when a log
    callback is given, and its acknowledgment is not awaited.  The request
    carries the execution id and the two topics derived from it. *)
Theorem result_subscription_acked_before_publish
    (action : MqttAction) (parameters : gmap string any)
    (response logs : bool) (fresh : string) (pub_err : option string) :
  let execID := MqttExec.triggerExecID parameters fresh in
  let ops := (MqttExec.trigger action parameters response logs fresh pub_err).1 in
  ∃ req post,
    ops = (((if logs then [Subscribe (logTopicOf execID) 0] else [])
            ++ [Subscribe (resultTopicOf execID) 1; SubWait (resultTopicOf execID)])
           ++ (Publish (TriggerTopic action) 1 false req :: post))
    ∧ ExecutionID req = execID
    ∧ ResultTopic req = resultTopicOf execID
    ∧ LogTopic req = logTopicOf execID
    ∧ (∀ t q r p, Publish t q r p ∉ post)
    ∧ (SubWait (logTopicOf execID) ∉ ops)
    ∧ (∀ q, Subscribe (logTopicOf execID) q ∈ ops → q = 0%Z ∧ logs = true).
Proof.
  intros execID ops. subst ops. unfold MqttExec.trigger. fold execID.
  pose proof (resultTopic_ne_logTopic execID) as Hne.
  eexists (mkExecutionRequest _ _ _ _).
  destruct pub_err as [e|]; simpl.
  - exists (PubWait (TriggerTopic action)
            :: MqttExec.closer_Close (resultTopicOf execID) (logTopicOf execID)).
    split; [by rewrite <- !app_assoc|].
    split; [done|]. split; [done|]. split; [done|].
    unfold MqttExec.closer_Close. split; [|split].
    + intros t q r p Hin. not_among Hin.
    + intros Hin. destruct logs; simpl in Hin; not_among Hin.
    + intros q Hin. destruct logs; simpl in Hin.
      * apply elem_of_cons in Hin as [Hin|Hin]; [by injection Hin as ->|].
        not_among Hin.
      * not_among Hin.
  - exists [PubWait (TriggerTopic action)].
    split; [by rewrite <- !app_assoc|].
    split; [done|]. split; [done|]. split; [done|].
    split; [|split].
    + intros t q r p Hin. not_among Hin.
    + intros Hin. destruct logs; simpl in Hin; not_among Hin.
    + intros q Hin. destruct logs; simpl in Hin.
      * apply elem_of_cons in Hin as [Hin|Hin]; [by injection Hin as ->|].
        not_among Hin.
      * not_among Hin.
Qed.

(** An async dispatch of [clean_cache] with execution id [X]. *)
Lemma result_subscription_acked_before_publish_witness :
  ∃ req post,
    (MqttExec.trigger Sample.clean_cache {[ "_execution_id" := AStr "X" ]}
       true true "Y" None).1
    = [Subscribe "tinpot/exec/X/log" 0;
       Subscribe "tinpot/exec/X/result" 1; SubWait "tinpot/exec/X/result";
       Publish "tinpot/actions/clean_cache/trigger" 1 false req] ++ post.
Proof.
  destruct (result_subscription_acked_before_publish Sample.clean_cache
              {[ "_execution_id" := AStr "X" ]} true true "Y" None)
    as (req & post & Hops & _).
  exists req, post. exact Hops.
Defined.

(** X7: the earlier coordinator subscribes only to the result topic, at
    QoS 1, and waits for it before the publish, which is at QoS 1 and not
    retained; the log topic is subscribed by its [streamLogs], at QoS 0. *)
Lemma legacy_result_subscription_before_publish
    (actions : gmap string Legacy.Action) (act : Legacy.Action) (name : string)
    (req : ExecuteActionRequest) (execID : string) (syncMode pub_err : bool)
    (arrival : option (Z * MqttResultResponse)) (tie : bool) :
  actions !! name = Some act →
  (Legacy.executeAction actions name (Some req) execID syncMode pub_err arrival tie).2
  = [Subscribe (resultTopicOf execID) 1; SubWait (resultTopicOf execID);
     Publish (Legacy.TriggerTopic act) 1 false
       (mkExecutionRequest execID (ear_Parameters req)
          (resultTopicOf execID) (logTopicOf execID));
     PubWait (Legacy.TriggerTopic act);
     Unsubscribe [resultTopicOf execID]]
  ∧ Legacy.streamLogs_subscribe execID
    = [Subscribe (logTopicOf execID) 0; Subscribe (resultTopicOf execID) 1;
       SubWait (logTopicOf execID); SubWait (resultTopicOf execID)].
Proof.
  intros Hact. unfold Legacy.executeAction. rewrite Hact.
  split; [|done].
  destruct pub_err; [done|]. destruct syncMode; [|done].
  by destruct (Legacy.select_result _ _ _).
Qed.

Lemma legacy_result_subscription_before_publish_witness :
  (Legacy.executeAction
     {[ "clean_cache" := Legacy.mkAction "Clean the cache" "Maintenance" ∅
                           "tinpot/actions/clean_cache/trigger" ]}
     "clean_cache" (Some (mkExecuteActionRequest None)) "X" false false None false).2
  = [Subscribe "tinpot/exec/X/result" 1; SubWait "tinpot/exec/X/result";
     Publish "tinpot/actions/clean_cache/trigger" 1 false
       (mkExecutionRequest "X" None "tinpot/exec/X/result" "tinpot/exec/X/log");
     PubWait "tinpot/actions/clean_cache/trigger";
     Unsubscribe ["tinpot/exec/X/result"]].
Proof.
  assert (Hact : ({[ "clean_cache" := Legacy.mkAction "Clean the cache" "Maintenance" ∅
                       "tinpot/actions/clean_cache/trigger" ]}
                  : gmap string Legacy.Action) !! "clean_cache"
                 = Some (Legacy.mkAction "Clean the cache" "Maintenance" ∅
                           "tinpot/actions/clean_cache/trigger"))
    by (vm_compute; reflexivity).
  exact (proj1 (legacy_result_subscription_before_publish _ _ "clean_cache"
                  (mkExecuteActionRequest None) "X" false false None false Hact)).
Defined.

(** *** Sync mode *)

Section SyncMode.
Variable json_Unmarshal_result : list Byte.byte → option MqttResultResponse.

(** C5.  In sync mode the gin-based coordinator keeps the deadline of the
    specification: it arms a timer of 30 seconds, a result that arrives before it is
    answered with HTTP 200 and [{execution_id, action_name, status,
    result}] taken from the result message, and when none has arrived by
    then the answer is HTTP 504.  The coordinator built on [ActionManager]
    departs from it: it has no deadline.  It answers once the response
    callback has run, with HTTP 200 and status [SUCCESS] when the
    callback's error is empty and [FAILURE] otherwise; it stays blocked
    while no callback runs, and it never answers 504. *)
Theorem sync_execute_responses
    (actions : gmap string MqttAction) (legacy_actions : gmap string Legacy.Action)
    (action : MqttAction) (legacy_action : Legacy.Action)
    (w : Coordinator.world) (name : string) (req : ExecuteActionRequest)
    (execID fresh : string) (pub_err : option string)
    (incoming : option mqtt_Message)
    (arrival : option (Z * MqttResultResponse)) (tie : bool) :
  actions !! name = Some action →
  legacy_actions !! name = Some legacy_action →
  let legacy :=
    (Legacy.executeAction legacy_actions name (Some req) execID true false arrival tie).1 in
  let h := Dispatch.executeAction json_Unmarshal_result actions w name (Some req)
             execID fresh true pub_err incoming in
  Legacy.syncTimeout = (30 * 1000000000)%Z
  ∧ (∀ t res, arrival = Some (t, res) → (t < Legacy.syncTimeout)%Z →
       legacy = mkResp 200 (BodySync
                  (mkSyncExecutionResponse execID name (Status res) (Result res))))
  ∧ ((arrival = None ∨ ∃ t res, arrival = Some (t, res) ∧ (Legacy.syncTimeout < t)%Z) →
       legacy = mkResp 504 (detail "Execution timed out"))
  ∧ (∀ r, Dispatch.response h = Some r →
       code r = 200%Z
       ∧ ∃ status result,
           body r = BodySync (mkSyncExecutionResponse execID name status result)
           ∧ (status = "SUCCESS" ∨ status = "FAILURE"))
  ∧ (∀ msg err res, pub_err = None → incoming = Some msg →
       MqttExec.handleResponse json_Unmarshal_result msg true = [(err, res)] →
       Dispatch.response h
       = Some (mkResp 200 (BodySync
           (mkSyncExecutionResponse execID name
              (if String.eqb err "" then "SUCCESS" else "FAILURE")
              (Coordinator.any_of_map res)))))
  ∧ (pub_err = None → incoming = None → Dispatch.response h = None).
Proof.
  intros Hact Hlegacy legacy h.
  subst legacy h. unfold Legacy.executeAction, Dispatch.executeAction, MqttExec.GetAction.
  rewrite Hact, Hlegacy. simpl.
  split; [reflexivity|]. split; [|split; [|split; [|split]]].
  - intros t res -> Ht. unfold Legacy.select_result.
    by rewrite (proj2 (Z.ltb_lt _ _) Ht).
  - intros [->|(t & res & -> & Ht)]; [done|].
    unfold Legacy.select_result.
    rewrite (proj2 (Z.ltb_ge _ _)) by lia.
    rewrite (proj2 (Z.eqb_neq _ _)) by lia. done.
  - intros r. unfold MqttExec.trigger.
    destruct pub_err as [e|]; simpl.
    + intros [= <-]. simpl. split; [done|]. eexists _, _. split; [done|]. by right.
    + destruct incoming as [msg|]; simpl; [|done].
      destruct (MqttExec.handleResponse json_Unmarshal_result msg true)
        as [|[err res] rest]; simpl; [done|].
      intros [= <-]. simpl. split; [done|]. eexists _, _. split; [done|].
      destruct (String.eqb err ""); [by left|by right].
  - intros msg err res -> -> Hcb. unfold MqttExec.trigger. simpl.
    by rewrite Hcb.
  - intros -> ->. done.
Qed.
End SyncMode.

(** C5, as stated, fails on the coordinator built on [ActionManager]: a
    [sync_execute] of [clean_cache] whose result never arrives is not
    answered with 504, the handler stays blocked in [wg.Wait()]. *)
Lemma sync_execute_without_result_never_answers :
  Dispatch.response
    (Dispatch.executeAction Sample.unmarshal_result
       {[ "clean_cache" := Sample.clean_cache ]} Coordinator.empty_world
       "clean_cache" (Some (mkExecuteActionRequest None)) "X" "Y" true None None)
  = None
  ∧ Dispatch.response
      (Dispatch.executeAction Sample.unmarshal_result
         {[ "clean_cache" := Sample.clean_cache ]} Coordinator.empty_world
         "clean_cache" (Some (mkExecuteActionRequest None)) "X" "Y" true None None)
    ≠ Some (mkResp 504 (detail "Execution timed out")).
Proof. split; [vm_compute; reflexivity|vm_compute; discriminate]. Qed.

(** Scenario 1 of the specification on the coordinator built on
    [ActionManager], and a silent worker on the gin-based one. *)
Lemma sync_execute_responses_witness :
  Dispatch.response
    (Dispatch.executeAction Sample.unmarshal_result
       {[ "clean_cache" := Sample.clean_cache ]} Coordinator.empty_world
       "clean_cache" (Some (mkExecuteActionRequest None)) "X" "Y" true None
       (Some (mkMessage (resultTopicOf "X") (Sample.bytes Sample.result_object_json))))
  = Some (mkResp 200 (BodySync
      (mkSyncExecutionResponse "X" "clean_cache" "SUCCESS" (AMap Sample.files_deleted))))
  ∧ (Legacy.executeAction
       {[ "clean_cache" := Legacy.mkAction "Clean the cache" "Maintenance" ∅
                             "tinpot/actions/clean_cache/trigger" ]}
       "clean_cache" (Some (mkExecuteActionRequest None)) "X" true false None false).1
    = mkResp 504 (detail "Execution timed out").
Proof.
  assert (Hact : ({[ "clean_cache" := Sample.clean_cache ]} : gmap string MqttAction)
                 !! "clean_cache" = Some Sample.clean_cache)
    by (vm_compute; reflexivity).
  assert (Hlegacy :
            ({[ "clean_cache" := Legacy.mkAction "Clean the cache" "Maintenance" ∅
                                   "tinpot/actions/clean_cache/trigger" ]}
             : gmap string Legacy.Action) !! "clean_cache"
            = Some (Legacy.mkAction "Clean the cache" "Maintenance" ∅
                      "tinpot/actions/clean_cache/trigger"))
    by (vm_compute; reflexivity).
  pose proof (sync_execute_responses Sample.unmarshal_result _ _ _ _
                Coordinator.empty_world "clean_cache" (mkExecuteActionRequest None)
                "X" "Y" None
                (Some (mkMessage (resultTopicOf "X")
                         (Sample.bytes Sample.result_object_json)))
                None false Hact Hlegacy) as (_ & _ & Htimeout & _ & Hresult & _).
  split.
  - exact (Hresult _ "" (Some Sample.files_deleted) eq_refl eq_refl eq_refl).
  - apply Htimeout. by left.
Defined.

(** ** The execution registry and its event queue *)

Section Registry.
Import Coordinator.

Lemma chan_of_set_chan (l : nat) (c : Chan.t StreamEvent) (w : world) :
  chan_of l (set_chan l c w) = Some c.
Proof. unfold chan_of, set_chan. simpl. by rewrite lookup_insert_eq. Qed.

Lemma chan_of_set_chan_ne (l l' : nat) (c : Chan.t StreamEvent) (w : world) :
  l ≠ l' → chan_of l (set_chan l' c w) = chan_of l w.
Proof. intros Hne. unfold chan_of, set_chan. simpl. by rewrite lookup_insert_ne. Qed.

(** [registerExecution] allocates an open, empty queue of capacity 1000
    and enters it in the registry. *)
Lemma registerExecution_fresh (id : string) (w : world) :
  chan_of (registerExecution id w).1 (registerExecution id w).2
    = Some (Chan.make 1000)
  ∧ getExecution id (registerExecution id w).2 = Some (registerExecution id w).1.
Proof.
  unfold registerExecution, chan_of, getExecution. simpl.
  by rewrite !lookup_insert_eq.
Qed.

Lemma count_complete_app (a b : list StreamEvent) :
  count_complete (a ++ b) = (count_complete a + count_complete b)%nat.
Proof. unfold count_complete. by rewrite filter_app, length_app. Qed.

Lemma count_complete_cons (ev : StreamEvent) (evs : list StreamEvent) :
  count_complete (ev :: evs)
  = ((if is_complete ev then 1 else 0) + count_complete evs)%nat.
Proof.
  unfold count_complete. rewrite filter_cons.
  destruct (decide (is_complete ev = true)) as [Hc|Hc].
  - by rewrite Hc.
  - by destruct (is_complete ev).
Qed.

Lemma queue_ok_make : queue_ok (Chan.make 1000).
Proof. repeat split; simpl; auto with lia. Qed.

Lemma queue_ok_recv (c c' : Chan.t StreamEvent) (ev : StreamEvent) :
  queue_ok c → Chan.recv c = Chan.Received ev c' → queue_ok c'.
Proof.
  intros (Hcap & Hlen & Hopen & Hclosed). unfold Chan.recv.
  destruct c as [b n cl]. cbn [Chan.buf Chan.cap Chan.closed] in *.
  destruct b as [|v rest]; [by destruct cl|].
  intros [= <- <-]. unfold queue_ok.
  cbn [Chan.buf Chan.cap Chan.closed length] in *.
  split; [done|]. split; [lia|]. split.
  - intros Hcl. specialize (Hopen Hcl).
    rewrite count_complete_cons in Hopen. lia.
  - intros Hcl. destruct (Hclosed Hcl) as [H0|(pre & e & Hb & He & Hpre)].
    + left. rewrite count_complete_cons in H0. lia.
    + destruct pre as [|p pre]; simpl in Hb.
      * injection Hb as Hv Hrest. subst. by left.
      * injection Hb as Hv Hrest. subst. right. exists pre, e.
        rewrite count_complete_cons in Hpre. split; [done|]. split; [done|]. lia.
Qed.

(** The result callback on an open queue: it does not panic, it closes
    the queue, and the complete event is appended exactly when the queue
    holds fewer events than its capacity. *)
Lemma responseCallback_open (l : nat) (execID err : string)
    (res : option (gmap string any)) (w : world) (c : Chan.t StreamEvent) :
  chan_of l w = Some c → Chan.closed c = false →
  ∃ w', responseCallback l execID err res w = Ok w'
    ∧ chan_of l w'
      = Some (Chan.mk
                (if (length (Chan.buf c) <? Chan.cap c)%nat
                 then Chan.buf c ++ [complete_event err res] else Chan.buf c)
                (Chan.cap c) true)
    ∧ timers w' = timers w ++ [execID]
    ∧ coord_log w' = coord_log w
    ∧ executions w' = executions w.
Proof.
  intros Hc Hopen. unfold responseCallback. rewrite Hc.
  unfold Chan.try_send. rewrite Hopen.
  destruct (length (Chan.buf c) <? Chan.cap c)%nat; simpl.
  - eexists. split; [reflexivity|].
    unfold chan_of, set_chan. simpl. by rewrite lookup_insert_eq.
  - unfold Chan.close. rewrite Hopen.
    eexists. split; [reflexivity|].
    unfold chan_of, set_chan. simpl. by rewrite lookup_insert_eq.
Qed.

(** On a closed queue the result callback panics. *)
Lemma responseCallback_closed_panics (l : nat) (execID err : string)
    (res : option (gmap string any)) (w : world) (c : Chan.t StreamEvent) :
  chan_of l w = Some c → Chan.closed c = true →
  responseCallback l execID err res w = Panic "send on closed channel".
Proof.
  intros Hc Hcl. unfold responseCallback. rewrite Hc.
  unfold Chan.try_send. by rewrite Hcl.
Qed.

(** The log callback on an open queue: it does not panic; with room the
    log event is appended, on a full queue it is dropped and one line is
    logged. *)
Lemma logCallback_open (l : nat) (execID now level message : string)
    (w : world) (c : Chan.t StreamEvent) :
  chan_of l w = Some c → Chan.closed c = false →
  logCallback l execID now level message w
  = Ok (if (length (Chan.buf c) <? Chan.cap c)%nat
        then set_chan l
               (Chan.mk (Chan.buf c
                         ++ [mkStreamEvent "log"
                               (DataLog (mkMqttLogEntry now level message))])
                        (Chan.cap c) false) w
        else mkWorld (heap w) (executions w)
               (coord_log w ++ ["Dropped log for " +:+ execID +:+ " due to full buffer"])
               (timers w)).
Proof.
  intros Hc Hopen. unfold logCallback. rewrite Hc.
  unfold Chan.try_send. rewrite Hopen.
  by destruct (length (Chan.buf c) <? Chan.cap c)%nat.
Qed.

Lemma exec_step_queue_ok (l : nat) (execID : string) (e : exec_event)
    (w w' : world) (k k' : conn) :
  (∃ c, chan_of l w = Some c ∧ queue_ok c) →
  exec_step l execID e (w, k) = Ok (w', k') →
  ∃ c', chan_of l w' = Some c' ∧ queue_ok c'.
Proof.
  intros (c & Hc & Hok) Hstep.
  pose proof Hok as (Hcap & Hlen & Hopen & Hclosed).
  destruct e as [now level message|err res|flusher| | |]; simpl in Hstep.
  - destruct (Chan.closed c) eqn:Hcl.
    + unfold logCallback in Hstep. rewrite Hc in Hstep.
      unfold Chan.try_send in Hstep. by rewrite Hcl in Hstep.
    + rewrite (logCallback_open _ _ _ _ _ _ c Hc Hcl) in Hstep. simpl in Hstep.
      injection Hstep as <- <-.
      destruct (length (Chan.buf c) <? Chan.cap c)%nat eqn:Hroom.
      * rewrite chan_of_set_chan. eexists. split; [done|].
        apply Nat.ltb_lt in Hroom.
        repeat split; simpl.
        -- done.
        -- rewrite length_app. simpl. lia.
        -- intros _. rewrite count_complete_app, (Hopen eq_refl). reflexivity.
        -- done.
      * exists c. split; [exact Hc|exact Hok].
  - destruct (Chan.closed c) eqn:Hcl.
    + by rewrite (responseCallback_closed_panics _ _ _ _ _ c Hc Hcl) in Hstep.
    + destruct (responseCallback_open l execID err res w c Hc Hcl)
        as (w1 & Hrun & Hc1 & _).
      rewrite Hrun in Hstep. simpl in Hstep. injection Hstep as <- <-.
      eexists. split; [exact Hc1|].
      destruct (length (Chan.buf c) <? Chan.cap c)%nat eqn:Hroom.
      * apply Nat.ltb_lt in Hroom. repeat split; simpl.
        -- done.
        -- rewrite length_app. simpl. lia.
        -- done.
        -- intros _. right. exists (Chan.buf c), (complete_event err res).
           split; [done|]. split; [done|]. by apply Hopen.
      * repeat split; simpl; [done|done|done|].
        intros _. left. by apply Hopen.
  - destruct k; injection Hstep as <- <-; by exists c.
  - destruct k as [| |l' frames|]; simpl in Hstep;
      try (injection Hstep as <- <-; by exists c).
    destruct (chan_of l' w) as [c0|] eqn:Hc0;
      [|injection Hstep as <- <-; by exists c].
    destruct (Chan.recv c0) as [ev c1| |] eqn:Hrecv;
      try (injection Hstep as <- <-; by exists c).
    injection Hstep as <- <-.
    destruct (decide (l = l')) as [<-|Hne].
    + rewrite chan_of_set_chan. exists c1. split; [done|].
      rewrite Hc in Hc0. injection Hc0 as <-.
      by apply (queue_ok_recv c c1 ev).
    + rewrite chan_of_set_chan_ne by done. by exists c.
  - injection Hstep as <- <-. by exists c.
  - injection Hstep as <- <-. by exists c.
Qed.

Lemma exec_run_queue_ok (l : nat) (execID : string) (es : list exec_event)
    (w w' : world) (k k' : conn) :
  (∃ c, chan_of l w = Some c ∧ queue_ok c) →
  exec_run l execID es (w, k) = Ok (w', k') →
  ∃ c', chan_of l w' = Some c' ∧ queue_ok c'.
Proof.
  revert w k.
  induction es as [|e es IH]; intros w k Hinv Hrun; cbn [exec_run] in Hrun.
  - by injection Hrun as <- <-.
  - destruct (exec_step l execID e (w, k)) as [[w1 k1]|msg] eqn:Hstep;
      cbn [obind] in Hrun; [|done].
    eapply IH; [|exact Hrun].
    eapply exec_step_queue_ok; [exact Hinv|exact Hstep].
Qed.
End Registry.

Section ResultUniqueness.
Import Coordinator.

Lemma count_complete_zero (evs : list StreamEvent) (ev : StreamEvent) :
  count_complete evs = 0%nat → ev ∈ evs → is_complete ev = false.
Proof.
  unfold count_complete. intros Hlen Hin.
  apply nil_length_inv in Hlen.
  destruct (is_complete ev) eqn:Hc; [|done].
  assert (Hf : ev ∈ filter (fun ev => is_complete ev = true) evs)
    by (apply list_elem_of_filter; done).
  rewrite Hlen in Hf. by apply elem_of_nil in Hf.
Qed.

(** The callbacks by themselves.  At every moment of an execution that was
    registered by [registerExecution], whatever invocations of the
    callbacks and whatever stream and cleanup events have run without a
    panic, the event queue holds at most one complete event; a complete event in the queue is its last element and the queue
    is then closed; and while the queue is open, a result is handled
    without panic: it closes the queue, after appending the complete event
    when the queue holds fewer than 1000 events and without appending it
    when the queue is full. *)
Lemma complete_event_at_most_once_and_last
    (w0 : world) (execID : string) (es : list exec_event) (w : world) (k : conn) :
  exec_run (registerExecution execID w0).1 execID es
    ((registerExecution execID w0).2, NotConnected) = Ok (w, k) →
  ∃ c, chan_of (registerExecution execID w0).1 w = Some c
    ∧ (count_complete (Chan.buf c) ≤ 1)%nat
    ∧ (∀ ev, ev ∈ Chan.buf c → is_complete ev = true →
         Chan.closed c = true ∧ last (Chan.buf c) = Some ev)
    ∧ (Chan.closed c = false → ∀ err res,
         ∃ w', responseCallback (registerExecution execID w0).1 execID err res w = Ok w'
           ∧ chan_of (registerExecution execID w0).1 w'
             = Some (Chan.mk
                       (if (length (Chan.buf c) <? 1000)%nat
                        then Chan.buf c ++ [complete_event err res] else Chan.buf c)
                       1000 true)).
Proof.
  intros Hrun.
  destruct (registerExecution_fresh execID w0) as [Hfresh _].
  destruct (exec_run_queue_ok _ _ _ _ _ _ _
              (ex_intro _ _ (conj Hfresh queue_ok_make)) Hrun)
    as (c & Hc & Hcap & Hlen & Hopen & Hclosed).
  exists c. split; [exact Hc|]. split; [|split].
  - destruct (Chan.closed c).
    + destruct (Hclosed eq_refl) as [->|(pre & ev & -> & Hev & Hpre)];
        [clear; lia|].
      rewrite count_complete_app, Hpre, count_complete_cons, Hev.
      exact (le_n 1).
    + rewrite (Hopen eq_refl). clear. lia.
  - intros ev Hin Hev. destruct (Chan.closed c).
    + split; [done|].
      destruct (Hclosed eq_refl) as [H0|(pre & e & Hb & He & Hpre)].
      * by rewrite (count_complete_zero _ _ H0 Hin) in Hev.
      * rewrite Hb in Hin |- *. rewrite last_snoc.
        apply elem_of_app in Hin as [Hin|Hin].
        -- by rewrite (count_complete_zero _ _ Hpre Hin) in Hev.
        -- apply list_elem_of_singleton in Hin. by subst.
    + by rewrite (count_complete_zero _ _ (Hopen eq_refl) Hin) in Hev.
  - intros Hcl err res.
    destruct (responseCallback_open _ execID err res w c Hc Hcl) as (w' & Hr & Hc' & _).
    exists w'. split; [exact Hr|]. by rewrite Hc', Hcap.
Qed.
End ResultUniqueness.

(** Three log lines, then the result: the queue ends with its only
    complete event. *)
Lemma complete_event_at_most_once_and_last_witness :
  match Coordinator.exec_run (Coordinator.registerExecution "X" Coordinator.empty_world).1 "X"
          (repeat (Coordinator.EvLog "2026-01-01T00:00:00Z" "INFO" "line") 3
           ++ [Coordinator.EvResult "" (Some Sample.files_deleted)])
          ((Coordinator.registerExecution "X" Coordinator.empty_world).2,
           Coordinator.NotConnected) with
  | Ok (w, _) =>
      ∃ c, Coordinator.chan_of
             (Coordinator.registerExecution "X" Coordinator.empty_world).1 w = Some c
           ∧ (Coordinator.count_complete (Chan.buf c) ≤ 1)%nat
  | Panic _ => False
  end.
Proof.
  pose proof (complete_event_at_most_once_and_last Coordinator.empty_world "X"
                (repeat (Coordinator.EvLog "2026-01-01T00:00:00Z" "INFO" "line") 3
                 ++ [Coordinator.EvResult "" (Some Sample.files_deleted)])) as H.
  destruct (Coordinator.exec_run _ _ _ _) as [[w k]|msg] eqn:Hrun.
  - destruct (H w k eq_refl) as (c & Hc & Hcount & _). by exists c.
  - vm_compute in Hrun. discriminate Hrun.
Defined.


(** ** The SSE stream *)

Section Delivery.
Import Coordinator.

Lemma exec_run_recv_finished (l : nat) (execID : string) (n : nat)
    (w : world) (frames : list frame) :
  exec_run l execID (repeat EvRecv n) (w, Finished frames) = Ok (w, Finished frames).
Proof. induction n as [|n IH]; simpl; [done|exact IH]. Qed.

(** A reader that keeps receiving from a closed queue gets every buffered
    event, in order, and then the end of the stream; it leaves the queue
    empty and closed, and no line is logged. *)
Lemma drain_closed_state (l : nat) (execID : string) (b : list StreamEvent) :
  ∀ (w : world) (frames : list frame) (n cap : nat),
    chan_of l w = Some (Chan.mk b cap true) → (length b < n)%nat →
    ∃ w', exec_run l execID (repeat EvRecv n) (w, Streaming l frames)
          = Ok (w', Finished (frames ++ map FrameEvent b))
      ∧ chan_of l w' = Some (Chan.mk [] cap true)
      ∧ coord_log w' = coord_log w.
Proof.
  induction b as [|v b IH]; intros w frames n cap Hc Hn;
    (destruct n as [|n]; [simpl in Hn; lia|]);
    cbn [repeat exec_run exec_step streamLogs_recv]; rewrite Hc;
    cbn [Chan.recv Chan.buf Chan.closed Chan.cap obind].
  - exists w. rewrite exec_run_recv_finished. by rewrite app_nil_r.
  - destruct (IH (set_chan l (Chan.mk b cap true) w) (frames ++ [FrameEvent v]) n cap)
      as (w' & Hrun & Hc' & Hlog).
    + apply chan_of_set_chan.
    + simpl in Hn. lia.
    + exists w'. rewrite Hrun. by rewrite <- app_assoc.
Qed.

(** Log events that arrive while nobody reads: the queue takes them in
    order up to its capacity, and each one beyond it is dropped with one
    line in the log. *)
Lemma logs_overflow (l : nat) (execID : string) (es : list exec_event) :
  (∀ e, e ∈ es → ∃ now level message, e = EvLog now level message) →
  ∀ (w : world) (k : conn) (c : Chan.t StreamEvent),
    chan_of l w = Some c → Chan.closed c = false →
    (length (Chan.buf c) ≤ Chan.cap c)%nat →
    ∃ w1, exec_run l execID es (w, k) = Ok (w1, k)
      ∧ chan_of l w1
        = Some (Chan.mk
                  (Chan.buf c ++ take (Chan.cap c - length (Chan.buf c)) (sent_events es))
                  (Chan.cap c) false)
      ∧ coord_log w1
        = coord_log w
          ++ repeat ("Dropped log for " +:+ execID +:+ " due to full buffer")
               (length es - (Chan.cap c - length (Chan.buf c))).
Proof.
  induction es as [|e es IH]; intros Hlogs w k c Hc Hopen Hlen.
  - exists w. cbn [exec_run sent_events flat_map length repeat].
    rewrite take_nil, !app_nil_r. split; [done|]. split; [|done].
    rewrite Hc. f_equal. destruct c as [b n cl]. cbn in *. by subst cl.
  - destruct (Hlogs e) as (now & level & message & ->); [by left|].
    assert (Hrest : ∀ e, e ∈ es → ∃ now level message, e = EvLog now level message)
      by (intros e He; apply Hlogs; by right).
    cbn [exec_run exec_step].
    rewrite (logCallback_open _ _ _ _ _ _ c Hc Hopen). cbn [obind].
    change (sent_events (EvLog now level message :: es))
      with (mkStreamEvent "log" (DataLog (mkMqttLogEntry now level message))
            :: sent_events es).
    destruct (Nat.ltb_spec (length (Chan.buf c)) (Chan.cap c)) as [Hroom|Hfull].
    + destruct (IH Hrest
                  (set_chan l
                     (Chan.mk (Chan.buf c
                               ++ [mkStreamEvent "log"
                                     (DataLog (mkMqttLogEntry now level message))])
                              (Chan.cap c) false) w)
                  k _ (chan_of_set_chan _ _ _) eq_refl)
        as (w1 & Hrun & Hc1 & Hlog1).
      { cbn [Chan.buf Chan.cap]. rewrite List.length_app. cbn [length]. lia. }
      exists w1. split; [exact Hrun|].
      cbn [Chan.buf Chan.cap] in Hc1, Hlog1.
      rewrite List.length_app in Hc1, Hlog1. cbn [length] in Hc1, Hlog1.
      split.
      * rewrite Hc1. f_equal. f_equal.
        replace (Chan.cap c - length (Chan.buf c))%nat
          with (S (Chan.cap c - (length (Chan.buf c) + 1)))%nat by lia.
        cbn [take]. by rewrite <- app_assoc.
      * rewrite Hlog1. cbn [coord_log set_chan length]. f_equal. f_equal. lia.
    + destruct (IH Hrest
                  (mkWorld (heap w) (executions w)
                     (coord_log w
                      ++ ["Dropped log for " +:+ execID +:+ " due to full buffer"])
                     (timers w))
                  k c Hc Hopen Hlen)
        as (w1 & Hrun & Hc1 & Hlog1).
      exists w1. split; [exact Hrun|]. split.
      * rewrite Hc1. f_equal. f_equal. f_equal.
        replace (Chan.cap c - length (Chan.buf c))%nat with 0%nat by lia.
        by rewrite !take_0.
      * rewrite Hlog1. cbn [coord_log length].
        replace (Chan.cap c - length (Chan.buf c))%nat with 0%nat by lia.
        rewrite !Nat.sub_0_r. cbn [repeat]. by rewrite <- app_assoc.
Qed.

(** C2, amended.  For an execution whose queue is open with capacity 1000:
    log events that arrive while nobody reads are queued in order up to
    the capacity and each one beyond it is dropped with one line in the
    log, so a log event that arrives while the queue holds 1000 events is
    dropped with one line; and when the result arrives and the reader
    then drains the queue, the reader gets the buffered events and, as the
    last frame before the stream ends, the complete event, provided the
    queue held fewer than 1000 events when the result arrived; if the
    queue was full at that moment the complete event is dropped, no line
    is logged for it, and the stream ends after the buffered events. *)
Theorem complete_event_delivered_when_room
    (w : world) (l : nat) (execID : string) (c : Chan.t StreamEvent)
    (frames : list frame) (err : string) (res : option (gmap string any)) :
  chan_of l w = Some c → Chan.closed c = false → Chan.cap c = 1000%nat →
  (length (Chan.buf c) = 1000%nat → ∀ now level message,
     logCallback l execID now level message w
     = Ok (mkWorld (heap w) (executions w)
             (coord_log w ++ ["Dropped log for " +:+ execID +:+ " due to full buffer"])
             (timers w)))
  ∧ (∃ w', exec_run l execID
             (EvResult err res :: repeat EvRecv (length (Chan.buf c) + 2))
             (w, Streaming l frames)
           = Ok (w', Finished
                   (frames ++ map FrameEvent (Chan.buf c)
                    ++ (if (length (Chan.buf c) <? 1000)%nat
                        then [FrameEvent (complete_event err res)] else [])))
       ∧ coord_log w' = coord_log w
       ∧ chan_of l w' = Some (Chan.mk [] 1000 true))
  ∧ ((length (Chan.buf c) ≤ 1000)%nat → ∀ es k,
       (∀ e, e ∈ es → ∃ now level message, e = EvLog now level message) →
       ∃ w1, exec_run l execID es (w, k) = Ok (w1, k)
         ∧ chan_of l w1
           = Some (Chan.mk
                     (Chan.buf c ++ take (1000 - length (Chan.buf c)) (sent_events es))
                     1000 false)
         ∧ coord_log w1
           = coord_log w
             ++ repeat ("Dropped log for " +:+ execID +:+ " due to full buffer")
                  (length es - (1000 - length (Chan.buf c)))).
Proof.
  intros Hc Hopen Hcap. split; [|split].
  - intros Hfull now level message.
    rewrite (logCallback_open _ _ _ _ _ _ c Hc Hopen).
    by rewrite Hcap, Hfull, Nat.ltb_irrefl.
  - destruct (responseCallback_open l execID err res w c Hc Hopen)
      as (w1 & Hrun & Hc1 & _ & Hlog1 & _).
    cbn [exec_run exec_step]. rewrite Hrun. cbn [obind].
    rewrite Hcap in Hc1.
    destruct (drain_closed_state l execID _ w1 frames (length (Chan.buf c) + 2) _ Hc1)
      as (w' & Hdrain & Hc' & Hlog').
    + destruct (length (Chan.buf c) <? 1000)%nat;
        [rewrite List.length_app; simpl; lia|lia].
    + exists w'. rewrite Hdrain. split; [|split; [congruence|exact Hc']].
      destruct (length (Chan.buf c) <? 1000)%nat.
      * by rewrite map_app.
      * by rewrite !app_nil_r.
  - intros Hlen es k Hlogs. rewrite <- Hcap in Hlen |- *.
    exact (logs_overflow l execID es Hlogs w k c Hc Hopen Hlen).
Qed.
End Delivery.

(** A thousand and one log lines arrive before anybody reads: the queue
    holds the first thousand and one line is logged for the one dropped.
    A result that arrives then finds the queue full: the stream ends after
    the thousand log events, and nothing more is logged.  When the reader
    has taken one event before the result arrives, the complete event is
    the last frame. *)
Lemma complete_event_delivered_when_room_witness :
  (∃ w1,
     Coordinator.exec_run 0 "X"
       (repeat (Coordinator.EvLog "2026-01-01T00:00:00Z" "INFO" "line") 1001)
       (Coordinator.set_chan 0 (Chan.make 1000) Coordinator.empty_world,
        Coordinator.NotConnected) = Ok (w1, Coordinator.NotConnected)
     ∧ Coordinator.chan_of 0 w1
       = Some (Chan.mk
                 (repeat (Coordinator.mkStreamEvent "log"
                            (Coordinator.DataLog
                               (mkMqttLogEntry "2026-01-01T00:00:00Z" "INFO" "line")))
                         1000)
                 1000 false)
     ∧ Coordinator.coord_log w1 = ["Dropped log for X due to full buffer"])
  ∧ (∃ w',
       Coordinator.exec_run 0 "X"
         (Coordinator.EvResult "" (Some Sample.files_deleted)
          :: repeat Coordinator.EvRecv 1002)
         (Coordinator.set_chan 0
            (Chan.mk
               (repeat (Coordinator.mkStreamEvent "log"
                          (Coordinator.DataLog
                             (mkMqttLogEntry "2026-01-01T00:00:00Z" "INFO" "line")))
                       1000)
               1000 false)
            Coordinator.empty_world,
          Coordinator.Streaming 0 [Coordinator.FrameConnected "X"])
       = Ok (w', Coordinator.Finished
                   (Coordinator.FrameConnected "X"
                    :: repeat (Coordinator.FrameEvent
                                 (Coordinator.mkStreamEvent "log"
                                    (Coordinator.DataLog
                                       (mkMqttLogEntry "2026-01-01T00:00:00Z" "INFO"
                                          "line"))))
                              1000))
       ∧ Coordinator.coord_log w' = [])
  ∧ (∃ w',
       Coordinator.exec_run 0 "X"
         (Coordinator.EvResult "" (Some Sample.files_deleted)
          :: repeat Coordinator.EvRecv 1001)
         (Coordinator.set_chan 0
            (Chan.mk
               (repeat (Coordinator.mkStreamEvent "log"
                          (Coordinator.DataLog
                             (mkMqttLogEntry "2026-01-01T00:00:00Z" "INFO" "line")))
                       999)
               1000 false)
            Coordinator.empty_world,
          Coordinator.Streaming 0 [Coordinator.FrameConnected "X"])
       = Ok (w', Coordinator.Finished
                   (Coordinator.FrameConnected "X"
                    :: repeat (Coordinator.FrameEvent
                                 (Coordinator.mkStreamEvent "log"
                                    (Coordinator.DataLog
                                       (mkMqttLogEntry "2026-01-01T00:00:00Z" "INFO"
                                          "line"))))
                              999
                    ++ [Coordinator.FrameEvent
                          (Coordinator.complete_event "" (Some Sample.files_deleted))]))).
Proof.
  split; [|split].
  - destruct (complete_event_delivered_when_room
                (Coordinator.set_chan 0 (Chan.make 1000) Coordinator.empty_world)
                0 "X" (Chan.make 1000) [] "" None
                (chan_of_set_chan 0 _ _) eq_refl eq_refl) as (_ & _ & Hover).
    destruct (Hover (Nat.le_0_l _)
                (repeat (Coordinator.EvLog "2026-01-01T00:00:00Z" "INFO" "line") 1001)
                Coordinator.NotConnected) as (w1 & Hrun & Hc1 & Hlog1).
    { intros e He. apply list_elem_of_In, repeat_spec in He. subst e. by eexists _, _, _. }
    exists w1. split; [exact Hrun|]. split.
    + rewrite Hc1. vm_compute. reflexivity.
    + rewrite Hlog1. vm_compute. reflexivity.
  - destruct (complete_event_delivered_when_room
                (Coordinator.set_chan 0
                   (Chan.mk
                      (repeat (Coordinator.mkStreamEvent "log"
                                 (Coordinator.DataLog
                                    (mkMqttLogEntry "2026-01-01T00:00:00Z" "INFO" "line")))
                              1000)
                      1000 false)
                   Coordinator.empty_world)
                0 "X" _ [Coordinator.FrameConnected "X"] "" (Some Sample.files_deleted)
                (chan_of_set_chan 0 _ _) eq_refl eq_refl)
      as (_ & (w' & Hrun & Hlog & _) & _).
    exists w'. split; [|exact Hlog].
    etrans; [|etrans; [exact Hrun|]]; vm_compute; reflexivity.
  - destruct (complete_event_delivered_when_room
                (Coordinator.set_chan 0
                   (Chan.mk
                      (repeat (Coordinator.mkStreamEvent "log"
                                 (Coordinator.DataLog
                                    (mkMqttLogEntry "2026-01-01T00:00:00Z" "INFO" "line")))
                              999)
                      1000 false)
                   Coordinator.empty_world)
                0 "X" _ [Coordinator.FrameConnected "X"] "" (Some Sample.files_deleted)
                (chan_of_set_chan 0 _ _) eq_refl eq_refl)
      as (_ & (w' & Hrun & _) & _).
    exists w'.
    etrans; [|etrans; [exact Hrun|]]; vm_compute; reflexivity.
Defined.

(** C2, as stated, fails for a reader that connects and then falls
    behind: 1001 log events arrive before it reads, one of them is
    dropped with its log line, the result finds the queue full, and the
    stream the reader then drains ends without a complete event. *)
Lemma complete_event_lost_to_slow_reader :
  ∃ w frames,
    Coordinator.exec_run (Coordinator.registerExecution "X" Coordinator.empty_world).1 "X"
      (Coordinator.EvConnect true
       :: repeat (Coordinator.EvLog "2026-01-01T00:00:00Z" "INFO" "line") 1001
       ++ [Coordinator.EvResult "" None]
       ++ repeat Coordinator.EvRecv 1001)
      ((Coordinator.registerExecution "X" Coordinator.empty_world).2,
       Coordinator.NotConnected) = Ok (w, Coordinator.Finished frames)
    ∧ Coordinator.coord_log w = ["Dropped log for X due to full buffer"]
    ∧ ¬ Stated.complete_delivered (Coordinator.Finished frames).
Proof.
  eexists _, _. split; [vm_compute; reflexivity|].
  split; [vm_compute; reflexivity|].
  intros Hdel. destruct (Hdel _ eq_refl) as (f & Hin & Hf).
  apply list_elem_of_In in Hin.
  pose proof (proj2 (filter_In Coordinator.frame_is_complete f _) (conj Hin Hf)) as Hfil.
  vm_compute in Hfil. exact Hfil.
Qed.

Section StreamStart.
Import Coordinator.

Lemma exec_step_conn_ok (l : nat) (execID : string) (e : exec_event)
    (w w' : world) (k k' : conn) :
  conn_ok execID k → exec_step l execID e (w, k) = Ok (w', k') → conn_ok execID k'.
Proof.
  intros Hk Hstep.
  destruct e as [now level message|err res|flusher| | |]; cbn [exec_step] in Hstep.
  - destruct (logCallback _ _ _ _ _ _); [|done]. by injection Hstep as <- <-.
  - destruct (responseCallback _ _ _ _ _); [|done]. by injection Hstep as <- <-.
  - destruct k; injection Hstep as <- <-; try done.
    unfold streamLogs_open. destruct (getExecution execID w); [|done].
    destruct flusher; [|done]. by exists [].
  - destruct k as [| |l' frames|]; cbn [streamLogs_recv] in Hstep;
      try (by injection Hstep as <- <-).
    destruct (chan_of l' w) as [c|]; [|by injection Hstep as <- <-].
    destruct (Chan.recv c) as [ev c'| |]; injection Hstep as <- <-; try done.
    destruct Hk as [evs ->]. exists (evs ++ [ev]). by rewrite map_app.
  - injection Hstep as <- <-. by destruct k.
  - by injection Hstep as <- <-.
Qed.

Lemma exec_run_conn_ok (l : nat) (execID : string) (es : list exec_event)
    (w w' : world) (k k' : conn) :
  conn_ok execID k → exec_run l execID es (w, k) = Ok (w', k') → conn_ok execID k'.
Proof.
  revert w k.
  induction es as [|e es IH]; intros w k Hk Hrun; cbn [exec_run] in Hrun.
  - by injection Hrun as <- <-.
  - destruct (exec_step l execID e (w, k)) as [[w1 k1]|msg] eqn:Hstep;
      cbn [obind] in Hrun; [|done].
    eapply IH; [|exact Hrun]. eapply exec_step_conn_ok; [exact Hk|exact Hstep].
Qed.

Lemma legacy_stream_step_ok (execID : string) (e : Legacy.stream_event)
    (s s' : Legacy.stream) :
  Legacy.stream_ok execID s → Legacy.stream_step e s = Ok s' →
  Legacy.stream_ok execID s'.
Proof.
  intros [(rest & Hw & Hrest) Hbuf] Hstep.
  destruct e as [entry|r| |]; cbn [Legacy.stream_step] in Hstep.
  - unfold Chan.try_send in Hstep.
    destruct (Chan.closed (Legacy.msgChan s)); [done|].
    destruct (_ <? _)%nat; injection Hstep as <-; [|by split; [exists rest|]].
    split; [by exists rest|]. simpl. intros id Hin.
    apply elem_of_app in Hin as [Hin|Hin]; [by apply (Hbuf id)|].
    by apply list_elem_of_singleton in Hin.
  - unfold Chan.try_send, Chan.close in Hstep.
    destruct (Chan.closed (Legacy.msgChan s)) eqn:Hcl; [done|].
    destruct (_ <? _)%nat; cbn [obind Chan.closed] in Hstep.
    + injection Hstep as <-. split; [by exists rest|]. simpl. intros id Hin.
      apply elem_of_app in Hin as [Hin|Hin]; [by apply (Hbuf id)|].
      by apply list_elem_of_singleton in Hin.
    + rewrite Hcl in Hstep. injection Hstep as <-. by split; [exists rest|].
  - destruct (Legacy.returned s); [injection Hstep as <-; by split; [exists rest|]|].
    unfold Chan.recv in Hstep.
    destruct (Chan.buf (Legacy.msgChan s)) as [|f b] eqn:Hb.
    + destruct (Chan.closed (Legacy.msgChan s)); injection Hstep as <-;
        (split; [by exists rest|]); cbn [Legacy.msgChan]; by rewrite Hb.
    + injection Hstep as <-. simpl. split.
      * exists (rest ++ [f]). rewrite Hw. split; [done|].
        intros id Hin. apply elem_of_app in Hin as [Hin|Hin]; [by apply (Hrest id)|].
        apply list_elem_of_singleton in Hin. apply (Hbuf id). rewrite Hin. left.
      * intros id Hin. apply (Hbuf id). by right.
  - injection Hstep as <-. by split; [exists rest|].
Qed.

Lemma legacy_stream_run_ok (execID : string) (es : list Legacy.stream_event)
    (s s' : Legacy.stream) :
  Legacy.stream_ok execID s → Legacy.stream_run es s = Ok s' →
  Legacy.stream_ok execID s'.
Proof.
  revert s.
  induction es as [|e es IH]; intros s Hs Hrun; cbn [Legacy.stream_run] in Hrun.
  - by injection Hrun as <-.
  - destruct (Legacy.stream_step e s) as [s1|msg] eqn:Hstep;
      cbn [obind] in Hrun; [|done].
    eapply IH; [|exact Hrun]. eapply legacy_stream_step_ok; [exact Hs|exact Hstep].
Qed.

(** C9: in the coordinator built on [ActionManager], a stream request for
    an id that has no [ExecutionState] in the registry is answered with
    HTTP 404; when the state exists (and the response writer can flush, as
    those of [net/http] can) the stream opens with the connected event, and
    whatever happens afterwards every frame that follows it is an event
    taken from the queue.  The stream of the earlier coordinator keeps no
    registry and refuses no id: for every id it writes the connected event
    first, once. *)
Theorem stream_unknown_404_known_connected_first (w : world) (execID : string) :
  (getExecution execID w = None → ∀ flusher,
     streamLogs_open execID flusher w = Refused 404 "Execution not found")
  ∧ (∀ l, getExecution execID w = Some l →
       streamLogs_open execID true w = Streaming l [FrameConnected execID])
  ∧ (∀ l es w' k' frames,
       exec_run l execID (EvConnect true :: es) (w, NotConnected) = Ok (w', k') →
       (k' = Finished frames ∨ ∃ l', k' = Streaming l' frames) →
       ∃ evs, frames = FrameConnected execID :: map FrameEvent evs)
  ∧ (∀ es s, Legacy.stream_run es (Legacy.streamLogs_open execID) = Ok s →
       ∃ rest, Legacy.written s = Legacy.FrameConnected execID :: rest
               ∧ ∀ id, Legacy.FrameConnected id ∉ rest).
Proof.
  split; [|split; [|split]].
  - intros Hnone flusher. unfold streamLogs_open. by rewrite Hnone.
  - intros l Hsome. unfold streamLogs_open. by rewrite Hsome.
  - intros l es w' k' frames Hrun Hk'.
    pose proof (exec_run_conn_ok l execID _ w w' NotConnected k' I Hrun) as Hok.
    destruct Hk' as [->|[l' ->]]; exact Hok.
  - intros es s Hrun.
    refine (proj1 (legacy_stream_run_ok execID es _ s _ Hrun)).
    split; [exists []; split; [done|]|]; intros id Hin; by apply elem_of_nil in Hin.
Qed.
End StreamStart.

(** An unknown id against the empty registry, and the stream of a
    registered execution. *)
Lemma stream_unknown_404_known_connected_first_witness :
  Coordinator.streamLogs_open "nope" true Coordinator.empty_world
  = Coordinator.Refused 404 "Execution not found"
  ∧ Coordinator.streamLogs_open "X" true
      (Coordinator.registerExecution "X" Coordinator.empty_world).2
    = Coordinator.Streaming (Coordinator.registerExecution "X" Coordinator.empty_world).1
        [Coordinator.FrameConnected "X"].
Proof.
  split.
  - exact (proj1 (stream_unknown_404_known_connected_first
                    Coordinator.empty_world "nope") eq_refl true).
  - exact (proj1 (proj2 (stream_unknown_404_known_connected_first
                           (Coordinator.registerExecution "X" Coordinator.empty_world).2
                           "X")) _
             (proj2 (registerExecution_fresh "X" Coordinator.empty_world))).
Defined.

(** C9 on the earlier coordinator: a stream request for an id that no
    execute request ever produced is not refused; the handler subscribes
    to the topics of that id and writes the connected event. *)
Lemma legacy_stream_never_404 :
  Legacy.streamLogs_subscribe "nope"
  = [Subscribe "tinpot/exec/nope/log" 0; Subscribe "tinpot/exec/nope/result" 1;
     SubWait "tinpot/exec/nope/log"; SubWait "tinpot/exec/nope/result"]
  ∧ Legacy.written (Legacy.streamLogs_open "nope") = [Legacy.FrameConnected "nope"]
  ∧ Legacy.returned (Legacy.streamLogs_open "nope") = false.
Proof. repeat split; vm_compute; reflexivity. Qed.

(** ** Parameter marshalling in the workers *)

Section FloatConversion.
Import Marshal.
#[local] Open Scope Z_scope.

Lemma quot_abs_bound (m d : Z) : 0 < d → Z.abs (Z.quot m d) ≤ Z.abs m.
Proof.
  intros Hd. rewrite <- Z.quot_abs by lia. rewrite (Z.abs_eq d) by lia.
  rewrite Z.quot_div_nonneg by lia.
  apply Z.div_le_upper_bound; [lia|]. nia.
Qed.

Lemma pow2_pos (n : Z) : 0 ≤ n → 0 < 2 ^ n.
Proof. intros. apply Z.pow_pos_nonneg; lia. Qed.

Lemma trunc_small (f : float64) :
  float64_wf f → expo f < 0 → Z.abs (trunc f) < 2 ^ 53.
Proof.
  intros [Hm He] Hneg. unfold trunc.
  rewrite (proj2 (Z.leb_gt _ _)) by lia.
  assert (Hd : 0 < 2 ^ (- expo f)) by (apply pow2_pos; lia).
  pose proof (quot_abs_bound (mant f) (2 ^ (- expo f)) Hd).
  lia.
Qed.

Lemma in_int64_of_small (z : Z) :
  Z.abs z < 2 ^ 53 → ((int64_min <=? z) && (z <=? int64_max)) = true.
Proof.
  intros Hz. unfold int64_min, int64_max.
  apply andb_true_intro. split; apply Z.leb_le; lia.
Qed.

Lemma float64_of_int_small (z : Z) : Z.abs z < 2 ^ 53 → float64_of_int z = F64 z 0.
Proof. intros Hz. unfold float64_of_int. by rewrite (proj2 (Z.ltb_lt _ _) Hz). Qed.

Lemma not_integer_is_float (overflow : float64 → Z) (f : float64) :
  float64_wf f → ¬ integer_valued f →
  float64_eqb (float64_of_int (int_of_float64 overflow f)) f = false.
Proof.
  intros Hwf Hni. unfold integer_valued in Hni.
  assert (Hneg : expo f < 0) by lia.
  assert (Hrem : mant f mod 2 ^ (- expo f) ≠ 0) by tauto.
  pose proof (trunc_small f Hwf Hneg) as Hsmall.
  unfold int_of_float64. rewrite (in_int64_of_small _ Hsmall).
  rewrite (float64_of_int_small _ Hsmall).
  unfold float64_eqb. simpl. rewrite Z.min_r by lia.
  rewrite Z.sub_diag, Z.pow_0_r, Z.mul_1_r.
  change (0 - expo f) with (- expo f).
  apply Z.eqb_neq. intros Heq. apply Hrem.
  rewrite <- Heq. apply Z.mod_mul. pose proof (pow2_pos (- expo f)). lia.
Qed.

Lemma float64_of_int_exact (m e : Z) :
  Z.abs m < 2 ^ 53 → 0 ≤ e → 2 ^ 53 ≤ Z.abs (m * 2 ^ e) →
  ∃ k, 1 ≤ k ≤ e ∧ float64_of_int (m * 2 ^ e) = F64 (m * 2 ^ (e - k)) k.
Proof.
  intros Hm He Hbig.
  pose proof (pow2_pos e He) as Hpe.
  assert (Habs : Z.abs (m * 2 ^ e) = Z.abs m * 2 ^ e)
    by (rewrite Z.abs_mul, (Z.abs_eq (2 ^ e)); lia).
  assert (Hm0 : 0 < Z.abs m) by (destruct (Z.eq_dec m 0) as [->|]; simpl in *; lia).
  assert (Hlog : Z.log2 (Z.abs (m * 2 ^ e)) = e + Z.log2 (Z.abs m))
    by (rewrite Habs; apply Z.log2_mul_pow2; lia).
  assert (Hlm : Z.log2 (Z.abs m) < 53) by (apply Z.log2_lt_pow2; lia).
  assert (Hlz : 53 ≤ Z.log2 (Z.abs (m * 2 ^ e)))
    by (apply Z.log2_le_pow2; lia).
  set (k := Z.log2 (Z.abs (m * 2 ^ e)) - 52).
  assert (Hk : 1 ≤ k ≤ e) by (unfold k; lia).
  exists k. split; [done|].
  unfold float64_of_int. rewrite (proj2 (Z.ltb_ge _ _) Hbig). fold k.
  assert (Hsplit : Z.abs (m * 2 ^ e) = Z.abs m * 2 ^ (e - k) * 2 ^ k).
  { rewrite Habs, <- Z.mul_assoc, <- Z.pow_add_r by lia. f_equal. f_equal. lia. }
  pose proof (pow2_pos k ltac:(lia)) as Hpk.
  pose proof (pow2_pos (k - 1) ltac:(lia)) as Hpk1.
  rewrite Hsplit, Z.mod_mul, Z.div_mul by lia.
  rewrite (proj2 (Z.ltb_lt _ _) Hpk1).
  f_equal. rewrite Z.sgn_mul, (Z.sgn_pos (2 ^ e)) by lia.
  rewrite Z.mul_1_r, Z.mul_assoc. f_equal.
  rewrite Z.mul_comm. apply Z.abs_sgn.
Qed.

Lemma float64_eqb_refl_shift (m e k : Z) :
  0 ≤ k ≤ e → float64_eqb (F64 (m * 2 ^ (e - k)) k) (F64 m e) = true.
Proof.
  intros Hk. unfold float64_eqb. simpl.
  rewrite Z.min_l by lia. rewrite Z.sub_diag, Z.pow_0_r, Z.mul_1_r. apply Z.eqb_refl.
Qed.

Lemma integer_is_long (overflow : float64 → Z) (f : float64) :
  float64_wf f → integer_valued f → int64_min ≤ trunc f ≤ int64_max →
  int_of_float64 overflow f = trunc f
  ∧ float64_eqb (float64_of_int (trunc f)) f = true.
Proof.
  intros Hwf Hint Hrange. split.
  { unfold int_of_float64.
    by rewrite (proj2 (Z.leb_le _ _) (proj1 Hrange)), (proj2 (Z.leb_le _ _) (proj2 Hrange)). }
  destruct f as [m e]. destruct Hwf as [Hm He]. unfold integer_valued in Hint.
  unfold trunc in *. simpl in *.
  destruct (Z.leb_spec 0 e) as [Hpos|Hneg].
  - destruct (Z.lt_ge_cases (Z.abs (m * 2 ^ e)) (2 ^ 53)) as [Hsmall|Hbig].
    + rewrite (float64_of_int_small _ Hsmall).
      pose proof (float64_eqb_refl_shift m e 0 ltac:(lia)) as H0.
      by rewrite Z.sub_0_r in H0.
    + destruct (float64_of_int_exact m e Hm Hpos Hbig) as (k & Hk & ->).
      apply float64_eqb_refl_shift. lia.
  - assert (Hd : 0 < 2 ^ (- e)) by (apply pow2_pos; lia).
    assert (Hmod : m mod 2 ^ (- e) = 0) by lia.
    assert (Hex : m = 2 ^ (- e) * Z.quot m (2 ^ (- e))).
    { apply Z.quot_exact; [lia|]. apply Z.rem_mod_eq_0; [lia|done]. }
    pose proof (quot_abs_bound m (2 ^ (- e)) Hd) as Hq.
    rewrite float64_of_int_small by lia.
    unfold float64_eqb. simpl. rewrite Z.min_r by lia.
    rewrite Z.sub_diag, Z.pow_0_r, Z.mul_1_r.
    change (0 - e) with (- e).
    apply Z.eqb_eq. lia.
Qed.

Lemma out_of_range_overflows (overflow : float64 → Z) (f : float64) :
  ¬ (int64_min ≤ trunc f ≤ int64_max) → int_of_float64 overflow f = overflow f.
Proof.
  intros Hout. unfold int_of_float64.
  destruct (Z.leb_spec int64_min (trunc f)); [|done].
  destruct (Z.leb_spec (trunc f) int64_max); [lia|done].
Qed.

Lemma out_of_range_is_float (overflow : float64 → Z) (f : float64) :
  float64_wf f → ¬ (int64_min ≤ trunc f ≤ int64_max) → overflow f = int64_min →
  float64_eqb (float64_of_int (int_of_float64 overflow f)) f = false.
Proof.
  intros Hwf Hout Hamd.
  destruct (Z.leb_spec 0 (expo f)) as [Hpos|Hneg].
  - assert (Hint : int_of_float64 overflow f = int64_min)
      by (by rewrite out_of_range_overflows).
    rewrite Hint.
    change (float64_of_int int64_min) with (F64 (- 2 ^ 52) 11).
    assert (Htr : trunc f = mant f * 2 ^ expo f)
      by (unfold trunc; by rewrite (proj2 (Z.leb_le _ _) Hpos)).
    unfold float64_eqb. cbn [mant expo].
    apply Z.eqb_neq. intros Heq. apply Hout. rewrite Htr.
    set (mn := Z.min 11 (expo f)) in *.
    assert (Hmn : 0 ≤ mn ≤ 11 ∧ mn ≤ expo f) by (unfold mn; lia).
    assert (H63 : - 2 ^ 52 * 2 ^ (11 - mn) * 2 ^ mn = int64_min).
    { rewrite <- Z.mul_assoc, <- Z.pow_add_r by lia.
      replace (11 - mn + mn) with 11 by lia. reflexivity. }
    assert (Hz : mant f * 2 ^ (expo f - mn) * 2 ^ mn = mant f * 2 ^ expo f).
    { rewrite <- Z.mul_assoc, <- Z.pow_add_r by lia.
      by replace (expo f - mn + mn) with (expo f) by lia. }
    rewrite <- Hz, <- Heq, H63. unfold int64_min, int64_max. lia.
  - exfalso. apply Hout.
    pose proof (trunc_small f Hwf Hneg). unfold int64_min, int64_max. lia.
Qed.
End FloatConversion.

Section ParameterConversion.
Import Marshal.
Variable fmt_float : float64 → string.
Variable overflow : float64 → Z.

Lemma CString_no_nul (s : string) :
  contains_char Ascii.zero s = false → CString s = s.
Proof.
  induction s as [|c s IH]; cbn [CString contains_char]; [done|].
  intros [Hc Hs]%orb_false_elim. by rewrite Hc, (IH Hs).
Qed.

Lemma kwargs_snoc (order : list (string * any)) (kv : string * any) :
  kwargs fmt_float overflow (order ++ [kv])
  = <[CString kv.1 := toPy fmt_float overflow kv.2]> (kwargs fmt_float overflow order).
Proof. unfold kwargs. by rewrite foldl_app. Qed.

(** A name that no other entry shares, up to the first NUL, is bound to
    the converted value of its entry, whatever the order of the loop. *)
Lemma kwargs_lookup (order : list (string * any)) (name : string) (v : any) :
  (name, v) ∈ order →
  (∀ name' v', (name', v') ∈ order → CString name' = CString name →
     name' = name ∧ v' = v) →
  kwargs fmt_float overflow order !! CString name = Some (toPy fmt_float overflow v).
Proof.
  induction order as [|kv order IH] using rev_ind; intros Hin Huniq.
  - by apply elem_of_nil in Hin.
  - rewrite kwargs_snoc.
    destruct (decide (CString kv.1 = CString name)) as [Heq|Hne].
    + destruct kv as [name' v'].
      destruct (Huniq name' v') as [-> ->]; [apply elem_of_app; right; by left|done|].
      cbn [fst snd]. by rewrite lookup_insert_eq.
    + rewrite lookup_insert_ne by done.
      apply IH.
      * apply elem_of_app in Hin as [Hin|Hin]; [done|].
        apply list_elem_of_singleton in Hin. subst kv. by destruct Hne.
      * intros name' v' Hin'. apply Huniq, elem_of_app. by left.
Qed.

(** C4, amended.  A parameter value, as [json.Unmarshal] has decoded it
    (every number into a [float64]), is converted as follows before the
    call, where [int] and C's [long] have 64 bits.  A string becomes the Python string of
    its bytes up to the first NUL, the whole string when it holds none.  A
    bool becomes a Python bool.  A number whose value is an integer within
    the range of [int] becomes the Python integer of that value; in
    particular every JSON integer of magnitude below [2^53] arrives as
    that integer.  A number whose value is not an integer becomes a Python
    float.  For a number whose value is an integer outside the range of
    [int], Go leaves [int(val)] to the platform: the value becomes the
    Python integer [int(val)] when that converts back to the same
    [float64] and a Python float otherwise, which is a float wherever
    [int(val)] is [math.MinInt64], as on amd64.  Null, arrays and objects
    become the Python string that holds Go's [%v] rendering of the value
    up to its first NUL, which for null is [<nil>].  A parameter name goes
    through the same string conversion, and is bound to the converted
    value of its parameter when no other name of the request agrees with
    it up to the first NUL. *)
Theorem parameter_conversion :
  (∀ s, toPy fmt_float overflow (AStr s) = PyUnicode (CString s))
  ∧ (∀ s, contains_char Ascii.zero s = false →
       toPy fmt_float overflow (AStr s) = PyUnicode s)
  ∧ (∀ b, toPy fmt_float overflow (ABool b) = PyBool b)
  ∧ (∀ f, float64_wf f → integer_valued f →
       (int64_min ≤ trunc f ≤ int64_max)%Z →
       toPy fmt_float overflow (ANum f) = PyLong (trunc f))
  ∧ (∀ n, (Z.abs n < 2 ^ 53)%Z →
       toPy fmt_float overflow (ANum (float64_of_int n)) = PyLong n)
  ∧ (∀ f, float64_wf f → ¬ integer_valued f →
       toPy fmt_float overflow (ANum f) = PyFloat f)
  ∧ (∀ f, ¬ (int64_min ≤ trunc f ≤ int64_max)%Z →
       toPy fmt_float overflow (ANum f)
       = if float64_eqb (float64_of_int (overflow f)) f
         then PyLong (overflow f) else PyFloat f)
  ∧ (∀ f, float64_wf f → ¬ (int64_min ≤ trunc f ≤ int64_max)%Z →
       overflow f = int64_min →
       toPy fmt_float overflow (ANum f) = PyFloat f)
  ∧ toPy fmt_float overflow ANil = PyUnicode "<nil>"
  ∧ (∀ l, toPy fmt_float overflow (AArr l)
          = PyUnicode
              (CString ("[" +:+ String.concat " " (map (Sprintf_v fmt_float) l) +:+ "]")))
  ∧ (∀ m, toPy fmt_float overflow (AMap m)
          = PyUnicode (CString (Sprintf_v fmt_float (AMap m))))
  ∧ (∀ parameters order name v,
       order ≡ₚ map_to_list parameters →
       parameters !! name = Some v →
       (∀ name', is_Some (parameters !! name') → CString name' = CString name →
          name' = name) →
       kwargs fmt_float overflow order !! CString name
       = Some (toPy fmt_float overflow v)).
Proof.
  split; [done|]. split; [|split; [done|]].
  { intros s Hs. unfold toPy, PyUnicode_FromString. by rewrite (CString_no_nul s Hs). }
  assert (Hlong : ∀ f, float64_wf f → integer_valued f →
            (int64_min ≤ trunc f ≤ int64_max)%Z →
            toPy fmt_float overflow (ANum f) = PyLong (trunc f)).
  { intros f Hwf Hint Hrange.
    destruct (integer_is_long overflow f Hwf Hint Hrange) as [Hconv Heq].
    unfold toPy. by rewrite Hconv, Heq. }
  split; [exact Hlong|].
  split; [|split; [|split; [|split; [|split; [|split; [|split]]]]]]; try done.
  - intros n Hn. rewrite (float64_of_int_small n Hn).
    assert (Htr : trunc (F64 n 0) = n)
      by (unfold trunc; cbn [expo mant]; change (0 <=? 0)%Z with true;
          cbn iota; change (2 ^ 0)%Z with 1%Z; lia).
    rewrite <- Htr at 2. apply Hlong.
    + split; cbn [mant expo]; [exact Hn|lia].
    + left. cbn [expo]. lia.
    + rewrite Htr. unfold int64_min, int64_max. lia.
  - intros f Hwf Hni. unfold toPy.
    by rewrite (not_integer_is_float overflow f Hwf Hni).
  - intros f Hout. unfold toPy. by rewrite (out_of_range_overflows overflow f Hout).
  - intros f Hwf Hout Hamd. unfold toPy.
    by rewrite (out_of_range_is_float overflow f Hwf Hout Hamd).
  - intros parameters order name v Hperm Hv Huniq.
    apply kwargs_lookup.
    + rewrite Hperm. by apply elem_of_map_to_list.
    + intros name' v' Hin Heq. rewrite Hperm in Hin.
      apply elem_of_map_to_list in Hin.
      assert (name' = name) as -> by (apply Huniq; [by eexists|done]).
      split; [done|]. congruence.
Qed.
End ParameterConversion.

(** [days = 5] becomes the integer 5, [ratio = 1.5] stays a float, a
    string is cut at its first NUL, and the JSON integer
    [9223372036854775807], which decodes to the [float64] [2^63], is a
    float on amd64. *)
Lemma parameter_conversion_witness :
  Marshal.toPy (fun _ => "1.5") overflow_amd64 (ANum (F64 5 0)) = PyLong 5
  ∧ Marshal.toPy (fun _ => "1.5") overflow_amd64 (ANum (F64 3 (-1))) = PyFloat (F64 3 (-1))
  ∧ Marshal.toPy (fun _ => "1.5") overflow_amd64
      (AStr (String "a" (String Ascii.zero (String "b" EmptyString))))
    = PyUnicode "a"
  ∧ float64_eqb (float64_of_int int64_max) (F64 1 63) = true
  ∧ Marshal.toPy (fun _ => "1.5") overflow_amd64 (ANum (F64 1 63)) = PyFloat (F64 1 63)
  ∧ Marshal.kwargs (fun _ => "1.5") overflow_amd64
      [("ratio", ANum (F64 3 (-1))); ("days", ANum (F64 5 0))] !! "days"
    = Some (PyLong 5).
Proof.
  pose proof (parameter_conversion (fun _ => "1.5") overflow_amd64)
    as (Hstr & _ & _ & Hint & _ & Hfloat & _ & Hamd & _ & _ & _ & Hkw).
  split; [|split; [|split; [|split; [|split]]]].
  - refine (Hint (F64 5 0) _ _ _).
    + split; simpl; lia.
    + left. simpl. lia.
    + vm_compute. split; discriminate.
  - refine (Hfloat (F64 3 (-1)) _ _).
    + split; simpl; lia.
    + intros [Hpos|Hmod]; [simpl in Hpos; lia|vm_compute in Hmod; discriminate].
  - exact (Hstr (String "a" (String Ascii.zero (String "b" EmptyString)))).
  - vm_compute. reflexivity.
  - refine (Hamd (F64 1 63) _ _ eq_refl).
    + split; simpl; lia.
    + vm_compute. intros [_ H]. by apply H.
  - assert (Hperm : [("ratio", ANum (F64 3 (-1))); ("days", ANum (F64 5 0))]
                    ≡ₚ map_to_list ({[ "days" := ANum (F64 5 0);
                                        "ratio" := ANum (F64 3 (-1)) ]} : gmap string any)).
    { assert (Hl : map_to_list ({[ "days" := ANum (F64 5 0);
                                    "ratio" := ANum (F64 3 (-1)) ]} : gmap string any)
                   = [("ratio", ANum (F64 3 (-1))); ("days", ANum (F64 5 0))]
                     ∨ map_to_list ({[ "days" := ANum (F64 5 0);
                                       "ratio" := ANum (F64 3 (-1)) ]} : gmap string any)
                       = [("days", ANum (F64 5 0)); ("ratio", ANum (F64 3 (-1)))])
        by (vm_compute; (by left) || (by right)).
      destruct Hl as [->| ->]; [done|apply perm_swap]. }
    assert (Hv : ({[ "days" := ANum (F64 5 0); "ratio" := ANum (F64 3 (-1)) ]}
                  : gmap string any) !! "days" = Some (ANum (F64 5 0)))
      by (vm_compute; reflexivity).
    refine (eq_trans (Hkw _ _ "days" _ Hperm Hv _) _).
    + intros name' [v' Hin] Heq.
      apply elem_of_map_to_list in Hin. rewrite <- Hperm in Hin.
      apply elem_of_cons in Hin as [Hin|Hin]; [injection Hin as -> _; vm_compute in Heq; discriminate Heq|].
      apply list_elem_of_singleton in Hin. by injection Hin as -> _.
    + refine (f_equal Some (Hint (F64 5 0) _ _ _)).
      * split; simpl; lia.
      * left. simpl. lia.
      * vm_compute. split; discriminate.
Defined.

(** C4, as stated, fails on null, on arrays and on objects: each becomes
    a Python string, not [None], a list or a mapping. *)
Lemma null_array_object_become_strings :
  Marshal.toPy (fun _ => "") overflow_amd64 ANil = PyUnicode "<nil>"
  ∧ Marshal.toPy (fun _ => "") overflow_amd64 ANil ≠ Marshal.spec_toPy overflow_amd64 ANil
  ∧ Marshal.toPy (fun _ => "") overflow_amd64 (AArr [AStr "a"; ABool true; ANil])
    = PyUnicode "[a true <nil>]"
  ∧ Marshal.toPy (fun _ => "") overflow_amd64 (AArr [AStr "a"; ABool true; ANil])
    ≠ Marshal.spec_toPy overflow_amd64 (AArr [AStr "a"; ABool true; ANil])
  ∧ Marshal.toPy (fun _ => "") overflow_amd64
      (AMap {[ "path" := AStr "/tmp"; "force" := ABool false ]})
    = PyUnicode "map[force:false path:/tmp]"
  ∧ Marshal.toPy (fun _ => "") overflow_amd64
      (AMap {[ "path" := AStr "/tmp"; "force" := ABool false ]})
    ≠ Marshal.spec_toPy overflow_amd64
        (AMap {[ "path" := AStr "/tmp"; "force" := ABool false ]}).
Proof.
  repeat split; try (vm_compute; reflexivity); discriminate.
Qed.

(** ** Trigger topics *)

(** C8 on the earlier worker: for [clean_cache] it announces the trigger
    topic [tinpot/ops/clean_cache/run] and subscribes to it, where the
    worker built on [pyActionManager] announces
    [tinpot/actions/clean_cache/trigger]. *)
Lemma legacy_worker_trigger_topic :
  LegacyWorker.TriggerTopic (LegacyWorker.discovered "clean_cache" "Maintenance" "" ∅)
  = "tinpot/ops/clean_cache/run"
  ∧ TriggerTopic (Worker.toMqttAction (mkActionInfo "clean_cache" "" "Maintenance" []))
    = "tinpot/actions/clean_cache/trigger"
  ∧ LegacyWorker.subscribeToActions
      {[ "clean_cache" := LegacyWorker.discovered "clean_cache" "Maintenance" "" ∅ ]}
    = [Subscribe "tinpot/ops/clean_cache/run" 1].
Proof. repeat split; vm_compute; reflexivity. Qed.

(** The worker built on [pyActionManager] follows the convention for
    every name: the announced trigger topic is [tinpot/actions/{name}/trigger],
    and each announcement is published retained at QoS 1 on
    [tinpot/actions/{name}]. *)
Lemma worker_trigger_topic_convention (act : ActionInfo) :
  TriggerTopic (Worker.toMqttAction act)
  = "tinpot/actions/" +:+ ai_Name act +:+ "/trigger"
  ∧ Worker.announceActions {[ ai_Name act := act ]}
    = [Publish ("tinpot/actions/" +:+ ai_Name act) 1 true (Worker.toMqttAction act);
       PubWait ("tinpot/actions/" +:+ ai_Name act)].
Proof.
  split; [done|].
  unfold Worker.announceActions. by rewrite map_to_list_singleton.
Qed.

(** X6: every publication [trigger] makes goes to the announced trigger
    topic, whatever it is, at QoS 1 and not retained. *)
Lemma request_published_not_retained
    (action : MqttAction) (parameters : gmap string any)
    (response logs : bool) (fresh : string) (pub_err : option string)
    (t : string) (q : Z) (r : bool) (p : ExecutionRequest) :
  Publish t q r p ∈ (MqttExec.trigger action parameters response logs fresh pub_err).1 →
  t = TriggerTopic action ∧ q = 1%Z ∧ r = false.
Proof.
  unfold MqttExec.trigger, MqttExec.closer_Close.
  destruct pub_err, logs; simpl; intros Hin;
    repeat (apply elem_of_cons in Hin as [Hin|Hin];
            [first [discriminate Hin | by injection Hin as -> -> -> _]|]);
    by apply elem_of_nil in Hin.
Qed.

(** ** Further facts about the handlers *)

Section NoPanicBeforeResult.
Import Coordinator.

(** X1: until the first result arrives nothing panics and the queue stays
    open, whatever the interleaving of log events, stream requests,
    receives, disconnects and the cleanup. *)
Lemma exec_run_open_until_result (l : nat) (execID : string)
    (es : list exec_event) (w : world) (k : conn) :
  (∃ c, chan_of l w = Some c ∧ Chan.closed c = false) →
  forallb (fun e => negb (is_result e)) es = true →
  ∃ w' k' c', exec_run l execID es (w, k) = Ok (w', k')
              ∧ chan_of l w' = Some c' ∧ Chan.closed c' = false.
Proof.
  revert w k. induction es as [|e es IH]; intros w k (c & Hc & Hopen) Hes.
  - by exists w, k, c.
  - cbn [forallb] in Hes. apply andb_prop in Hes as [He Hes].
    assert (Hstep : ∃ w1 k1 c1, exec_step l execID e (w, k) = Ok (w1, k1)
                                ∧ chan_of l w1 = Some c1 ∧ Chan.closed c1 = false).
    { destruct e as [now level message|err res|flusher| | |]; cbn [exec_step].
      - rewrite (logCallback_open _ _ _ _ _ _ c Hc Hopen). cbn [obind].
        destruct (length (Chan.buf c) <? Chan.cap c)%nat.
        + eexists _, _, _. split; [done|]. by rewrite chan_of_set_chan.
        + by eexists _, _, c.
      - done.
      - destruct k; by eexists _, _, c.
      - destruct k as [| |l' frames|]; cbn [streamLogs_recv];
          try by eexists _, _, c.
        destruct (chan_of l' w) as [c0|] eqn:Hc0; [|by eexists _, _, c].
        destruct (Chan.recv c0) as [ev c1| |] eqn:Hrecv; try by eexists _, _, c.
        destruct (decide (l = l')) as [<-|Hne].
        + eexists _, _, c1. split; [done|]. rewrite chan_of_set_chan. split; [done|].
          rewrite Hc in Hc0. injection Hc0 as <-. unfold Chan.recv in Hrecv.
          destruct (Chan.buf c); [by destruct (Chan.closed c)|].
          by injection Hrecv as _ <-.
        + eexists _, _, c. split; [done|]. by rewrite chan_of_set_chan_ne.
      - by eexists _, _, c.
      - by eexists _, _, c. }
    destruct Hstep as (w1 & k1 & c1 & Hstep & Hc1 & Hopen1).
    destruct (IH w1 k1 (ex_intro _ c1 (conj Hc1 Hopen1)) Hes) as (w' & k' & c' & Hrun & H').
    exists w', k', c'. cbn [exec_run]. rewrite Hstep. cbn [obind]. by split.
Qed.
End NoPanicBeforeResult.

Lemma exec_run_open_until_result_witness :
  ∃ w' k' c',
    Coordinator.exec_run 0 "X"
      [Coordinator.EvConnect true; Coordinator.EvLog "2026-01-01T00:00:00Z" "INFO" "line";
       Coordinator.EvRecv; Coordinator.EvCleanup]
      (Coordinator.set_chan 0 (Chan.make 1000) Coordinator.empty_world,
       Coordinator.NotConnected) = Ok (w', k')
    ∧ Coordinator.chan_of 0 w' = Some c' ∧ Chan.closed c' = false.
Proof.
  exact (exec_run_open_until_result 0 "X"
           [Coordinator.EvConnect true;
            Coordinator.EvLog "2026-01-01T00:00:00Z" "INFO" "line";
            Coordinator.EvRecv; Coordinator.EvCleanup]
           _ Coordinator.NotConnected
           (ex_intro _ (Chan.make 1000) (conj (chan_of_set_chan 0 _ _) eq_refl))
           eq_refl).
Defined.

(** A retained announcement that is not JSON leaves the previous
    entry in place. *)
Lemma undecodable_announcement_keeps_entry :
  Catalog.Lookup
    (Catalog.deliver Sample.unmarshal_action ∅
       [announcement "clean_cache" (Sample.bytes Sample.clean_cache_json);
        announcement "clean_cache" (Sample.bytes "not json")]) "clean_cache"
  = Some Sample.clean_cache.
Proof. vm_compute. reflexivity. Qed.

Lemma request_published_not_retained_witness :
  "tinpot/actions/clean_cache/trigger" = TriggerTopic Sample.clean_cache
  ∧ 1%Z = 1%Z ∧ false = false.
Proof.
  refine (request_published_not_retained Sample.clean_cache
            {[ "_execution_id" := AStr "X" ]} true true "Y" None
            "tinpot/actions/clean_cache/trigger" 1 false
            (mkExecutionRequest "X" (Some (MqttExec.actualParams
                                             {[ "_execution_id" := AStr "X" ]}))
               (resultTopicOf "X") (logTopicOf "X")) _).
  unfold MqttExec.trigger. simpl.
  do 3 right. left.
Defined.

(** ** More on the catalog *)

Section CatalogAlgebra.
Context {A : Type}.
Variable json_Unmarshal : list Byte.byte → option A.

(** X8: the announcement handler is idempotent: a message delivered twice
    in a row, as QoS 1 allows, leaves the catalog as after the first
    delivery, whatever its topic and payload. *)
Theorem announcement_redelivery_idempotent
    (actions : gmap string A) (msg : mqtt_Message) :
  Catalog.onActionAnnounced json_Unmarshal
    (Catalog.onActionAnnounced json_Unmarshal actions msg) msg
  = Catalog.onActionAnnounced json_Unmarshal actions msg.
Proof.
  unfold Catalog.onActionAnnounced.
  destruct (Catalog.topic_action (Topic msg)) as [name|]; [|done].
  destruct (length (Payload msg) =? 0)%nat.
  - apply map_eq. intros k. destruct (decide (k = name)) as [->|Hne].
    + by rewrite !lookup_delete_eq.
    + by rewrite !lookup_delete_ne.
  - destruct (json_Unmarshal (Payload msg)); [|done].
    apply insert_insert_eq.
Qed.

(** X9: announcements for two different actions commute: the catalog does
    not depend on the order in which the broker delivers them. *)
Theorem announcements_of_distinct_actions_commute
    (actions : gmap string A) (a b : mqtt_Message) :
  Catalog.topic_action (Topic a) ≠ Catalog.topic_action (Topic b) →
  Catalog.onActionAnnounced json_Unmarshal
    (Catalog.onActionAnnounced json_Unmarshal actions a) b
  = Catalog.onActionAnnounced json_Unmarshal
      (Catalog.onActionAnnounced json_Unmarshal actions b) a.
Proof.
  intros Hne. unfold Catalog.onActionAnnounced.
  destruct (Catalog.topic_action (Topic a)) as [na|],
           (Catalog.topic_action (Topic b)) as [nb|]; try done.
  assert (Hnab : na ≠ nb) by congruence.
  destruct (length (Payload a) =? 0)%nat, (length (Payload b) =? 0)%nat;
    try destruct (json_Unmarshal (Payload a));
    try destruct (json_Unmarshal (Payload b)); try done;
    apply map_eq; intros k;
    rewrite ?lookup_insert, ?lookup_delete, ?lookup_insert, ?lookup_delete;
    repeat case_decide; congruence.
Qed.
End CatalogAlgebra.

Lemma announcements_of_distinct_actions_commute_witness :
  Catalog.onActionAnnounced Sample.unmarshal_action
    (Catalog.onActionAnnounced Sample.unmarshal_action ∅
       (announcement "clean_cache" (Sample.bytes Sample.clean_cache_json)))
    (announcement "health_check" [])
  = Catalog.onActionAnnounced Sample.unmarshal_action
      (Catalog.onActionAnnounced Sample.unmarshal_action ∅
         (announcement "health_check" []))
      (announcement "clean_cache" (Sample.bytes Sample.clean_cache_json)).
Proof.
  apply (announcements_of_distinct_actions_commute Sample.unmarshal_action).
  vm_compute. discriminate.
Defined.

(** X10: the listing and the dispatch agree: [ListActions] shows a name
    exactly when [GetAction] finds it, and shows it with the catalog key
    as its [Name] and with the description, group and parameters of the
    stored announcement. *)
Theorem listed_iff_dispatchable (actions : gmap string MqttAction) (name : string) :
  (is_Some (Catalog.ListActions actions !! name)
   ↔ is_Some (MqttExec.GetAction actions name))
  ∧ ∀ info, Catalog.ListActions actions !! name = Some info →
      ai_Name info = name
      ∧ ∃ act, MqttExec.GetAction actions name = Some act
               ∧ ai_Description info = Description act
               ∧ ai_Group info = Group act
               ∧ ai_Parameters info = Parameters act.
Proof.
  unfold Catalog.ListActions, MqttExec.GetAction. rewrite map_lookup_imap.
  destruct (actions !! name) as [act|]; simpl.
  - split; [split; eauto|].
    intros info [= <-]. split; [done|]. by exists act.
  - split; [by split; intros [? ?]|]. by intros info.
Qed.

Section CatalogFlows.
Variable json_Unmarshal_action : list Byte.byte → option MqttAction.
Variable json_Unmarshal_result : list Byte.byte → option MqttResultResponse.

(** X4: protocol errors never change the catalog: a message whose topic
    does not have exactly three segments, or whose non-empty payload does
    not decode, leaves every entry as it was. *)
Theorem protocol_errors_leave_catalog
    (actions : gmap string MqttAction) (msg : mqtt_Message) :
  Catalog.topic_action (Topic msg) = None
  ∨ (Payload msg ≠ [] ∧ json_Unmarshal_action (Payload msg) = None) →
  Catalog.onActionAnnounced json_Unmarshal_action actions msg = actions.
Proof.
  intros [Htopic|[Hne Hdec]]; unfold Catalog.onActionAnnounced.
  - by rewrite Htopic.
  - destruct (Catalog.topic_action (Topic msg)); [|done].
    destruct (Payload msg); [done|]. simpl. by rewrite Hdec.
Qed.

(** X11: what the worker announces is what the coordinator lists.  When
    the announcement the worker publishes for an action (under a name of
    one topic level, with a payload that [encoding/json] decodes back to
    the value marshalled) is delivered, [ListActions] shows the worker's
    [ActionInfo] unchanged under that name, and [GetAction] dispatches to
    the trigger topic [tinpot/actions/{name}/trigger]. *)
Theorem announced_action_is_listed
    (json_Marshal : MqttAction → list Byte.byte)
    (actions : gmap string MqttAction) (act : ActionInfo) :
  contains_char "/" (ai_Name act) = false →
  json_Marshal (Worker.toMqttAction act) ≠ [] →
  json_Unmarshal_action (json_Marshal (Worker.toMqttAction act))
    = Some (Worker.toMqttAction act) →
  let actions' :=
    Catalog.onActionAnnounced json_Unmarshal_action actions
      (mkMessage (announceTopicForAction (ai_Name act))
                 (json_Marshal (Worker.toMqttAction act))) in
  Catalog.ListActions actions' !! ai_Name act = Some act
  ∧ ∃ stored, MqttExec.GetAction actions' (ai_Name act) = Some stored
              ∧ TriggerTopic stored = "tinpot/actions/" +:+ ai_Name act +:+ "/trigger".
Proof.
  intros Hname Hne Hdec actions'. subst actions'.
  unfold Catalog.onActionAnnounced. cbn [Topic Payload].
  rewrite (topic_action_announce (ai_Name act) Hname).
  destruct (json_Marshal (Worker.toMqttAction act)) as [|b bs] eqn:Hm; [done|].
  cbn [length Nat.eqb]. rewrite Hdec.
  unfold Catalog.ListActions, MqttExec.GetAction.
  rewrite map_lookup_imap, lookup_insert_eq. simpl.
  split; [by destruct act|]. by eexists.
Qed.

(** X12: a withdrawn action is gone at once: after an announcement with an
    empty payload for a name of one topic level, the listing no longer
    shows the name and an execute request for it, sync or async, is
    answered 404 without broker traffic and without a registry entry. *)
Theorem withdrawn_action_is_gone
    (actions : gmap string MqttAction) (w : Coordinator.world) (name : string)
    (body : option ExecuteActionRequest) (execID fresh : string) (syncMode : bool)
    (pub_err : option string) (incoming : option mqtt_Message) :
  contains_char "/" name = false →
  let actions' :=
    Catalog.onActionAnnounced json_Unmarshal_action actions (announcement name []) in
  let h := Dispatch.executeAction json_Unmarshal_result actions' w name body
             execID fresh syncMode pub_err incoming in
  Catalog.ListActions actions' !! name = None
  ∧ Dispatch.response h = Some (mkResp 404 (detail ("Action not found: " +:+ name)))
  ∧ Dispatch.traffic h = []
  ∧ Dispatch.after h = w.
Proof.
  intros Hname actions' h.
  assert (Hgone : actions' !! name = None).
  { subst actions'. unfold Catalog.onActionAnnounced, announcement. cbn [Topic Payload].
    rewrite (topic_action_announce name Hname). simpl. apply lookup_delete_eq. }
  split.
  - unfold Catalog.ListActions. by rewrite map_lookup_imap, Hgone.
  - subst h. unfold Dispatch.executeAction, MqttExec.GetAction. by rewrite Hgone.
Qed.
End CatalogFlows.

Lemma protocol_errors_leave_catalog_witness :
  Catalog.onActionAnnounced Sample.unmarshal_action
    {[ "clean_cache" := Sample.clean_cache ]}
    (mkMessage "tinpot/actions/clean_cache/trigger" (Sample.bytes "{}"))
  = {[ "clean_cache" := Sample.clean_cache ]}.
Proof.
  apply (protocol_errors_leave_catalog Sample.unmarshal_action).
  left. vm_compute. reflexivity.
Defined.

Lemma announced_action_is_listed_witness :
  Catalog.ListActions
    (Catalog.onActionAnnounced Sample.unmarshal_action ∅
       (mkMessage (announceTopicForAction "clean_cache")
                  (Sample.bytes Sample.clean_cache_json))) !! "clean_cache"
  = Some (mkActionInfo "clean_cache" "Clean the cache" "Maintenance" ["days"]).
Proof.
  refine (proj1 (announced_action_is_listed Sample.unmarshal_action
                   (fun _ => Sample.bytes Sample.clean_cache_json) ∅
                   (mkActionInfo "clean_cache" "Clean the cache" "Maintenance" ["days"])
                   _ _ _)).
  - reflexivity.
  - vm_compute. discriminate.
  - vm_compute. reflexivity.
Defined.

Lemma withdrawn_action_is_gone_witness :
  Catalog.ListActions
    (Catalog.onActionAnnounced Sample.unmarshal_action
       {[ "clean_cache" := Sample.clean_cache ]} (announcement "clean_cache" []))
    !! "clean_cache" = None.
Proof.
  refine (proj1 (withdrawn_action_is_gone Sample.unmarshal_action
                   Sample.unmarshal_result {[ "clean_cache" := Sample.clean_cache ]}
                   Coordinator.empty_world "clean_cache" None "X" "Y" false None None _)).
  reflexivity.
Defined.

(** ** More on the worker's announcements *)

(** X5: the worker built on [pyActionManager] announces every listed
    action, each in a retained QoS 1 publication on its announcement topic
    that carries the trigger topic [tinpot/actions/{name}/trigger], and
    publishes nothing else; and it subscribes, at QoS 1, to exactly the
    trigger topics it announces. *)
Theorem worker_announces_and_listens_alike (actions : gmap string ActionInfo) :
  (∀ key act, actions !! key = Some act →
     Publish (announceTopicForAction (ai_Name act)) 1 true (Worker.toMqttAction act)
       ∈ Worker.announceActions actions
     ∧ Subscribe (TriggerTopic (Worker.toMqttAction act)) 1
         ∈ (Worker.subscribeToActions actions : list (mqtt_op MqttAction)))
  ∧ (∀ t q r a, Publish t q r a ∈ Worker.announceActions actions →
       q = 1%Z ∧ r = true
       ∧ ∃ key act, actions !! key = Some act
                    ∧ t = "tinpot/actions/" +:+ ai_Name act
                    ∧ a = Worker.toMqttAction act
                    ∧ TriggerTopic a = "tinpot/actions/" +:+ ai_Name act +:+ "/trigger")
  ∧ (∀ op, op ∈ Worker.subscribeToActions actions →
       ∃ key act, actions !! key = Some act
                  ∧ op = Subscribe (TriggerTopic (Worker.toMqttAction act)) 1).
Proof.
  unfold Worker.announceActions, Worker.subscribeToActions.
  split; [|split].
  - intros key act Hact. apply elem_of_map_to_list in Hact. split.
    + apply list_elem_of_In, in_flat_map. exists (key, act).
      split; [by apply list_elem_of_In|]. left. reflexivity.
    + apply list_elem_of_In, in_map_iff. exists (key, act).
      split; [done|]. by apply list_elem_of_In.
  - intros t q r a Hin. apply list_elem_of_In, in_flat_map in Hin.
    destruct Hin as ([key act] & Hkv & Hop). apply list_elem_of_In in Hkv.
    apply elem_of_map_to_list in Hkv. simpl in Hop.
    destruct Hop as [Hop|[Hop|[]]]; [|discriminate Hop].
    injection Hop as <- <- <- <-. split; [done|]. split; [done|].
    by exists key, act.
  - intros op Hin. apply list_elem_of_In, in_map_iff in Hin.
    destruct Hin as ([key act] & <- & Hkv). apply list_elem_of_In in Hkv.
    apply elem_of_map_to_list in Hkv. by exists key, act.
Qed.

Lemma worker_announces_and_listens_alike_witness :
  Publish "tinpot/actions/clean_cache" 1 true Sample.clean_cache
    ∈ Worker.announceActions
        {[ "clean_cache" :=
             mkActionInfo "clean_cache" "Clean the cache" "Maintenance" ["days"] ]}.
Proof.
  assert (Hact : ({[ "clean_cache" :=
                       mkActionInfo "clean_cache" "Clean the cache" "Maintenance" ["days"] ]}
                  : gmap string ActionInfo) !! "clean_cache"
                 = Some (mkActionInfo "clean_cache" "Clean the cache" "Maintenance" ["days"]))
    by (vm_compute; reflexivity).
  exact (proj1 (proj1 (worker_announces_and_listens_alike _) _ _ Hact)).
Defined.

(** ** More on the execution registry *)

Section RegistryFacts.
Import Coordinator.

(** X13: registering an execution enters a new, empty, open queue of
    capacity 1000 at an address no live state uses, so every state that
    exists keeps its queue and every other id keeps its entry; removing
    the execution deletes its registry entry only, the state itself stays
    readable through its address. *)
Theorem registry_round_trips (id other : string) (w : world) :
  getExecution id (registerExecution id w).2 = Some (registerExecution id w).1
  ∧ chan_of (registerExecution id w).1 (registerExecution id w).2 = Some (Chan.make 1000)
  ∧ heap w !! (registerExecution id w).1 = None
  ∧ (∀ l c, chan_of l w = Some c → chan_of l (registerExecution id w).2 = Some c)
  ∧ (other ≠ id → getExecution other (registerExecution id w).2 = getExecution other w)
  ∧ getExecution id (removeExecution id (registerExecution id w).2) = None
  ∧ (other ≠ id →
       getExecution other (removeExecution id (registerExecution id w).2)
       = getExecution other w)
  ∧ chan_of (registerExecution id w).1 (removeExecution id (registerExecution id w).2)
    = Some (Chan.make 1000).
Proof.
  assert (Hfresh : heap w !! fresh (dom (heap w)) = None)
    by (apply not_elem_of_dom, is_fresh).
  unfold registerExecution, removeExecution, getExecution, chan_of. simpl.
  repeat split.
  - apply lookup_insert_eq.
  - by rewrite lookup_insert_eq.
  - exact Hfresh.
  - intros l c Hc. rewrite lookup_insert_ne; [done|].
    intros <-. by rewrite Hfresh in Hc.
  - intros Hne. by rewrite lookup_insert_ne.
  - apply lookup_delete_eq.
  - intros Hne. by rewrite lookup_delete_ne, lookup_insert_ne.
  - by rewrite lookup_insert_eq.
Qed.

Lemma exec_run_app (l : nat) (execID : string) (es1 es2 : list exec_event)
    (st : world * conn) :
  exec_run l execID (es1 ++ es2) st
  = (st' ←! exec_run l execID es1 st ;; exec_run l execID es2 st').
Proof.
  revert st. induction es1 as [|e es1 IH]; intros st; [done|].
  cbn [app exec_run]. destruct (exec_step l execID e st); cbn [obind]; [apply IH|done].
Qed.

Lemma exec_step_agree (l : nat) (execID : string) (e : exec_event)
    (w1 w2 w1' : world) (k k' : conn) :
  agree_off_registry w1 w2 → k ≠ NotConnected →
  exec_step l execID e (w1, k) = Ok (w1', k') →
  ∃ w2', exec_step l execID e (w2, k) = Ok (w2', k')
         ∧ agree_off_registry w1' w2' ∧ k' ≠ NotConnected.
Proof.
  intros (Hh & Hlog & Ht) Hk Hstep.
  destruct w1 as [h1 x1 g1 t1], w2 as [h2 x2 g2 t2]. simpl in Hh, Hlog, Ht. subst.
  destruct e as [now level message|err res|flusher| | |]; cbn [exec_step] in *.
  - unfold logCallback, chan_of, set_chan in *. cbn [heap executions coord_log timers] in *.
    destruct (EventChan <$> h2 !! l) as [c|]; [|done].
    destruct (Chan.try_send c _); cbn [obind] in *; try done;
      injection Hstep as <- <-; by eexists.
  - unfold responseCallback, chan_of, set_chan in *.
    cbn [heap executions coord_log timers] in *.
    destruct (EventChan <$> h2 !! l) as [c|]; [|done].
    destruct (Chan.try_send c _); cbn [obind] in *; try done.
    + destruct (Chan.close c0); cbn [obind] in *; [|done].
      injection Hstep as <- <-. by eexists.
    + destruct (Chan.close c); cbn [obind] in *; [|done].
      injection Hstep as <- <-. by eexists.
  - destruct k; [done|..]; injection Hstep as <- <-; by eexists.
  - destruct k as [| |l' frames|]; [done|..]; cbn [streamLogs_recv] in *.
    + injection Hstep as <- <-. by eexists.
    + unfold chan_of, set_chan in *. cbn [heap executions coord_log timers] in *.
      destruct (EventChan <$> h2 !! l') as [c|]; [|injection Hstep as <- <-; by eexists].
      destruct (Chan.recv c); injection Hstep as <- <-; by eexists.
    + injection Hstep as <- <-. by eexists.
  - injection Hstep as <- <-. eexists. split; [done|]. split; [done|]. by destruct k.
  - injection Hstep as <- <-. by eexists.
Qed.

Lemma exec_run_agree (l : nat) (execID : string) (es : list exec_event) :
  ∀ (w1 w2 w1' : world) (k k' : conn),
    agree_off_registry w1 w2 → k ≠ NotConnected →
    exec_run l execID es (w1, k) = Ok (w1', k') →
    ∃ w2', exec_run l execID es (w2, k) = Ok (w2', k')
           ∧ agree_off_registry w1' w2' ∧ k' ≠ NotConnected.
Proof.
  induction es as [|e es IH]; intros w1 w2 w1' k k' Hagree Hk Hrun;
    cbn [exec_run] in *.
  - injection Hrun as <- <-. by exists w2.
  - destruct (exec_step l execID e (w1, k)) as [[wa ka]|] eqn:Hstep;
      cbn [obind] in Hrun; [|done].
    destruct (exec_step_agree _ _ _ _ w2 _ _ _ Hagree Hk Hstep)
      as (wb & Hstep2 & Hagree2 & Hka).
    rewrite Hstep2. cbn [obind]. by apply (IH wa wb).
Qed.

(** X14: the removal of an execution does not disturb a stream that is
    already open: whenever the timer fires between the events of an
    execution, the client gets the same frames, and the queues and the log
    end up the same, as if it had not fired. *)
Theorem cleanup_does_not_disturb_open_stream
    (l : nat) (execID : string) (es1 es2 : list exec_event)
    (w w' : world) (k k' : conn) :
  k ≠ NotConnected →
  exec_run l execID (es1 ++ EvCleanup :: es2) (w, k) = Ok (w', k') →
  ∃ w'', exec_run l execID (es1 ++ es2) (w, k) = Ok (w'', k')
         ∧ heap w'' = heap w' ∧ coord_log w'' = coord_log w'.
Proof.
  intros Hk Hrun. rewrite exec_run_app in Hrun |- *.
  destruct (exec_run l execID es1 (w, k)) as [[w1 k1]|] eqn:Hrun1;
    cbn [obind] in *; [|done].
  assert (Hk1 : k1 ≠ NotConnected).
  { destruct (exec_run_agree l execID es1 w w w1 k k1) as (_ & _ & _ & Hk1);
      [done|done|done|done]. }
  cbn [exec_run exec_step obind] in Hrun.
  destruct (exec_run_agree l execID es2 (removeExecution execID w1) w1 w' k1 k')
    as (w'' & Hrun2 & (Hh & Hlog & _) & _); [done|done|done|].
  exists w''. by rewrite Hrun2.
Qed.

Lemma exec_step_executions (l : nat) (execID : string) (e : exec_event)
    (w w' : world) (k k' : conn) :
  exec_step l execID e (w, k) = Ok (w', k') →
  executions w'
  = if is_cleanup e then delete execID (executions w) else executions w.
Proof.
  intros Hstep.
  destruct e as [now level message|err res|flusher| | |];
    cbn [exec_step is_cleanup] in *.
  - unfold logCallback in Hstep. destruct (chan_of l w) as [c|]; [|done].
    destruct (Chan.try_send c _); cbn [obind] in Hstep; try done;
      by injection Hstep as <- _.
  - unfold responseCallback in Hstep. destruct (chan_of l w) as [c|]; [|done].
    destruct (Chan.try_send c _) as [c1| |]; cbn [obind] in Hstep; try done.
    + destruct (Chan.close c1); cbn [obind] in Hstep; [|done].
      by injection Hstep as <- _.
    + destruct (Chan.close c); cbn [obind] in Hstep; [|done].
      by injection Hstep as <- _.
  - destruct k; by injection Hstep as <- _.
  - destruct k as [| |l' frames|]; cbn [streamLogs_recv] in Hstep;
      try by injection Hstep as <- _.
    destruct (chan_of l' w) as [c|]; [|by injection Hstep as <- _].
    destruct (Chan.recv c); by injection Hstep as <- _.
  - by injection Hstep as <- _.
  - by injection Hstep as <- _.
Qed.

Lemma exec_run_executions (l : nat) (execID : string) (es : list exec_event) :
  ∀ (w w' : world) (k k' : conn),
    exec_run l execID es (w, k) = Ok (w', k') →
    executions w'
    = if existsb is_cleanup es then delete execID (executions w) else executions w.
Proof.
  induction es as [|e es IH]; intros w w' k k' Hrun; cbn [exec_run] in Hrun.
  - by injection Hrun as <- <-.
  - destruct (exec_step l execID e (w, k)) as [[w1 k1]|] eqn:Hstep;
      cbn [obind] in Hrun; [|done].
    rewrite (IH _ _ _ _ Hrun), (exec_step_executions _ _ _ _ _ _ _ Hstep).
    cbn [existsb]. destruct (is_cleanup e), (existsb is_cleanup es); cbn [orb];
      try done.
    apply map_eq. intros i. destruct (decide (i = execID)) as [->|Hne].
    + by rewrite !lookup_delete_eq.
    + by rewrite !lookup_delete_ne.
Qed.

(** X15: the status endpoint never reports completion.  Whatever happens
    to an execution, its status is PENDING with ready false for as long
    as the removal timer has not fired, results included, and UNKNOWN with
    ready false from the moment it fires. *)
Theorem status_never_reports_completion
    (l l0 : nat) (execID : string) (es : list exec_event)
    (w w' : world) (k k' : conn) :
  getExecution execID w = Some l0 →
  exec_run l execID es (w, k) = Ok (w', k') →
  Handlers.getStatus execID w'
  = (200%Z, Handlers.mkStatusBody execID
              (if existsb is_cleanup es then "UNKNOWN" else "PENDING") false).
Proof.
  intros Hreg Hrun. unfold Handlers.getStatus, getExecution in *.
  rewrite (exec_run_executions _ _ _ _ _ _ _ Hrun).
  destruct (existsb is_cleanup es).
  - by rewrite lookup_delete_eq.
  - by rewrite Hreg.
Qed.

Lemma registry_fresh_queue (id : string) (w : world) :
  getExecution id (registerExecution id w).2 = Some (registerExecution id w).1
  ∧ chan_of (registerExecution id w).1 (registerExecution id w).2 = Some (Chan.make 1000).
Proof.
  unfold registerExecution, getExecution, chan_of. simpl.
  split; [apply lookup_insert_eq|by rewrite lookup_insert_eq].
Qed.
End RegistryFacts.

Lemma cleanup_does_not_disturb_open_stream_witness :
  ∃ w' k',
    Coordinator.exec_run 0 "X"
      ([Coordinator.EvLog "2026-01-01T00:00:00Z" "INFO" "line"]
       ++ Coordinator.EvCleanup
          :: [Coordinator.EvResult "" None; Coordinator.EvRecv; Coordinator.EvRecv;
              Coordinator.EvRecv])
      ((Coordinator.registerExecution "X" Coordinator.empty_world).2,
       Coordinator.Streaming 0 [Coordinator.FrameConnected "X"]) = Ok (w', k')
    ∧ ∃ w'',
        Coordinator.exec_run 0 "X"
          ([Coordinator.EvLog "2026-01-01T00:00:00Z" "INFO" "line"]
           ++ [Coordinator.EvResult "" None; Coordinator.EvRecv; Coordinator.EvRecv;
               Coordinator.EvRecv])
          ((Coordinator.registerExecution "X" Coordinator.empty_world).2,
           Coordinator.Streaming 0 [Coordinator.FrameConnected "X"]) = Ok (w'', k')
        ∧ Coordinator.heap w'' = Coordinator.heap w'
        ∧ Coordinator.coord_log w'' = Coordinator.coord_log w'.
Proof.
  eexists _, _. split; [vm_compute; reflexivity|].
  apply cleanup_does_not_disturb_open_stream; [done|vm_compute; reflexivity].
Defined.

Lemma status_never_reports_completion_witness :
  ∃ w' k',
    Coordinator.exec_run 0 "X" [Coordinator.EvResult "" None]
      ((Coordinator.registerExecution "X" Coordinator.empty_world).2,
       Coordinator.NotConnected) = Ok (w', k')
    ∧ Handlers.getStatus "X" w'
      = (200%Z, Handlers.mkStatusBody "X" "PENDING" false).
Proof.
  eexists _, _. split; [vm_compute; reflexivity|].
  refine (status_never_reports_completion 0 0 "X" [Coordinator.EvResult "" None]
            (Coordinator.registerExecution "X" Coordinator.empty_world).2 _
            Coordinator.NotConnected _ _ _);
    vm_compute; reflexivity.
Defined.

(** ** Order and loss on the stream *)

Section StreamOrder.
Import Coordinator.

Lemma exec_step_stream_order (l : nat) (execID : string) (e : exec_event)
    (w w' : world) (k k' : conn) (c : Chan.t StreamEvent) :
  chan_of l w = Some c → on_stream l k →
  (length (Chan.buf c) + length (sent_events [e]) ≤ Chan.cap c)%nat →
  exec_step l execID e (w, k) = Ok (w', k') →
  ∃ c', chan_of l w' = Some c' ∧ on_stream l k'
    ∧ Chan.cap c' = Chan.cap c
    ∧ (length (Chan.buf c') ≤ length (Chan.buf c) + length (sent_events [e]))%nat
    ∧ frames_of k' ++ map FrameEvent (Chan.buf c')
      = frames_of k ++ map FrameEvent (Chan.buf c ++ sent_events [e]).
Proof.
  intros Hc Hk Hroom Hstep.
  destruct e as [now level message|err res|flusher| | |];
    cbn [exec_step sent_events flat_map app length] in *.
  - unfold logCallback in Hstep. rewrite Hc in Hstep. unfold Chan.try_send in Hstep.
    destruct (Chan.closed c); [done|].
    destruct (Nat.ltb_spec (length (Chan.buf c)) (Chan.cap c)) as [_|Hfull]; [|lia].
    cbn [obind] in Hstep. injection Hstep as <- <-.
    eexists. split; [apply chan_of_set_chan|].
    cbn [Chan.buf Chan.cap]. rewrite List.length_app. cbn [length].
    repeat split; [done|lia].
  - unfold responseCallback in Hstep. rewrite Hc in Hstep.
    unfold Chan.try_send, Chan.close in Hstep.
    destruct (Chan.closed c); [done|].
    destruct (Nat.ltb_spec (length (Chan.buf c)) (Chan.cap c)) as [_|Hfull]; [|lia].
    cbn [obind Chan.closed Chan.buf Chan.cap] in Hstep. injection Hstep as <- <-.
    eexists. split.
    { unfold chan_of, set_chan. cbn [heap]. by rewrite lookup_insert_eq. }
    cbn [Chan.buf Chan.cap EventChan]. rewrite List.length_app. cbn [length].
    repeat split; [done|lia].
  - rewrite app_nil_r, Nat.add_0_r.
    destruct k; [done|..]; injection Hstep as <- <-; by exists c.
  - rewrite app_nil_r, Nat.add_0_r.
    destruct k as [| |l' frames|frames]; [done|done|..]; cbn [streamLogs_recv] in Hstep.
    + cbn [on_stream] in Hk. subst l'. rewrite Hc in Hstep. unfold Chan.recv in Hstep.
      destruct (Chan.buf c) as [|v rest] eqn:Hbuf.
      * destruct (Chan.closed c); injection Hstep as <- <-; exists c;
          rewrite Hbuf; by repeat split.
      * injection Hstep as <- <-. eexists. split; [apply chan_of_set_chan|].
        cbn [Chan.buf Chan.cap frames_of on_stream map length].
        repeat split; [lia|by rewrite <- app_assoc].
    + injection Hstep as <- <-. by exists c.
  - rewrite app_nil_r, Nat.add_0_r. injection Hstep as <- <-. exists c.
    destruct k; by repeat split.
  - rewrite app_nil_r, Nat.add_0_r. injection Hstep as <- <-. by exists c.
Qed.

Lemma exec_run_stream_order (l : nat) (execID : string) (es : list exec_event) :
  ∀ (w w' : world) (k k' : conn) (c : Chan.t StreamEvent),
    chan_of l w = Some c → on_stream l k →
    (length (Chan.buf c) + length (sent_events es) ≤ Chan.cap c)%nat →
    exec_run l execID es (w, k) = Ok (w', k') →
    ∃ c', chan_of l w' = Some c'
      ∧ frames_of k' ++ map FrameEvent (Chan.buf c')
        = frames_of k ++ map FrameEvent (Chan.buf c ++ sent_events es).
Proof.
  induction es as [|e es IH]; intros w w' k k' c Hc Hk Hroom Hrun;
    cbn [exec_run] in Hrun.
  - injection Hrun as <- <-. exists c. by rewrite app_nil_r.
  - destruct (exec_step l execID e (w, k)) as [[w1 k1]|] eqn:Hstep;
      cbn [obind] in Hrun; [|done].
    assert (Hcons : sent_events (e :: es) = sent_events [e] ++ sent_events es)
      by (cbn [sent_events flat_map]; by rewrite app_nil_r).
    rewrite Hcons in *. rewrite List.length_app in Hroom.
    assert (Hroom1 : (length (Chan.buf c) + length (sent_events [e]) ≤ Chan.cap c)%nat)
      by lia.
    destruct (exec_step_stream_order _ _ _ _ _ _ _ c Hc Hk Hroom1 Hstep)
      as (c1 & Hc1 & Hk1 & Hcap & Hlen & Hfr).
    assert (Hroom2 : (length (Chan.buf c1) + length (sent_events es) ≤ Chan.cap c1)%nat)
      by lia.
    destruct (IH w1 w' k1 k' c1 Hc1 Hk1 Hroom2 Hrun) as (c' & Hc' & Hfr').
    exists c'. split; [done|].
    rewrite Hfr', map_app, app_assoc, Hfr, !map_app. by rewrite !app_assoc.
Qed.

(** X3: while the queue of an execution has room for what its callbacks
    enqueue, the stream loses nothing and keeps the order: whatever the
    interleaving of callbacks and reads, the frames written so far followed
    by the events still queued are the frames written before, the events
    queued before and the events of the callbacks, in the order the
    callbacks ran. *)
Theorem stream_keeps_order_without_loss
    (l : nat) (execID : string) (es : list exec_event) (w w' : world) (k' : conn)
    (c : Chan.t StreamEvent) (frames : list frame) :
  chan_of l w = Some c →
  (length (Chan.buf c) + length (sent_events es) ≤ Chan.cap c)%nat →
  exec_run l execID es (w, Streaming l frames) = Ok (w', k') →
  ∃ c', chan_of l w' = Some c'
    ∧ frames_of k' ++ map FrameEvent (Chan.buf c')
      = frames ++ map FrameEvent (Chan.buf c ++ sent_events es).
Proof.
  intros Hc Hroom Hrun.
  by apply (exec_run_stream_order l execID es w w' (Streaming l frames) k' c).
Qed.
End StreamOrder.

Lemma stream_keeps_order_without_loss_witness :
  ∃ w' k',
    Coordinator.exec_run 0 "X"
      [Coordinator.EvLog "2026-01-01T00:00:00Z" "INFO" "one"; Coordinator.EvRecv;
       Coordinator.EvLog "2026-01-01T00:00:01Z" "INFO" "two";
       Coordinator.EvResult "" None; Coordinator.EvRecv]
      ((Coordinator.registerExecution "X" Coordinator.empty_world).2,
       Coordinator.Streaming 0 [Coordinator.FrameConnected "X"]) = Ok (w', k')
    ∧ ∃ c', Coordinator.chan_of 0 w' = Some c'
        ∧ frames_of k' ++ map Coordinator.FrameEvent (Chan.buf c')
          = [Coordinator.FrameConnected "X"]
            ++ map Coordinator.FrameEvent
                 (Chan.buf (Chan.make 1000)
                  ++ sent_events
                       [Coordinator.EvLog "2026-01-01T00:00:00Z" "INFO" "one";
                        Coordinator.EvRecv;
                        Coordinator.EvLog "2026-01-01T00:00:01Z" "INFO" "two";
                        Coordinator.EvResult "" None; Coordinator.EvRecv]).
Proof.
  eexists _, _. split; [vm_compute; reflexivity|].
  apply (stream_keeps_order_without_loss 0 "X" _
           (Coordinator.registerExecution "X" Coordinator.empty_world).2 _ _
           (Chan.make 1000)).
  - vm_compute; reflexivity.
  - apply Nat.leb_le. vm_compute; reflexivity.
  - vm_compute; reflexivity.
Defined.

(** ** Subscriptions held for an execution *)

Section Subscriptions.
Variable json_Unmarshal_result : list Byte.byte → option MqttResultResponse.

(** X16: [trigger] holds its subscriptions exactly until a message comes in
    on the result topic.  After a successful publish the client is
    subscribed to the result topic, and to the log topic when a log
    callback was given; the first message on the result topic, whether it
    decodes or not, releases both; a failed publish releases them at
    once. *)
Theorem trigger_subscriptions_released
    (action : MqttAction) (parameters : gmap string any) (response logs : bool)
    (fresh e : string) (msg : mqtt_Message) (subs : gset string) :
  resultTopicOf (MqttExec.triggerExecID parameters fresh) ∉ subs →
  logTopicOf (MqttExec.triggerExecID parameters fresh) ∉ subs →
  subscriptions_after (MqttExec.trigger action parameters response logs fresh None).1 subs
  = {[ resultTopicOf (MqttExec.triggerExecID parameters fresh) ]}
    ∪ (if logs then {[ logTopicOf (MqttExec.triggerExecID parameters fresh) ]} else ∅)
    ∪ subs
  ∧ subscriptions_after
      ((MqttExec.trigger action parameters response logs fresh None).1
       ++ (MqttExec.onResultMessage json_Unmarshal_result
             (MqttExec.triggerExecID parameters fresh) response msg).2) subs
    = subs
  ∧ subscriptions_after
      (MqttExec.trigger action parameters response logs fresh (Some e)).1 subs
    = subs.
Proof.
  intros Hr Hl. unfold MqttExec.trigger, MqttExec.onResultMessage, MqttExec.closer_Close.
  generalize dependent (resultTopicOf (MqttExec.triggerExecID parameters fresh)).
  generalize dependent (logTopicOf (MqttExec.triggerExecID parameters fresh)).
  intros lt Hl rt Hr.
  destruct logs; cbn [fst snd app subscriptions_after list_to_set foldr];
    repeat split; set_solver.
Qed.

(** X17: the earlier coordinator's [executeAction] never leaves a
    subscription behind: whatever the outcome (404, 400, 500, 504, sync or
    async 200), the client is subscribed after the handler to what it was
    subscribed to before. *)
Theorem legacy_execute_releases_subscription
    (actions : gmap string Legacy.Action) (actionName : string)
    (body : option ExecuteActionRequest) (execID : string) (syncMode pub_err : bool)
    (arrival : option (Z * MqttResultResponse)) (tie : bool) (subs : gset string) :
  resultTopicOf execID ∉ subs →
  subscriptions_after
    (Legacy.executeAction actions actionName body execID syncMode pub_err arrival tie).2
    subs = subs.
Proof.
  intros Hr. unfold Legacy.executeAction.
  generalize dependent (resultTopicOf execID). intros rt Hr.
  destruct (actions !! actionName); [|done].
  destruct body; [|done].
  destruct pub_err; [cbn; set_solver|].
  destruct syncMode; [|cbn; set_solver].
  destruct (Legacy.select_result _ _ _); cbn; set_solver.
Qed.
End Subscriptions.

Lemma trigger_subscriptions_released_witness :
  subscriptions_after
    (MqttExec.trigger Sample.clean_cache {[ "_execution_id" := AStr "X" ]}
       true true "fresh" None).1 ∅
  = {[ resultTopicOf "X" ]} ∪ {[ logTopicOf "X" ]} ∪ ∅
  ∧ subscriptions_after
      ((MqttExec.trigger Sample.clean_cache {[ "_execution_id" := AStr "X" ]}
          true true "fresh" None).1
       ++ (MqttExec.onResultMessage Sample.unmarshal_result "X" true
             (mkMessage (resultTopicOf "X") (Sample.bytes Sample.result_number_json))).2) ∅
    = ∅
  ∧ subscriptions_after
      (MqttExec.trigger Sample.clean_cache {[ "_execution_id" := AStr "X" ]}
         true true "fresh" (Some "not connected")).1 ∅
    = ∅.
Proof.
  exact (trigger_subscriptions_released Sample.unmarshal_result Sample.clean_cache
           {[ "_execution_id" := AStr "X" ]} true true "fresh" "not connected"
           (mkMessage (resultTopicOf "X") (Sample.bytes Sample.result_number_json)) ∅
           (not_elem_of_empty _) (not_elem_of_empty _)).
Defined.

Lemma legacy_execute_releases_subscription_witness :
  subscriptions_after
    (Legacy.executeAction
       {[ "clean_cache" := Legacy.mkAction "d" "g" ∅ "tinpot/actions/clean_cache/trigger" ]}
       "clean_cache" (Some (mkExecuteActionRequest None)) "X" false false None false).2
    ∅ = ∅.
Proof.
  exact (legacy_execute_releases_subscription _ "clean_cache" _ "X" false false None false ∅
           (not_elem_of_empty _)).
Defined.

(** ** More on [executeAction] of [cmd/coordinator] *)

Section DispatchFacts.
Import Coordinator.
Variable json_Unmarshal_result : list Byte.byte → option MqttResultResponse.

Lemma actualParams_execution_id (execID : string) (m : gmap string any) :
  MqttExec.actualParams (<["_execution_id" := AStr execID]> m) = MqttExec.actualParams m.
Proof.
  unfold MqttExec.actualParams. apply map_filter_insert_not. intros y. by cbn.
Qed.

Lemma triggerExecID_execution_id (execID fresh : string) (m : gmap string any) :
  MqttExec.triggerExecID (<["_execution_id" := AStr execID]> m) fresh = execID.
Proof. unfold MqttExec.triggerExecID. by rewrite lookup_insert_eq. Qed.

(** X18: an async execute is answered 200 submitted under the id the
    handler drew, and everything is correlated by that id: the registry
    holds a fresh open queue under it, the one request published carries
    it together with the result and log topics built from it, and the
    stream URL names it.  The parameters on the wire are the caller's
    without the keys that start with an underscore, which are dropped
    silently. *)
Theorem async_execute_correlates
    (actions : gmap string MqttAction) (w : world) (actionName : string)
    (action : MqttAction) (req : ExecuteActionRequest) (execID fresh : string)
    (pub_err : option string) (incoming : option mqtt_Message) :
  MqttExec.GetAction actions actionName = Some action →
  let h := Dispatch.executeAction json_Unmarshal_result actions w actionName (Some req)
             execID fresh false pub_err incoming in
  Dispatch.response h
  = Some (mkResp 200 (BodyAsync (mkExecutionResponse execID actionName "submitted"
                                   ("/api/executions/" +:+ execID +:+ "/stream"))))
  ∧ (∃ l, Dispatch.bound h = Some l
          ∧ getExecution execID (Dispatch.after h) = Some l
          ∧ chan_of l (Dispatch.after h) = Some (Chan.make 1000)
          ∧ streamLogs_open execID true (Dispatch.after h)
            = Streaming l [FrameConnected execID])
  ∧ ∀ topic qos retained p,
      Publish topic qos retained p ∈ Dispatch.traffic h →
      p = mkExecutionRequest execID
            (Some (filter (fun kv => HasPrefix kv.1 "_" = false)
                          (default ∅ (ear_Parameters req))))
            ("tinpot/exec/" +:+ execID +:+ "/result")
            ("tinpot/exec/" +:+ execID +:+ "/log").
Proof.
  intros Hact h. subst h. unfold Dispatch.executeAction. rewrite Hact.
  pose proof (registry_fresh_queue execID w) as (Hget & Hchan).
  destruct (registerExecution execID w) as [l w1] eqn:Hreg. cbn [fst snd] in *.
  unfold MqttExec.trigger.
  rewrite triggerExecID_execution_id, actualParams_execution_id.
  destruct pub_err as [e|]; cbn [Dispatch.response Dispatch.bound Dispatch.after
                                  Dispatch.traffic].
  all: split; [done|]; split.
  1,3: exists l; repeat split; [done|done|];
       unfold streamLogs_open; by rewrite Hget.
  all: intros topic qos retained p Hin;
       unfold MqttExec.closer_Close in Hin; cbn [app] in Hin;
       repeat (apply elem_of_cons in Hin as [Hin|Hin]; [try discriminate Hin|]);
       try (by apply elem_of_nil in Hin);
       by injection Hin as _ _ _ ->.
Qed.
End DispatchFacts.

Lemma async_execute_correlates_witness :
  let h := Dispatch.executeAction Sample.unmarshal_result
             {[ "clean_cache" := Sample.clean_cache ]} Coordinator.empty_world
             "clean_cache"
             (Some (mkExecuteActionRequest
                      (Some {[ "days" := ANum (F64 7 0); "_force" := ABool true ]})))
             "X" "fresh" false None None in
  Dispatch.response h
  = Some (mkResp 200 (BodyAsync (mkExecutionResponse "X" "clean_cache" "submitted"
                                   ("/api/executions/" +:+ "X" +:+ "/stream"))))
  ∧ (∃ l, Dispatch.bound h = Some l
          ∧ Coordinator.getExecution "X" (Dispatch.after h) = Some l
          ∧ Coordinator.chan_of l (Dispatch.after h) = Some (Chan.make 1000)
          ∧ Coordinator.streamLogs_open "X" true (Dispatch.after h)
            = Coordinator.Streaming l [Coordinator.FrameConnected "X"])
  ∧ ∀ topic qos retained p,
      Publish topic qos retained p ∈ Dispatch.traffic h →
      p = mkExecutionRequest "X"
            (Some (filter (fun kv => HasPrefix kv.1 "_" = false)
                          (default ∅ (ear_Parameters
                             (mkExecuteActionRequest
                                (Some {[ "days" := ANum (F64 7 0);
                                         "_force" := ABool true ]}))))))
            ("tinpot/exec/" +:+ "X" +:+ "/result")
            ("tinpot/exec/" +:+ "X" +:+ "/log").
Proof.
  assert (Hact : MqttExec.GetAction
                   ({[ "clean_cache" := Sample.clean_cache ]} : gmap string MqttAction)
                   "clean_cache" = Some Sample.clean_cache)
    by (vm_compute; reflexivity).
  exact (async_execute_correlates Sample.unmarshal_result _ Coordinator.empty_world
           "clean_cache" Sample.clean_cache _ "X" "fresh" None None Hact).
Defined.

Section DispatchOutcomes.
Import Coordinator.
Variable json_Unmarshal_result : list Byte.byte → option MqttResultResponse.

(** X19: in async mode a failed publish is not reported in the HTTP
    response, which is 200 submitted all the same; it reaches the caller on
    the stream: the response callback runs with the error, so the queue of
    the execution holds one complete event with that error and is
    closed. *)
Theorem async_publish_failure_reported_on_stream
    (actions : gmap string MqttAction) (w : world) (actionName : string)
    (action : MqttAction) (req : ExecuteActionRequest) (execID fresh e : string)
    (incoming : option mqtt_Message) :
  MqttExec.GetAction actions actionName = Some action →
  let h := Dispatch.executeAction json_Unmarshal_result actions w actionName (Some req)
             execID fresh false (Some e) incoming in
  (∃ r, Dispatch.response h = Some (mkResp 200 (BodyAsync r))
        ∧ er_Status r = "submitted")
  ∧ ∃ l w',
      Dispatch.bound h = Some l
      ∧ foldl (fun acc call => w1 ←! acc ;; responseCallback l execID call.1 call.2 w1)
              (Ok (Dispatch.after h)) (Dispatch.pending h) = Ok w'
      ∧ chan_of l w'
        = Some (Chan.mk [complete_event ("failed to publish request: " +:+ e) None]
                        1000 true).
Proof.
  intros Hact h. subst h. unfold Dispatch.executeAction. rewrite Hact.
  pose proof (registry_fresh_queue execID w) as (Hget & Hchan).
  destruct (registerExecution execID w) as [l w1] eqn:Hreg. cbn [fst snd] in *.
  unfold MqttExec.trigger, MqttExec.responseWithErr.
  cbn [Dispatch.response Dispatch.bound Dispatch.after Dispatch.pending foldl fst snd obind].
  split; [by eexists|].
  destruct (responseCallback_open l execID ("failed to publish request: " +:+ e) None
              w1 (Chan.make 1000) Hchan eq_refl) as (w' & Hcb & Hc' & _).
  exists l, w'. by repeat split.
Qed.

(** X20: a sync execute leaves no trace in the registry, and so do the
    requests answered 404 and 400: the registry is the one the handler
    found, and under an id that was not registered before, a later stream
    request is answered 404 and the status is UNKNOWN.  In sync mode the
    log topic is never subscribed. *)
Theorem sync_execution_is_not_registered
    (actions : gmap string MqttAction) (w : world) (actionName : string)
    (body : option ExecuteActionRequest) (execID fresh : string) (syncMode : bool)
    (pub_err : option string) (incoming : option mqtt_Message) (flusher : bool) :
  getExecution execID w = None →
  syncMode = true ∨ body = None ∨ MqttExec.GetAction actions actionName = None →
  let h := Dispatch.executeAction json_Unmarshal_result actions w actionName body
             execID fresh syncMode pub_err incoming in
  Dispatch.after h = w
  ∧ Dispatch.bound h = None
  ∧ streamLogs_open execID flusher (Dispatch.after h) = Refused 404 "Execution not found"
  ∧ (Handlers.getStatus execID (Dispatch.after h)).2.(Handlers.sb_state) = "UNKNOWN"
  ∧ ∀ qos, Subscribe (logTopicOf execID) qos ∉ Dispatch.traffic h.
Proof.
  intros Hnew Hcase h.
  assert (Hshape : Dispatch.after h = w ∧ Dispatch.bound h = None
                   ∧ ∀ qos, Subscribe (logTopicOf execID) qos ∉ Dispatch.traffic h).
  { subst h. unfold Dispatch.executeAction.
    destruct (MqttExec.GetAction actions actionName) as [action|];
      [|repeat split; try done; intros qos Hin; by apply elem_of_nil in Hin].
    destruct body as [req|];
      [|repeat split; try done; intros qos Hin; by apply elem_of_nil in Hin].
    destruct Hcase as [->|[?|?]]; [|done|done].
    unfold MqttExec.trigger, MqttExec.onResultMessage, MqttExec.closer_Close.
    rewrite triggerExecID_execution_id.
    destruct pub_err as [e|], incoming as [msg|];
      cbn [Dispatch.after Dispatch.bound Dispatch.traffic app];
      (split; [done|]); (split; [done|]); intros qos Hin;
      repeat (apply elem_of_cons in Hin as [Hin|Hin]; [try discriminate Hin|]);
      try (by apply elem_of_nil in Hin);
      assert (Heq : logTopicOf execID = resultTopicOf execID) by congruence;
      symmetry in Heq; by apply resultTopic_ne_logTopic in Heq. }
  destruct Hshape as (Hafter & Hbound & Hsub). rewrite Hafter.
  unfold streamLogs_open, Handlers.getStatus. rewrite Hnew. by repeat split.
Qed.

Lemma sync_response_of_worker_result
    (actions : gmap string MqttAction) (w : world) (actionName : string)
    (action : MqttAction) (req : ExecuteActionRequest) (execID fresh : string)
    (msg : mqtt_Message) (call : response_call) :
  MqttExec.GetAction actions actionName = Some action →
  json_Unmarshal_result (Payload msg) = Some (WorkerDispatch.result_of_call call) →
  Dispatch.response
    (Dispatch.executeAction json_Unmarshal_result actions w actionName (Some req)
       execID fresh true None (Some msg))
  = Some (mkResp 200 (BodySync
      (mkSyncExecutionResponse execID actionName
         (if String.eqb call.1 "" then "SUCCESS" else "FAILURE")
         (if String.eqb call.1 ""
          then AMap (default {[ "value" := ANil ]} call.2)
          else ANil)))).
Proof.
  intros Hact Hdec. unfold Dispatch.executeAction. rewrite Hact.
  unfold MqttExec.trigger, MqttExec.onResultMessage, MqttExec.handleResponse.
  rewrite Hdec. destruct call as [err res]. unfold WorkerDispatch.result_of_call.
  cbn [fst snd Status Result Error app].
  destruct (String.eqb err "") eqn:Herr.
  - cbn [String.eqb Ascii.eqb Bool.eqb andb]. change (String.eqb "SUCCESS" "SUCCESS") with true.
    cbn iota. destruct res as [m|]; cbn [any_of_map default Dispatch.response]; done.
  - change (String.eqb "FAILURE" "SUCCESS") with false. cbn iota.
    cbn [Dispatch.response]. by rewrite Herr.
Qed.

(** X21: what the worker reports is what the sync caller gets, except for
    the error text.  When the result message decodes to the response the
    worker built for [response(err, result)], the sync execute answers 200
    with status SUCCESS and the result map when [err] is empty (a nil
    result arrives as the map with the one key value bound to null), and
    with status FAILURE and a null result otherwise: the error message
    itself is not part of the answer. *)
Theorem worker_result_reaches_sync_caller
    (actions : gmap string MqttAction) (w : world) (actionName : string)
    (action : MqttAction) (req : ExecuteActionRequest) (execID fresh : string)
    (msg : mqtt_Message) (call : response_call) :
  MqttExec.GetAction actions actionName = Some action →
  json_Unmarshal_result (Payload msg) = Some (WorkerDispatch.result_of_call call) →
  Dispatch.response
    (Dispatch.executeAction json_Unmarshal_result actions w actionName (Some req)
       execID fresh true None (Some msg))
  = Some (mkResp 200 (BodySync
      (mkSyncExecutionResponse execID actionName
         (if String.eqb call.1 "" then "SUCCESS" else "FAILURE")
         (if String.eqb call.1 ""
          then AMap (default {[ "value" := ANil ]} call.2)
          else ANil)))).
Proof. apply sync_response_of_worker_result. Qed.

(** X22: a message on the result topic that does not decode ends the
    execution without a result.  The handler invokes no callback, so a
    sync execute never answers and the queue of an async execution stays
    as it is, open; and since the handler unsubscribes all the same, no
    later result message is received. *)
Theorem undecodable_result_strands_execution
    (actions : gmap string MqttAction) (w : world) (actionName : string)
    (action : MqttAction) (req : ExecuteActionRequest) (execID fresh : string)
    (msg : mqtt_Message) (l : nat) (subs : gset string) :
  MqttExec.GetAction actions actionName = Some action →
  json_Unmarshal_result (Payload msg) = None →
  Dispatch.response
    (Dispatch.executeAction json_Unmarshal_result actions w actionName (Some req)
       execID fresh true None (Some msg)) = None
  ∧ Handlers.onResultDelivered json_Unmarshal_result l execID msg w = Ok w
  ∧ resultTopicOf execID
    ∉ subscriptions_after
        (MqttExec.onResultMessage json_Unmarshal_result execID true msg).2 subs.
Proof.
  intros Hact Hdec. unfold Dispatch.executeAction, Handlers.onResultDelivered.
  rewrite Hact.
  unfold MqttExec.trigger, MqttExec.onResultMessage, MqttExec.handleResponse,
    MqttExec.closer_Close.
  rewrite Hdec. cbn [fst snd app foldl Dispatch.response subscriptions_after
                     list_to_set foldr].
  repeat split. set_solver.
Qed.
End DispatchOutcomes.

Lemma async_publish_failure_reported_on_stream_witness :
  let h := Dispatch.executeAction Sample.unmarshal_result
             {[ "clean_cache" := Sample.clean_cache ]} Coordinator.empty_world
             "clean_cache" (Some (mkExecuteActionRequest None))
             "X" "fresh" false (Some "not connected") None in
  (∃ r, Dispatch.response h = Some (mkResp 200 (BodyAsync r))
        ∧ er_Status r = "submitted")
  ∧ ∃ l w',
      Dispatch.bound h = Some l
      ∧ foldl (fun acc call =>
                 w1 ←! acc ;; Coordinator.responseCallback l "X" call.1 call.2 w1)
              (Ok (Dispatch.after h)) (Dispatch.pending h) = Ok w'
      ∧ Coordinator.chan_of l w'
        = Some (Chan.mk
                  [Coordinator.complete_event
                     ("failed to publish request: " +:+ "not connected") None]
                  1000 true).
Proof.
  assert (Hact : MqttExec.GetAction
                   ({[ "clean_cache" := Sample.clean_cache ]} : gmap string MqttAction)
                   "clean_cache" = Some Sample.clean_cache)
    by (vm_compute; reflexivity).
  exact (async_publish_failure_reported_on_stream Sample.unmarshal_result _
           Coordinator.empty_world "clean_cache" Sample.clean_cache
           (mkExecuteActionRequest None) "X" "fresh" "not connected" None Hact).
Defined.

Lemma sync_execution_is_not_registered_witness :
  let h := Dispatch.executeAction Sample.unmarshal_result
             {[ "clean_cache" := Sample.clean_cache ]} Coordinator.empty_world
             "clean_cache" (Some (mkExecuteActionRequest None))
             "X" "fresh" true None
             (Some (mkMessage (resultTopicOf "X") (Sample.bytes Sample.result_number_json))) in
  Dispatch.after h = Coordinator.empty_world
  ∧ Dispatch.bound h = None
  ∧ Coordinator.streamLogs_open "X" true (Dispatch.after h)
    = Coordinator.Refused 404 "Execution not found"
  ∧ (Handlers.getStatus "X" (Dispatch.after h)).2.(Handlers.sb_state) = "UNKNOWN"
  ∧ ∀ qos, Subscribe (logTopicOf "X") qos ∉ Dispatch.traffic h.
Proof.
  assert (Hnew : Coordinator.getExecution "X" Coordinator.empty_world = None)
    by (vm_compute; reflexivity).
  exact (sync_execution_is_not_registered Sample.unmarshal_result
           {[ "clean_cache" := Sample.clean_cache ]} Coordinator.empty_world
           "clean_cache" (Some (mkExecuteActionRequest None)) "X" "fresh" true None
           (Some (mkMessage (resultTopicOf "X") (Sample.bytes Sample.result_number_json)))
           true Hnew (or_introl eq_refl)).
Defined.

Lemma worker_result_reaches_sync_caller_witness :
  Dispatch.response
    (Dispatch.executeAction Sample.unmarshal_result
       {[ "clean_cache" := Sample.clean_cache ]} Coordinator.empty_world
       "clean_cache" (Some (mkExecuteActionRequest None)) "X" "fresh" true None
       (Some (mkMessage (resultTopicOf "X") (Sample.bytes Sample.result_failure_json))))
  = Some (mkResp 200 (BodySync
      (mkSyncExecutionResponse "X" "clean_cache" "FAILURE" ANil))).
Proof.
  assert (Hact : MqttExec.GetAction
                   ({[ "clean_cache" := Sample.clean_cache ]} : gmap string MqttAction)
                   "clean_cache" = Some Sample.clean_cache)
    by (vm_compute; reflexivity).
  exact (worker_result_reaches_sync_caller Sample.unmarshal_result _
           Coordinator.empty_world "clean_cache" Sample.clean_cache
           (mkExecuteActionRequest None) "X" "fresh"
           (mkMessage (resultTopicOf "X") (Sample.bytes Sample.result_failure_json))
           ("Exception occurred", None) Hact eq_refl).
Defined.

Lemma undecodable_result_strands_execution_witness :
  Dispatch.response
    (Dispatch.executeAction Sample.unmarshal_result
       {[ "clean_cache" := Sample.clean_cache ]} Coordinator.empty_world
       "clean_cache" (Some (mkExecuteActionRequest None)) "X" "fresh" true None
       (Some (mkMessage (resultTopicOf "X") (Sample.bytes "not json")))) = None
  ∧ Handlers.onResultDelivered Sample.unmarshal_result 0 "X"
      (mkMessage (resultTopicOf "X") (Sample.bytes "not json")) Coordinator.empty_world
    = Ok Coordinator.empty_world
  ∧ resultTopicOf "X"
    ∉ subscriptions_after
        (MqttExec.onResultMessage Sample.unmarshal_result "X" true
           (mkMessage (resultTopicOf "X") (Sample.bytes "not json"))).2
        {[ resultTopicOf "X" ]}.
Proof.
  assert (Hact : MqttExec.GetAction
                   ({[ "clean_cache" := Sample.clean_cache ]} : gmap string MqttAction)
                   "clean_cache" = Some Sample.clean_cache)
    by (vm_compute; reflexivity).
  exact (undecodable_result_strands_execution Sample.unmarshal_result _
           Coordinator.empty_world "clean_cache" Sample.clean_cache
           (mkExecuteActionRequest None) "X" "fresh"
           (mkMessage (resultTopicOf "X") (Sample.bytes "not json")) 0
           {[ resultTopicOf "X" ]} Hact eq_refl).
Defined.

(** ** The log path *)

Section LogPath.
Import Coordinator.
Variable json_Unmarshal_log : list Byte.byte → option MqttLogEntry.

(** X23: a log message that decodes is queued with the coordinator's
    clock, not the worker's: on an open queue with room the event appended
    carries the level and the message of the entry and the time at which
    the coordinator handled it; the entry's own timestamp is discarded.  A
    log message that does not decode changes nothing. *)
Theorem log_events_carry_coordinator_time
    (l : nat) (execID now : string) (msg : mqtt_Message) (w : world)
    (c : Chan.t StreamEvent) :
  chan_of l w = Some c → Chan.closed c = false →
  (length (Chan.buf c) < Chan.cap c)%nat →
  match json_Unmarshal_log (Payload msg) with
  | Some entry =>
      ∃ w', Handlers.onLogDelivered json_Unmarshal_log l execID now msg w = Ok w'
            ∧ chan_of l w'
              = Some (Chan.mk
                        (Chan.buf c
                         ++ [mkStreamEvent "log"
                               (DataLog (mkMqttLogEntry now (Level entry) (Message entry)))])
                        (Chan.cap c) false)
            ∧ coord_log w' = coord_log w
  | None => Handlers.onLogDelivered json_Unmarshal_log l execID now msg w = Ok w
  end.
Proof.
  intros Hc Hopen Hroom. unfold Handlers.onLogDelivered, MqttExec.onLogMessage.
  destruct (json_Unmarshal_log (Payload msg)) as [entry|]; [|done].
  cbn [foldl obind fst snd].
  rewrite (logCallback_open _ _ _ _ _ _ _ Hc Hopen).
  apply Nat.ltb_lt in Hroom. rewrite Hroom.
  eexists. split; [done|]. split; [apply chan_of_set_chan|done].
Qed.
End LogPath.

(** ** The worker's answers *)

Section WorkerAnswers.
Variable json_Unmarshal_request : list Byte.byte → option ExecutionRequest.

(** X24: the worker answers on the topics the request names and nowhere
    else, always at QoS 1 with the retained flag set: every broker call of
    [executeAction] is a retained publication of a result on the request's
    result topic, the wait for it, or a retained publication of a log entry
    on the request's log topic; and there is one result publication for
    every invocation of the response callback. *)
Theorem worker_answers_on_request_topics
    (run : option (gmap string any) → list WorkerDispatch.callback)
    (msg : mqtt_Message) (req : ExecutionRequest) :
  json_Unmarshal_request (Payload msg) = Some req →
  ∃ ops, WorkerDispatch.executeAction json_Unmarshal_request (Some run) msg = Ok ops
    ∧ (∀ op, op ∈ ops →
         (∃ r, op = Publish (ResultTopic req) 1 true (WorkerDispatch.MsgResult r))
         ∨ op = PubWait (ResultTopic req)
         ∨ (∃ e, op = Publish (LogTopic req) 1 true (WorkerDispatch.MsgLog e)))
    ∧ ∀ call, WorkerDispatch.CbResponse call ∈ run (req_Parameters req) →
        Publish (ResultTopic req) 1 true
          (WorkerDispatch.MsgResult
             (mkMqttResultResponse (if String.eqb call.1 "" then "SUCCESS" else "FAILURE")
                (Coordinator.any_of_map call.2) call.1)) ∈ ops.
Proof.
  intros Hdec. unfold WorkerDispatch.executeAction. rewrite Hdec.
  eexists. split; [done|]. split.
  - intros op Hin. apply list_elem_of_In, in_flat_map in Hin as (cb & _ & Hin).
    apply list_elem_of_In in Hin.
    destruct cb as [now call|call]; cbn in Hin.
    + apply list_elem_of_singleton in Hin as ->. right. right. by eexists.
    + apply elem_of_cons in Hin as [->|Hin]; [left; by eexists|].
      apply list_elem_of_singleton in Hin as ->. by right; left.
  - intros call Hin. apply list_elem_of_In, in_flat_map.
    exists (WorkerDispatch.CbResponse call). split; [by apply list_elem_of_In|].
    by left.
Qed.
End WorkerAnswers.

Lemma log_events_carry_coordinator_time_witness :
  ∃ w',
    Handlers.onLogDelivered
      (fun _ => Some (mkMqttLogEntry "2026-01-01T00:00:00Z" "INFO" "line"))
      0 "X" "2026-01-01T00:00:05Z" (mkMessage (logTopicOf "X") [])
      (Coordinator.registerExecution "X" Coordinator.empty_world).2 = Ok w'
    ∧ Coordinator.chan_of 0 w'
      = Some (Chan.mk
                (Chan.buf (Chan.make 1000)
                 ++ [Coordinator.mkStreamEvent "log"
                       (Coordinator.DataLog
                          (mkMqttLogEntry "2026-01-01T00:00:05Z" "INFO" "line"))])
                (Chan.cap (Chan.make (A := Coordinator.StreamEvent) 1000)) false)
    ∧ Coordinator.coord_log w'
      = Coordinator.coord_log (Coordinator.registerExecution "X" Coordinator.empty_world).2.
Proof.
  assert (Hc : Coordinator.chan_of 0
                 (Coordinator.registerExecution "X" Coordinator.empty_world).2
               = Some (Chan.make 1000)) by (vm_compute; reflexivity).
  assert (Hroom : (length (Chan.buf (Chan.make (A := Coordinator.StreamEvent) 1000))
                   < Chan.cap (Chan.make (A := Coordinator.StreamEvent) 1000))%nat)
    by (apply Nat.ltb_lt; vm_compute; reflexivity).
  exact (log_events_carry_coordinator_time
           (fun _ => Some (mkMqttLogEntry "2026-01-01T00:00:00Z" "INFO" "line"))
           0 "X" "2026-01-01T00:00:05Z" (mkMessage (logTopicOf "X") [])
           _ (Chan.make 1000) Hc eq_refl Hroom).
Defined.

Lemma worker_answers_on_request_topics_witness :
  ∃ ops,
    WorkerDispatch.executeAction
      (fun _ => Some (mkExecutionRequest "X" None (resultTopicOf "X") (logTopicOf "X")))
      (Some (fun _ => [WorkerDispatch.CbLog "2026-01-01T00:00:00Z" ("INFO", "line");
                       WorkerDispatch.CbResponse ("", None)]))
      (mkMessage "tinpot/actions/clean_cache/trigger" []) = Ok ops
    ∧ (∀ op, op ∈ ops →
         (∃ r, op = Publish (resultTopicOf "X") 1 true (WorkerDispatch.MsgResult r))
         ∨ op = PubWait (resultTopicOf "X")
         ∨ (∃ e, op = Publish (logTopicOf "X") 1 true (WorkerDispatch.MsgLog e)))
    ∧ ∀ call,
        WorkerDispatch.CbResponse call
          ∈ [WorkerDispatch.CbLog "2026-01-01T00:00:00Z" ("INFO", "line");
             WorkerDispatch.CbResponse ("", None)] →
        Publish (resultTopicOf "X") 1 true
          (WorkerDispatch.MsgResult
             (mkMqttResultResponse (if String.eqb call.1 "" then "SUCCESS" else "FAILURE")
                (Coordinator.any_of_map call.2) call.1)) ∈ ops.
Proof.
  exact (worker_answers_on_request_topics
           (fun _ => Some (mkExecutionRequest "X" None (resultTopicOf "X") (logTopicOf "X")))
           (fun _ => [WorkerDispatch.CbLog "2026-01-01T00:00:00Z" ("INFO", "line");
                      WorkerDispatch.CbResponse ("", None)])
           (mkMessage "tinpot/actions/clean_cache/trigger" [])
           (mkExecutionRequest "X" None (resultTopicOf "X") (logTopicOf "X")) eq_refl).
Defined.

(** ** The capture of the interpreter's output *)

Section CaptureFacts.
Variable TrimSpace : string → string.

Lemma Split_parts_no_sep (sep : ascii) (s : string) :
  ∀ p, p ∈ Split sep s → contains_char sep p = false.
Proof.
  induction s as [|c s IH]; intros p Hin; cbn [Split] in Hin.
  - by apply list_elem_of_singleton in Hin as ->.
  - destruct (Ascii.eqb c sep) eqn:Hc.
    + apply elem_of_cons in Hin as [->|Hin]; [done|by apply IH].
    + destruct (Split sep s) as [|q qs].
      * apply list_elem_of_singleton in Hin as ->. cbn. by rewrite Hc.
      * apply elem_of_cons in Hin as [->|Hin].
        -- cbn. rewrite Hc. apply IH. by left.
        -- apply IH. by right.
Qed.

Lemma kept_lines_spec (chunk line : string) :
  line ∈ LogCapture.kept_lines TrimSpace chunk →
  contains_char LogCapture.LF line = false ∧ TrimSpace line ≠ "".
Proof.
  unfold LogCapture.kept_lines. intros [Hne Hin]%list_elem_of_filter.
  split; [by apply (Split_parts_no_sep _ chunk)|done].
Qed.

(** X25: every log message the worker's capture passes on is one line of
    the interpreter's output: its level is INFO, it holds no line feed,
    and it is not blank. *)
Theorem captured_lines_are_single_nonblank_lines
    (chunks : list string) (call : log_call) :
  call ∈ LogCapture.capture TrimSpace chunks →
  call.1 = "INFO" ∧ contains_char LogCapture.LF call.2 = false ∧ TrimSpace call.2 ≠ "".
Proof.
  unfold LogCapture.capture.
  intros (chunk & _ & Hin)%list_elem_of_In%in_flat_map.
  apply in_map_iff in Hin as (line & <- & Hin). apply list_elem_of_In in Hin.
  split; [done|]. by apply (kept_lines_spec chunk).
Qed.

Lemma contains_char_app (c : ascii) (s1 s2 : string) :
  contains_char c (s1 +:+ s2) = contains_char c s1 || contains_char c s2.
Proof.
  induction s1 as [|a s1 IH]; simpl; [done|]. by rewrite IH, orb_assoc.
Qed.

Lemma kept_lines_single (s : string) :
  contains_char LogCapture.LF s = false → TrimSpace s ≠ "" →
  LogCapture.kept_lines TrimSpace s = [s].
Proof.
  intros Hs Hne. unfold LogCapture.kept_lines. rewrite (Split_no_sep _ _ Hs).
  cbn. by rewrite decide_True.
Qed.

(** X26: the capture works on what each read returns, not on lines: a
    line of output that reaches the worker in two reads is passed on as
    two log messages, where one read would have given one. *)
Theorem line_across_reads_becomes_two_messages (s1 s2 : string) :
  contains_char LogCapture.LF s1 = false → contains_char LogCapture.LF s2 = false →
  TrimSpace s1 ≠ "" → TrimSpace s2 ≠ "" → TrimSpace (s1 +:+ s2) ≠ "" →
  LogCapture.capture TrimSpace [s1; s2] = [("INFO", s1); ("INFO", s2)]
  ∧ LogCapture.capture TrimSpace [s1 +:+ s2] = [("INFO", s1 +:+ s2)].
Proof.
  intros H1 H2 Hn1 Hn2 Hn. unfold LogCapture.capture. cbn [flat_map].
  rewrite (kept_lines_single s1), (kept_lines_single s2), (kept_lines_single (s1 +:+ s2));
    try done.
  by rewrite contains_char_app, H1, H2.
Qed.

End CaptureFacts.

(** ** Configuration *)

(** X28: [getEnv] never gives an empty setting when the default is not
    empty: a variable that is set to the empty string counts as unset, and
    any other value of the variable wins over the default. *)
Theorem getEnv_empty_is_unset (environ : gmap string string) (key def : string) :
  getEnv (<[key := ""]> environ) key def = def
  ∧ getEnv (delete key environ) key def = def
  ∧ (∀ v, v ≠ "" → getEnv (<[key := v]> environ) key def = v)
  ∧ (def ≠ "" → getEnv environ key def ≠ "").
Proof.
  unfold getEnv. repeat split.
  - by rewrite lookup_insert_eq.
  - by rewrite lookup_delete_eq.
  - intros v Hv. rewrite lookup_insert_eq. cbn.
    destruct (String.eqb_spec v ""); done.
  - intros Hdef. destruct (String.eqb_spec (default "" (environ !! key)) ""); done.
Qed.

Lemma captured_lines_are_single_nonblank_lines_witness :
  ("INFO", "Deleted 42 files").1 = "INFO"
  ∧ contains_char LogCapture.LF ("INFO", "Deleted 42 files").2 = false
  ∧ (fun s : string => s) ("INFO", "Deleted 42 files").2 ≠ "".
Proof.
  apply (captured_lines_are_single_nonblank_lines (fun s => s)
           ["Deleted 42 files" +:+ String LogCapture.LF ""]).
  assert (H : LogCapture.capture (fun s => s)
                ["Deleted 42 files" +:+ String LogCapture.LF ""]
              = [("INFO", "Deleted 42 files")]) by (vm_compute; reflexivity).
  rewrite H. by left.
Defined.

Lemma line_across_reads_becomes_two_messages_witness :
  LogCapture.capture (fun s => s) ["Deleted 42 "; "files"]
  = [("INFO", "Deleted 42 "); ("INFO", "files")]
  ∧ LogCapture.capture (fun s => s) ["Deleted 42 " +:+ "files"]
    = [("INFO", "Deleted 42 " +:+ "files")].
Proof.
  apply (line_across_reads_becomes_two_messages (fun s => s) "Deleted 42 " "files");
    (reflexivity || discriminate).
Defined.


Lemma getEnv_empty_is_unset_witness :
  getEnv (<["PORT" := "9000"]> ∅) "PORT" "8000" = "9000"
  ∧ getEnv ({[ "PORT" := "" ]} : gmap string string) "PORT" "8000" ≠ "".
Proof.
  split.
  - apply (proj1 (proj2 (proj2 (getEnv_empty_is_unset ∅ "PORT" "8000")))). discriminate.
  - apply (proj2 (proj2 (proj2 (getEnv_empty_is_unset {[ "PORT" := "" ]} "PORT" "8000")))).
    discriminate.
Defined.

Lemma registry_round_trips_witness :
  Coordinator.getExecution "Y"
    (Coordinator.registerExecution "X"
       (Coordinator.registerExecution "Y" Coordinator.empty_world).2).2
  = Coordinator.getExecution "Y"
      (Coordinator.registerExecution "Y" Coordinator.empty_world).2
  ∧ Coordinator.chan_of 0
      (Coordinator.registerExecution "X"
         (Coordinator.registerExecution "Y" Coordinator.empty_world).2).2
    = Some (Chan.make 1000).
Proof.
  pose proof (registry_round_trips "X" "Y"
                (Coordinator.registerExecution "Y" Coordinator.empty_world).2)
    as (_ & _ & _ & Hkeep & Hother & _).
  split.
  - apply Hother. discriminate.
  - apply Hkeep. vm_compute; reflexivity.
Defined.

Lemma listed_iff_dispatchable_witness :
  ai_Name (mkActionInfo "clean_cache" "Clean the cache" "Maintenance" ["days"])
  = "clean_cache"
  ∧ ∃ act,
      MqttExec.GetAction ({[ "clean_cache" := Sample.clean_cache ]} : gmap string MqttAction)
        "clean_cache" = Some act
      ∧ ai_Description (mkActionInfo "clean_cache" "Clean the cache" "Maintenance" ["days"])
        = Description act
      ∧ ai_Group (mkActionInfo "clean_cache" "Clean the cache" "Maintenance" ["days"])
        = Group act
      ∧ ai_Parameters (mkActionInfo "clean_cache" "Clean the cache" "Maintenance" ["days"])
        = Parameters act.
Proof.
  apply (proj2 (listed_iff_dispatchable {[ "clean_cache" := Sample.clean_cache ]}
                  "clean_cache")).
  vm_compute; reflexivity.
Defined.

(** ** From the interpreter's answer to the caller *)

Section ReturnValues.
Variable json_Unmarshal_result : list Byte.byte → option MqttResultResponse.
Variable json_module : bool.
Variable dumps : PyObject → option string.
Variable AsString : PyObject → string.

(** X29: what a sync caller gets back for the value an action returns,
    through the worker built on [pyActionManager].  When the value is
    serialised and the text decodes into a map, the caller gets that map;
    when the text is any other JSON (a number, a string, a list), the
    worker reports a nil result, and the caller gets status SUCCESS with
    the map that binds value to null, which is also what an action that
    returns None gives: the returned value is lost. *)
Theorem return_value_reaches_sync_caller
    (json_Unmarshal_map : string → option (gmap string any))
    (actions : gmap string MqttAction) (w : Coordinator.world) (actionName : string)
    (action : MqttAction) (req : ExecuteActionRequest) (execID fresh : string)
    (msg : mqtt_Message) (v : PyObject) (jsonStr : string) :
  MqttExec.GetAction actions actionName = Some action →
  json_module = true → v ≠ PyNone → dumps v = Some jsonStr →
  json_Unmarshal_result (Payload msg)
  = Some (WorkerDispatch.result_of_call
            (PyTrigger.response_of json_module dumps AsString json_Unmarshal_map true
               (PyTrigger.Returned v))) →
  Dispatch.response
    (Dispatch.executeAction json_Unmarshal_result actions w actionName (Some req)
       execID fresh true None (Some msg))
  = Some (mkResp 200 (BodySync
      (mkSyncExecutionResponse execID actionName "SUCCESS"
         (AMap (default {[ "value" := ANil ]} (json_Unmarshal_map jsonStr))))))
  ∧ (json_Unmarshal_map jsonStr = None →
     PyTrigger.response_of json_module dumps AsString json_Unmarshal_map true
       (PyTrigger.Returned v)
     = PyTrigger.response_of json_module dumps AsString json_Unmarshal_map true
         (PyTrigger.Returned PyNone)).
Proof.
  intros Hact Hmod Hv Hdumps Hdec.
  assert (Hresp : PyTrigger.response_of json_module dumps AsString json_Unmarshal_map true
                    (PyTrigger.Returned v) = ("", json_Unmarshal_map jsonStr)).
  { unfold PyTrigger.response_of. rewrite Hmod, Hdumps. by destruct v. }
  rewrite Hresp in Hdec |- *. split.
  - by rewrite (sync_response_of_worker_result json_Unmarshal_result
                  actions w actionName action req execID fresh msg _ Hact Hdec).
  - by intros ->.
Qed.

(** X30: the earlier worker and the earlier coordinator keep the value:
    the result published for a returned value that is serialised is the
    decoded text whatever JSON it is, and the sync execute that receives
    it within the deadline answers 200 with that very result. *)
Theorem legacy_return_value_is_kept
    (json_Unmarshal_any : string → any)
    (actions : gmap string Legacy.Action) (actionName : string) (act : Legacy.Action)
    (req : ExecuteActionRequest) (execID : string) (t : Z) (tie : bool)
    (v : PyObject) (jsonStr : string) :
  actions !! actionName = Some act →
  json_module = true → v ≠ PyNone → dumps v = Some jsonStr →
  (t < Legacy.syncTimeout)%Z →
  (Legacy.executeAction actions actionName (Some req) execID true false
     (Some (t, PyTrigger.legacy_response_of json_module dumps AsString
                 json_Unmarshal_any (PyTrigger.Returned v))) tie).1
  = mkResp 200 (BodySync
      (mkSyncExecutionResponse execID actionName "SUCCESS" (json_Unmarshal_any jsonStr))).
Proof.
  intros Hact Hmod Hv Hdumps Ht.
  assert (Hresp : PyTrigger.legacy_response_of json_module dumps AsString
                    json_Unmarshal_any (PyTrigger.Returned v)
                  = mkMqttResultResponse "SUCCESS" (json_Unmarshal_any jsonStr) "").
  { unfold PyTrigger.legacy_response_of. rewrite Hmod, Hdumps. by destruct v. }
  rewrite Hresp. unfold Legacy.executeAction, Legacy.select_result. rewrite Hact.
  apply Z.ltb_lt in Ht. by rewrite Ht.
Qed.
End ReturnValues.

Lemma return_value_reaches_sync_caller_witness :
  Dispatch.response
    (Dispatch.executeAction (fun _ => Some (mkMqttResultResponse "SUCCESS" ANil ""))
       {[ "clean_cache" := Sample.clean_cache ]} Coordinator.empty_world
       "clean_cache" (Some (mkExecuteActionRequest None)) "X" "fresh" true None
       (Some (mkMessage (resultTopicOf "X") [])))
  = Some (mkResp 200 (BodySync
      (mkSyncExecutionResponse "X" "clean_cache" "SUCCESS"
         (AMap {[ "value" := ANil ]}))))
  ∧ (@None (gmap string any) = None →
     PyTrigger.response_of true (fun _ => Some "42") (fun _ => "42") (fun _ => None) true
       (PyTrigger.Returned (PyLong 42))
     = PyTrigger.response_of true (fun _ => Some "42") (fun _ => "42") (fun _ => None) true
         (PyTrigger.Returned PyNone)).
Proof.
  assert (Hact : MqttExec.GetAction
                   ({[ "clean_cache" := Sample.clean_cache ]} : gmap string MqttAction)
                   "clean_cache" = Some Sample.clean_cache)
    by (vm_compute; reflexivity).
  apply (return_value_reaches_sync_caller
           (fun _ => Some (mkMqttResultResponse "SUCCESS" ANil ""))
           true (fun _ => Some "42") (fun _ => "42") (fun _ => None)
           _ Coordinator.empty_world "clean_cache" Sample.clean_cache
           (mkExecuteActionRequest None) "X" "fresh" (mkMessage (resultTopicOf "X") [])
           (PyLong 42) "42" Hact eq_refl).
  - discriminate.
  - reflexivity.
  - reflexivity.
Defined.

Lemma legacy_return_value_is_kept_witness :
  (Legacy.executeAction
     {[ "clean_cache" := Legacy.mkAction "d" "g" ∅ "tinpot/ops/clean_cache/run" ]}
     "clean_cache" (Some (mkExecuteActionRequest None)) "X" true false
     (Some (5 * Legacy.time_Second,
            PyTrigger.legacy_response_of true (fun _ => Some "42") (fun _ => "42")
              (fun _ => ANum (F64 42 0)) (PyTrigger.Returned (PyLong 42))))%Z false).1
  = mkResp 200 (BodySync
      (mkSyncExecutionResponse "X" "clean_cache" "SUCCESS"
         (ANum (F64 42 0)))).
Proof.
  assert (Hact : ({[ "clean_cache" :=
                       Legacy.mkAction "d" "g" ∅ "tinpot/ops/clean_cache/run" ]}
                  : gmap string Legacy.Action) !! "clean_cache"
                 = Some (Legacy.mkAction "d" "g" ∅ "tinpot/ops/clean_cache/run"))
    by (vm_compute; reflexivity).
  apply (legacy_return_value_is_kept true (fun _ => Some "42") (fun _ => "42")
           (fun _ => ANum (F64 42 0)) _ "clean_cache" _ (mkExecuteActionRequest None)
           "X" (5 * Legacy.time_Second)%Z false (PyLong 42) "42" Hact eq_refl).
  - discriminate.
  - reflexivity.
  - reflexivity.
Defined.

(** ** An execution under the broker's deliveries *)

Section Deliveries.
Import Coordinator Inbound.
Variable json_Unmarshal_result : list Byte.byte → option MqttResultResponse.
Variable json_Unmarshal_log : list Byte.byte → option MqttLogEntry.

Lemma handleResponse_at_most_one (msg : mqtt_Message) :
  MqttExec.handleResponse json_Unmarshal_result msg true = []
  ∨ ∃ call, MqttExec.handleResponse json_Unmarshal_result msg true = [call].
Proof.
  unfold MqttExec.handleResponse.
  destruct (json_Unmarshal_result (Payload msg)) as [r|]; [|by left].
  right. destruct (String.eqb (Status r) "SUCCESS"); [|by eexists].
  destruct (Result r); by eexists.
Qed.

Lemma closer_unsubscribes (execID : string) (subs : gset string) :
  (resultTopicOf execID
   ∉ subscriptions_after
       (MqttExec.closer_Close (resultTopicOf execID) (logTopicOf execID)) subs)
  ∧ (logTopicOf execID
     ∉ subscriptions_after
         (MqttExec.closer_Close (resultTopicOf execID) (logTopicOf execID)) subs).
Proof.
  unfold MqttExec.closer_Close. cbn [subscriptions_after list_to_set foldr].
  split; set_solver.
Qed.

(** The events of the stream's clients and the removal timer always run,
    and leave the queue open or closed as it was. *)
Lemma stream_step_total (l : nat) (execID : string) (e : exec_event)
    (w : world) (k : conn) (c : Chan.t StreamEvent) :
  chan_of l w = Some c → queue_ok c →
  (∃ flusher, e = EvConnect flusher) ∨ e = EvRecv ∨ e = EvCtxDone ∨ e = EvCleanup →
  ∃ w' k' c', exec_step l execID e (w, k) = Ok (w', k')
              ∧ chan_of l w' = Some c' ∧ queue_ok c'
              ∧ Chan.closed c' = Chan.closed c.
Proof.
  intros Hc Hok [[flusher ->]|[->|[->| ->]]]; cbn [exec_step].
  - destruct k; by eexists _, _, c.
  - destruct k as [| |l' frames|]; cbn [streamLogs_recv]; try by eexists _, _, c.
    destruct (chan_of l' w) as [c0|] eqn:Hc0; [|by eexists _, _, c].
    destruct (Chan.recv c0) as [ev c0'| |] eqn:Hrecv; try by eexists _, _, c.
    destruct (decide (l' = l)) as [->|Hne].
    + rewrite Hc in Hc0. injection Hc0 as <-.
      eexists _, _, c0'. split; [done|]. split; [apply chan_of_set_chan|].
      split; [by apply (queue_ok_recv c c0' ev)|].
      unfold Chan.recv in Hrecv. destruct (Chan.buf c); [by destruct (Chan.closed c)|].
      by injection Hrecv as _ <-.
    + eexists _, _, c. split; [done|].
      by rewrite chan_of_set_chan_ne.
  - by eexists _, _, c.
  - by eexists _, _, c.
Qed.

Lemma sys_step_ok (l : nat) (execID : string) (e : sys_event)
    (st : world * conn * gset string) :
  sys_ok l execID st →
  ∃ st', sys_step json_Unmarshal_result json_Unmarshal_log l execID e st = Ok st'
         ∧ sys_ok l execID st'.
Proof.
  destruct st as [[w k] subs]. intros (c & Hc & Hok & Hsubs). cbn [fst snd] in *.
  assert (Hstream : ∀ e', (∃ flusher, e' = EvConnect flusher) ∨ e' = EvRecv
                          ∨ e' = EvCtxDone ∨ e' = EvCleanup →
            ∃ st', (st1 ←! exec_step l execID e' (w, k) ;; Ok (st1, subs)) = Ok st'
                   ∧ sys_ok l execID st').
  { intros e' He'.
    destruct (stream_step_total l execID e' w k c Hc Hok He')
      as (w' & k' & c' & -> & Hc' & Hok' & Hcl).
    eexists. split; [done|]. exists c'. cbn [fst snd].
    split; [done|]. split; [done|]. rewrite Hcl. exact Hsubs. }
  destruct e as [now msg|flusher| | |]; cbn [sys_step fst snd].
  - unfold callbacks_of, subs_after.
    destruct (decide (Topic msg ∈ subs)) as [Hin|Hnin];
      [|eexists; split; [done|]; by exists c].
    destruct (String.eqb_spec (Topic msg) (resultTopicOf execID)) as [Ht|Hnt].
    + assert (Hopen : Chan.closed c = false).
      { destruct (Chan.closed c); [|done].
        destruct (Hsubs eq_refl) as [Hr _]. by rewrite <- Ht in Hr. }
      unfold MqttExec.onResultMessage. cbn [fst snd].
      destruct (closer_unsubscribes execID subs) as [Hr Hl].
      destruct (handleResponse_at_most_one msg) as [->|[[err res] ->]];
        cbn [map exec_run obind fst snd].
      * eexists. split; [done|]. exists c. cbn [fst snd]. by rewrite Hopen.
      * destruct (responseCallback_open l execID err res w c Hc Hopen)
          as (w1 & Hrun & Hc1 & _).
        cbn [exec_step]. rewrite Hrun. cbn [obind].
        eexists. split; [done|].
        destruct (exec_step_queue_ok l execID (EvResult err res) w w1 k k
                    (ex_intro _ c (conj Hc Hok)))
          as (c1 & Hc1' & Hok1); [cbn [exec_step]; by rewrite Hrun|].
        exists c1. cbn [fst snd]. by split; [|split].
    + destruct (String.eqb_spec (Topic msg) (logTopicOf execID)) as [Htl|Hntl];
        [|eexists; split; [done|]; by exists c].
      assert (Hopen : Chan.closed c = false).
      { destruct (Chan.closed c); [|done].
        destruct (Hsubs eq_refl) as [_ Hl]. by rewrite <- Htl in Hl. }
      unfold MqttExec.onLogMessage.
      destruct (json_Unmarshal_log (Payload msg)) as [entry|];
        cbn [map exec_run obind fst snd];
        [|eexists; split; [done|]; exists c; cbn [fst snd]; by rewrite Hopen].
      cbn [exec_step].
      pose proof (logCallback_open l execID now (Level entry) (Message entry) w c
                    Hc Hopen) as Hlog.
      rewrite Hlog. cbn [obind]. eexists. split; [done|].
      match goal with
      | |- sys_ok _ _ (?w1, _, _) =>
          destruct (exec_step_queue_ok l execID
                      (EvLog now (Level entry) (Message entry))
                      w w1 k k (ex_intro _ c (conj Hc Hok)))
            as (c1 & Hc1 & Hok1); [cbn [exec_step]; by rewrite Hlog|]
      end.
      exists c1. cbn [fst snd]. split; [done|]. split; [done|].
      intros Hcl. exfalso.
      destruct (length (Chan.buf c) <? Chan.cap c)%nat.
      * rewrite chan_of_set_chan in Hc1. injection Hc1 as <-. done.
      * unfold chan_of in Hc, Hc1. cbn [heap] in Hc1. rewrite Hc in Hc1.
        injection Hc1 as <-. by rewrite Hopen in Hcl.
  - apply Hstream. left. by eexists.
  - apply Hstream. by right; left.
  - apply Hstream. by right; right; left.
  - apply Hstream. by right; right; right.
Qed.

Lemma sys_run_ok (l : nat) (execID : string) (es : list sys_event) :
  ∀ st, sys_ok l execID st →
    ∃ st', sys_run json_Unmarshal_result json_Unmarshal_log l execID es st = Ok st'
           ∧ sys_ok l execID st'.
Proof.
  induction es as [|e es IH]; intros st Hst; cbn [sys_run].
  - by exists st.
  - destruct (sys_step_ok l execID e st Hst) as (st1 & -> & Hst1). cbn [obind].
    by apply IH.
Qed.

Lemma start_ok (actions : gmap string MqttAction) (w0 : world) (actionName : string)
    (action : MqttAction) (req : ExecuteActionRequest) (execID fresh : string)
    (pub_err : option string) (incoming : option mqtt_Message)
    (subs0 : gset string) (l : nat) :
  MqttExec.GetAction actions actionName = Some action →
  resultTopicOf execID ∉ subs0 → logTopicOf execID ∉ subs0 →
  Dispatch.bound
    (Dispatch.executeAction json_Unmarshal_result actions w0 actionName (Some req)
       execID fresh false pub_err incoming) = Some l →
  ∃ st, start
          (Dispatch.executeAction json_Unmarshal_result actions w0 actionName (Some req)
             execID fresh false pub_err incoming) l execID subs0 = Ok st
        ∧ sys_ok l execID st.
Proof.
  intros Hact Hr Hl. unfold start, sys_ok, Dispatch.executeAction. rewrite Hact.
  pose proof (registry_fresh_queue execID w0) as (_ & Hchan).
  destruct (registerExecution execID w0) as [l1 w1] eqn:Hreg. cbn [fst snd] in Hchan.
  unfold MqttExec.trigger, MqttExec.responseWithErr, MqttExec.closer_Close.
  rewrite triggerExecID_execution_id.
  generalize dependent (resultTopicOf execID). intros rt Hr.
  generalize dependent (logTopicOf execID). intros lt Hl.
  destruct pub_err as [e|];
    cbn [Dispatch.bound Dispatch.after Dispatch.pending Dispatch.traffic map exec_run
         exec_step obind fst snd];
    intros [= <-].
  - destruct (responseCallback_open l1 execID ("failed to publish request: " +:+ e) None
                w1 (Chan.make 1000) Hchan eq_refl) as (w' & Hcb & Hc' & _).
    rewrite Hcb. cbn [obind]. eexists. split; [done|].
    destruct (exec_step_queue_ok l1 execID
                (EvResult ("failed to publish request: " +:+ e) None)
                w1 w' NotConnected NotConnected
                (ex_intro _ _ (conj Hchan queue_ok_make)))
      as (c1 & Hc1 & Hok1); [cbn [exec_step]; by rewrite Hcb|].
    exists c1. cbn [fst snd app subscriptions_after list_to_set foldr].
    split; [done|]. split; [done|]. intros _. split; set_solver.
  - eexists. split; [done|]. exists (Chan.make 1000). cbn [fst snd].
    split; [done|]. split; [apply queue_ok_make|done].
Qed.



(** X2: no message can make a callback of an async execution panic.
    Whatever messages the broker forwards, in whatever order and with
    whatever payloads, and whatever the stream's clients and the removal
    timer do in between, every handler runs to its end; and a log message
    that arrives after the queue was closed is not handled at all. *)
Theorem broker_deliveries_never_panic
    (actions : gmap string MqttAction) (w0 : world) (actionName : string)
    (action : MqttAction) (req : ExecuteActionRequest) (execID fresh : string)
    (pub_err : option string) (incoming : option mqtt_Message)
    (subs0 : gset string) (l : nat) (evs : list sys_event) :
  MqttExec.GetAction actions actionName = Some action →
  resultTopicOf execID ∉ subs0 → logTopicOf execID ∉ subs0 →
  Dispatch.bound
    (Dispatch.executeAction json_Unmarshal_result actions w0 actionName (Some req)
       execID fresh false pub_err incoming) = Some l →
  ∃ st c,
    (st0 ←! start
              (Dispatch.executeAction json_Unmarshal_result actions w0 actionName
                 (Some req) execID fresh false pub_err incoming) l execID subs0 ;;
     sys_run json_Unmarshal_result json_Unmarshal_log l execID evs st0) = Ok st
    ∧ chan_of l st.1.1 = Some c
    ∧ (Chan.closed c = true → ∀ now msg, Topic msg = logTopicOf execID →
         sys_step json_Unmarshal_result json_Unmarshal_log l execID
           (Deliver now msg) st = Ok st).
Proof.
  intros Hact Hr Hl Hb.
  destruct (start_ok actions w0 actionName action req execID fresh pub_err incoming
              subs0 l Hact Hr Hl Hb) as (st0 & -> & Hok0).
  cbn [obind].
  destruct (sys_run_ok l execID evs st0 Hok0) as (st & Hrun & (c & Hc & Hq & Hsubs)).
  exists st, c. split; [done|]. split; [done|].
  intros Hcl now msg Ht. destruct (Hsubs Hcl) as [_ Hlog].
  cbn [sys_step]. unfold callbacks_of, subs_after.
  rewrite Ht. destruct (decide (logTopicOf execID ∈ st.2)) as [Hin|_]; [done|].
  cbn [exec_run obind]. by destruct st as [[? ?] ?].
Qed.
End Deliveries.


(** The result twice and then a late log line: nothing panics. *)
Lemma broker_deliveries_never_panic_witness :
  ∃ st c,
    (st0 ←! Inbound.start
              (Dispatch.executeAction Sample.unmarshal_result
                 {[ "clean_cache" := Sample.clean_cache ]} Coordinator.empty_world
                 "clean_cache" (Some (mkExecuteActionRequest None))
                 "X" "fresh" false None None) 0 "X" ∅ ;;
     Inbound.sys_run Sample.unmarshal_result
       (fun _ => Some (mkMqttLogEntry "2026-01-01T00:00:00Z" "INFO" "line"))
       0 "X"
       [Inbound.Connect true;
        Inbound.Deliver "2026-01-01T00:00:01Z"
          (mkMessage (resultTopicOf "X") (Sample.bytes Sample.result_object_json));
        Inbound.Deliver "2026-01-01T00:00:02Z"
          (mkMessage (resultTopicOf "X") (Sample.bytes Sample.result_object_json));
        Inbound.Deliver "2026-01-01T00:00:03Z" (mkMessage (logTopicOf "X") []);
        Inbound.Recv; Inbound.Recv; Inbound.Cleanup]
       st0) = Ok st
    ∧ Coordinator.chan_of 0 st.1.1 = Some c
    ∧ (Chan.closed c = true → ∀ now msg, Topic msg = logTopicOf "X" →
         Inbound.sys_step Sample.unmarshal_result
           (fun _ => Some (mkMqttLogEntry "2026-01-01T00:00:00Z" "INFO" "line"))
           0 "X" (Inbound.Deliver now msg) st = Ok st).
Proof.
  assert (Hact : MqttExec.GetAction
                   ({[ "clean_cache" := Sample.clean_cache ]} : gmap string MqttAction)
                   "clean_cache" = Some Sample.clean_cache)
    by (vm_compute; reflexivity).
  assert (Hb : Dispatch.bound
                 (Dispatch.executeAction Sample.unmarshal_result
                    {[ "clean_cache" := Sample.clean_cache ]} Coordinator.empty_world
                    "clean_cache" (Some (mkExecuteActionRequest None))
                    "X" "fresh" false None None) = Some 0%nat)
    by (vm_compute; reflexivity).
  exact (broker_deliveries_never_panic Sample.unmarshal_result
           (fun _ => Some (mkMqttLogEntry "2026-01-01T00:00:00Z" "INFO" "line"))
           {[ "clean_cache" := Sample.clean_cache ]} Coordinator.empty_world
           "clean_cache" Sample.clean_cache (mkExecuteActionRequest None)
           "X" "fresh" None None ∅ 0 _
           Hact (not_elem_of_empty _) (not_elem_of_empty _) Hb).
Defined.
